(** * icon-bg-wrangler: the screenshot worker of [src/index.ts]

    A shallow embedding of the Cloudflare worker that renders a page to an
    image and caches it under a fingerprint of the rendering options, and of
    the Durable Object [Browser] that keeps one headless browser warm with a
    recurring alarm.

    Conventions.
    - A JavaScript string is the list of its UTF-16 code units ([jsstring]).
    - A JavaScript number is an IEEE-754 binary64 value ([spec_float] of the
      core library), except the keep-alive counter and the clock, which only
      ever hold small integers and are kept in [Z].
    - The handlers run in a state-and-exception monad over the fields of the
      Durable Object and the part of the outside world they touch (alarm,
      key-value store, browser sessions); every effect is appended to a
      trace. *)

From Stdlib Require Import ZArith NArith List String Ascii Bool Lia.
From Stdlib Require Import Floats.SpecFloat.
From stdpp Require Import gmap.
Import ListNotations.

Set Warnings "-register-all".
Local Open Scope N_scope.

(* ===================================================================== *)
(** * JavaScript strings *)
(* ===================================================================== *)

Module JSString.

(** A string value: its sequence of 16-bit code units. *)
Definition jsstring := list N.

(** Embedding of an ASCII literal of the source text. *)
Definition str (s : string) : jsstring :=
  map N_of_ascii (list_ascii_of_string s).

(** A literal in which the apostrophe stands for the double quote (for
    JSON texts). *)
Definition qstr (s : string) : jsstring :=
  map (fun c => if c =? 39 then 34 else c) (str s).

Fixpoint starts_with (pre s : jsstring) : bool :=
  match pre, s with
  | [], _ => true
  | p :: pre', c :: s' => (p =? c) && starts_with pre' s'
  | _ :: _, [] => false
  end.

(** [String.prototype.includes]. *)
Fixpoint includes (s sub : jsstring) : bool :=
  starts_with sub s ||
  match s with
  | [] => false
  | _ :: s' => includes s' sub
  end.

(** [s.slice(1)]. *)
Definition slice1 (s : jsstring) : jsstring := tl s.

(** [s.split(c)] for a one-character separator: never the empty array. *)
Fixpoint split (c : N) (s : jsstring) : list jsstring :=
  match s with
  | [] => [[]]
  | x :: s' =>
      if x =? c then [] :: split c s'
      else match split c s' with
           | [] => [[x]]
           | w :: ws => (x :: w) :: ws
           end
  end.

(** [parts.join('')]. *)
Definition join (parts : list jsstring) : jsstring := concat parts.

(** [s.padStart(n, c)] for a one-character filler. *)
Definition padStart (n : nat) (c : N) (s : jsstring) : jsstring :=
  repeat c (n - length s) ++ s.

Definition digit_char (d : N) : N := if d <? 10 then 48 + d else 87 + d.

Fixpoint digits_rev (fuel : nat) (radix n : N) : list N :=
  match fuel with
  | O => []
  | S f => if n <? radix then [n]
           else (n mod radix) :: digits_rev f radix (n / radix)
  end.

(** [n.toString(radix)] for a non-negative integer [n] and [radix >= 2]. *)
Definition toString (radix n : N) : jsstring :=
  map digit_char (rev (digits_rev (S (N.to_nat (N.log2 n))) radix n)).

Definition is_lower_hex (c : N) : bool :=
  ((48 <=? c) && (c <=? 57)) || ((97 <=? c) && (c <=? 102)).

Definition eqb (a b : jsstring) : bool := bool_decide (a = b).

End JSString.
Export JSString.

(* ===================================================================== *)
(** * [TextEncoder.encode]: UTF-16 code units to UTF-8 bytes *)
(* ===================================================================== *)

Module TextEncoder.

Definition is_high_surrogate (c : N) : bool := (0xD800 <=? c) && (c <=? 0xDBFF).
Definition is_low_surrogate (c : N) : bool := (0xDC00 <=? c) && (c <=? 0xDFFF).

(** U+FFFD, the replacement for an unpaired surrogate. *)
Definition replacement : list N := [0xEF; 0xBF; 0xBD].

Definition enc2 (c : N) : list N := [0xC0 + c / 64; 0x80 + c mod 64].
Definition enc3 (c : N) : list N :=
  [0xE0 + c / 4096; 0x80 + (c / 64) mod 64; 0x80 + c mod 64].
Definition enc4 (c : N) : list N :=
  [0xF0 + c / 262144; 0x80 + (c / 4096) mod 64;
   0x80 + (c / 64) mod 64; 0x80 + c mod 64].

Fixpoint encode (s : jsstring) : list N :=
  match s with
  | [] => []
  | c :: r =>
      if c <? 0x80 then c :: encode r
      else if c <? 0x800 then enc2 c ++ encode r
      else if is_high_surrogate c then
        match r with
        | d :: r' =>
            if is_low_surrogate d
            then enc4 (0x10000 + (c - 0xD800) * 0x400 + (d - 0xDC00)) ++ encode r'
            else replacement ++ encode r
        | [] => replacement
        end
      else if is_low_surrogate c then replacement ++ encode r
      else enc3 c ++ encode r
  end.

End TextEncoder.

(* ===================================================================== *)
(** * SHA-256 (FIPS 180-4), the digest behind [crypto.subtle.digest] *)
(* ===================================================================== *)

Module SHA256.

Definition wrap32 (x : N) : N := x mod 0x100000000.
Definition add32 (x y : N) : N := wrap32 (x + y).
Definition rotr (n x : N) : N :=
  wrap32 (N.lor (N.shiftr x n) (N.shiftl x (32 - n))).
Definition shr (n x : N) : N := N.shiftr x n.
Definition not32 (x : N) : N := N.lxor x 0xFFFFFFFF.

Definition Ch (x y z : N) : N := N.lxor (N.land x y) (N.land (not32 x) z).
Definition Maj (x y z : N) : N :=
  N.lxor (N.lxor (N.land x y) (N.land x z)) (N.land y z).
Definition Sigma0 (x : N) : N := N.lxor (N.lxor (rotr 2 x) (rotr 13 x)) (rotr 22 x).
Definition Sigma1 (x : N) : N := N.lxor (N.lxor (rotr 6 x) (rotr 11 x)) (rotr 25 x).
Definition sigma0 (x : N) : N := N.lxor (N.lxor (rotr 7 x) (rotr 18 x)) (shr 3 x).
Definition sigma1 (x : N) : N := N.lxor (N.lxor (rotr 17 x) (rotr 19 x)) (shr 10 x).

(** The constants of the standard are the first 32 bits of the fractional
    parts of the cube roots (for [K]) and of the square roots (for [H0])
    of the first primes; they are computed here rather than copied. *)
Definition primes : list N :=
  [2; 3; 5; 7; 11; 13; 17; 19; 23; 29; 31; 37; 41; 43; 47; 53; 59; 61; 67; 71; 73; 79;
   83; 89; 97; 101; 103; 107; 109; 113; 127; 131; 137; 139; 149; 151; 157; 163; 167;
   173; 179; 181; 191; 193; 197; 199; 211; 223; 227; 229; 233; 239; 241; 251; 257; 263;
   269; 271; 277; 281; 283; 293; 307; 311].

(** The integer [k]-th root of [n], for [n] below [2^(40 k)], bit by bit. *)
Definition int_root (k n : N) : N :=
  fold_left (fun r i => if (r + 2 ^ i) ^ k <=? n then r + 2 ^ i else r)
            (map N.of_nat (rev (seq 0 40))) 0.

Definition root_fraction (k p : N) : N :=
  int_root k (p * 2 ^ (32 * k)) mod 0x100000000.

Definition K : list N := Eval vm_compute in map (root_fraction 3) primes.

(** The eight working variables / the intermediate hash value. *)
Record regs := Regs { ra : N; rb : N; rc : N; rd : N; re : N; rf : N; rg : N; rh : N }.

Definition H0 : regs :=
  Eval vm_compute in
    match map (root_fraction 2) (firstn 8 primes) with
    | [a; b; c; d; e; f; g; h] => Regs a b c d e f g h
    | _ => Regs 0 0 0 0 0 0 0 0
    end.

(** Padding: a one bit, zeros up to 56 mod 64, the bit length on 64 bits. *)
Definition be_bytes (count : nat) (x : N) : list N :=
  map (fun i => (x / 2 ^ (8 * N.of_nat i)) mod 256) (rev (seq 0 count)).

Definition pad (msg : list N) : list N :=
  let len := length msg in
  let zeros := ((64 - ((len + 9) mod 64)) mod 64)%nat in
  msg ++ [0x80] ++ repeat 0 zeros ++ be_bytes 8 (8 * N.of_nat len).

Definition word_of (b0 b1 b2 b3 : N) : N :=
  wrap32 (b0 mod 256 * 0x1000000 + b1 mod 256 * 0x10000 + b2 mod 256 * 0x100 + b3 mod 256).

Fixpoint words_of (fuel : nat) (bs : list N) : list N :=
  match fuel, bs with
  | S f, b0 :: b1 :: b2 :: b3 :: r => word_of b0 b1 b2 b3 :: words_of f r
  | _, _ => []
  end.

(** Message schedule, most recent word first. *)
Fixpoint extend (n : nat) (w : list N) : list N :=
  match n with
  | O => w
  | S n' =>
      let x := add32 (add32 (sigma1 (nth 1 w 0)) (nth 6 w 0))
                     (add32 (sigma0 (nth 14 w 0)) (nth 15 w 0)) in
      extend n' (x :: w)
  end.

Definition schedule (block : list N) : list N :=
  rev (extend 48 (rev (words_of 16 block))).

Definition round (r : regs) (kw : N * N) : regs :=
  let '(k, w) := kw in
  let t1 := add32 (add32 (add32 (add32 (rh r) (Sigma1 (re r))) (Ch (re r) (rf r) (rg r))) k) w in
  let t2 := add32 (Sigma0 (ra r)) (Maj (ra r) (rb r) (rc r)) in
  Regs (add32 t1 t2) (ra r) (rb r) (rc r) (add32 (rd r) t1) (re r) (rf r) (rg r).

Definition compress (h : regs) (block : list N) : regs :=
  let r := fold_left round (combine K (schedule block)) h in
  Regs (add32 (ra h) (ra r)) (add32 (rb h) (rb r)) (add32 (rc h) (rc r))
       (add32 (rd h) (rd r)) (add32 (re h) (re r)) (add32 (rf h) (rf r))
       (add32 (rg h) (rg r)) (add32 (rh h) (rh r)).

Fixpoint blocks (fuel : nat) (h : regs) (bs : list N) : regs :=
  match fuel with
  | O => h
  | S f =>
      match bs with
      | [] => h
      | _ => blocks f (compress h (firstn 64 bs)) (skipn 64 bs)
      end
  end.

Definition word_bytes (w : N) : list N := be_bytes 4 w.

Definition digest_bytes (r : regs) : list N :=
  word_bytes (ra r) ++ word_bytes (rb r) ++ word_bytes (rc r) ++ word_bytes (rd r) ++
  word_bytes (re r) ++ word_bytes (rf r) ++ word_bytes (rg r) ++ word_bytes (rh r).

(** The 32-byte digest of a byte sequence. *)
Definition digest (msg : list N) : list N :=
  let p := pad msg in
  digest_bytes (blocks (S (length p / 64)) H0 p).

End SHA256.

(* ===================================================================== *)
(** * [hashString] (index.ts, lines 139-146) *)
(* ===================================================================== *)

(** [byte.toString(16).padStart(2, '0')]. *)
Definition hex_byte (byte : N) : jsstring := padStart 2 48 (toString 16 byte).

Definition hashString (inputStr : jsstring) : jsstring :=
  let data := TextEncoder.encode inputStr in
  let hashBuffer := SHA256.digest data in
  let hashArray := hashBuffer in
  let hashedStr := join (map hex_byte hashArray) in
  hashedStr.

(* ===================================================================== *)
(** * JavaScript numbers and values *)
(* ===================================================================== *)

Module JSNumber.

(** A Number: an IEEE-754 binary64 value. *)
Definition number := spec_float.

Definition prec : Z := 53.
Definition emax : Z := 1024.

(** The Number nearest to an integer (ties to even, overflow to infinity). *)
Definition of_Z (z : Z) : number := binary_normalize prec emax z 0 false.

Definition NaN : number := S754_nan.

(** [Number.isNaN]. *)
Definition isNaN (x : number) : bool :=
  match x with S754_nan => true | _ => false end.

Definition is_zero (x : number) : bool :=
  match x with S754_zero _ => true | _ => false end.

(** ToBoolean on a Number: false exactly for +0, -0 and NaN. *)
Definition truthy (x : number) : bool := negb (is_zero x || isNaN x).

End JSNumber.
Export JSNumber.

(** What [superjson.parse] can hand back.  [VOther] stands for the values
    that are neither JSON values nor [undefined] (a bigint, a Date, a Map
    ...): their [typeof] is neither ['number'] nor ['string'] and they have
    no [xMax] or [yMax] member. *)
Inductive JSValue : Type :=
| VUndefined
| VNull
| VBool (b : bool)
| VNumber (x : number)
| VString (s : jsstring)
| VArray (items : list JSValue)
| VObject (props : list (jsstring * JSValue))
| VOther (kind : jsstring).

(** What a handler can throw. *)
Inductive exn : Type :=
| TypeError
| URIError
| SyntaxError
| LaunchError
| BrowserError.

Inductive outcome (A : Type) : Type :=
| Ret (a : A)
| Throw (e : exn).
Arguments Ret {A} a.
Arguments Throw {A} e.

Fixpoint assoc (key : jsstring) (props : list (jsstring * JSValue)) : option JSValue :=
  match props with
  | [] => None
  | (k, v) :: rest => if JSString.eqb k key then Some v else assoc key rest
  end.

(** [obj[name]] for a member name that is neither an array index nor
    defined on a prototype (the handler only reads [xMax] and [yMax]):
    reading a member of [undefined] or [null] throws. *)
Definition get_member (obj : JSValue) (name : jsstring) : outcome JSValue :=
  match obj with
  | VUndefined | VNull => Throw TypeError
  | VObject props =>
      match assoc name props with
      | Some v => Ret v
      | None => Ret VUndefined
      end
  | _ => Ret VUndefined
  end.

(* ===================================================================== *)
(** * [parseInt] with the radix left out *)
(* ===================================================================== *)

Module ParseInt.

(** WhiteSpace and LineTerminator code points. *)
Definition is_white (c : N) : bool :=
  (c =? 9) || (c =? 10) || (c =? 11) || (c =? 12) || (c =? 13) || (c =? 32)
  || (c =? 0xA0) || (c =? 0x1680) || ((0x2000 <=? c) && (c <=? 0x200A))
  || (c =? 0x2028) || (c =? 0x2029) || (c =? 0x202F) || (c =? 0x205F)
  || (c =? 0x3000) || (c =? 0xFEFF).

Fixpoint trim_start (s : jsstring) : jsstring :=
  match s with
  | [] => []
  | c :: r => if is_white c then trim_start r else s
  end.

Definition digit_value (c : N) : option N :=
  if (48 <=? c) && (c <=? 57) then Some (c - 48)
  else if (97 <=? c) && (c <=? 122) then Some (c - 87)
  else if (65 <=? c) && (c <=? 90) then Some (c - 55)
  else None.

(** The longest prefix made of radix-[R] digits, as digit values. *)
Fixpoint take_digits (R : N) (s : jsstring) : list N :=
  match s with
  | [] => []
  | c :: r =>
      match digit_value c with
      | Some d => if d <? R then d :: take_digits R r else []
      | None => []
      end
  end.

Definition mathInt (R : N) (ds : list N) : N :=
  fold_left (fun acc d => acc * R + d) ds 0.

(** Sign, then an optional [0x]/[0X] prefix, then digits.  The value is
    rounded exactly (the language lets an engine drop decimal digits after
    the twentieth; V8 does not). *)
Definition parseInt (string : jsstring) : number :=
  let trimmed := trim_start string in
  let '(sign, unsigned) :=
    match trimmed with
    | c :: r => if c =? 45 then (true, r)
                else if c =? 43 then (false, r)
                else (false, trimmed)
    | [] => (false, trimmed)
    end in
  let '(R, body) :=
    match unsigned with
    | a :: b :: r =>
        if (a =? 48) && ((b =? 120) || (b =? 88)) then (16, r) else (10, unsigned)
    | _ => (10, unsigned)
    end in
  match take_digits R body with
  | [] => NaN
  | ds =>
      let m := mathInt R ds in
      if m =? 0 then S754_zero sign
      else binary_normalize prec emax (cond_Zopp sign (Z.of_N m)) 0 false
  end.

End ParseInt.
Export ParseInt.

(* ===================================================================== *)
(** * [getNumber] (index.ts, lines 151-164) and the viewport defaults *)
(* ===================================================================== *)

(** [Number.isNaN(number) || typeof number !== 'number'], where [None] is
    [undefined]. *)
Definition nan_or_not_number (number : option number) : bool :=
  match number with
  | Some x => isNaN x
  | None => true
  end.

Definition getNumber (value : JSValue) : option number :=
  let number :=
    match value with VNumber x => Some x | _ => None end in
  let number :=
    if nan_or_not_number number
    then match value with VString s => Some (parseInt s) | _ => None end
    else number in
  let number :=
    if nan_or_not_number number then None else number in
  number.

(** [x || d]: the right operand replaces a falsy left operand. *)
Definition or_default (x : option number) (d : number) : number :=
  match x with
  | Some n => if truthy n then n else d
  | None => d
  end.

Definition default_xMax : number := of_Z 360.
Definition default_yMax : number := of_Z 1600.

(** Lines 88-89: the viewport for a parsed options value. *)
Definition viewport (parsedObj : JSValue) : outcome (number * number) :=
  match get_member parsedObj (str "xMax") with
  | Throw e => Throw e
  | Ret vx =>
      let xMax := or_default (getNumber vx) default_xMax in
      match get_member parsedObj (str "yMax") with
      | Throw e => Throw e
      | Ret vy =>
          let yMax := or_default (getNumber vy) default_yMax in
          Ret (xMax, yMax)
      end
  end.

(* ===================================================================== *)
(** * [decodeURIComponent] *)
(* ===================================================================== *)

Module URIDecode.

Definition hex_value (c : N) : option N :=
  if (48 <=? c) && (c <=? 57) then Some (c - 48)
  else if (97 <=? c) && (c <=? 102) then Some (c - 87)
  else if (65 <=? c) && (c <=? 70) then Some (c - 55)
  else None.

(** Two hexadecimal digits at the head of [s]. *)
Definition hex_octet (s : jsstring) : option (N * jsstring) :=
  match s with
  | a :: b :: r =>
      match hex_value a, hex_value b with
      | Some x, Some y => Some (16 * x + y, r)
      | _, _ => None
      end
  | _ => None
  end.

(** [n] further [%XX] escapes. *)
Fixpoint continuation (n : nat) (s : jsstring) : option (list N * jsstring) :=
  match n with
  | O => Some ([], s)
  | S n' =>
      match s with
      | c :: r =>
          if c =? 37 then
            match hex_octet r with
            | Some (b, r') =>
                match continuation n' r' with
                | Some (bs, r'') => Some (b :: bs, r'')
                | None => None
                end
            | None => None
            end
          else None
      | [] => None
      end
  end.

(** Number of leading one bits of an octet (5 stands for five or more). *)
Definition leading_ones (B : N) : nat :=
  if B <? 0x80 then 0 else if B <? 0xC0 then 1 else if B <? 0xE0 then 2
  else if B <? 0xF0 then 3 else if B <? 0xF8 then 4 else 5.

Definition between (lo hi x : N) : bool := (lo <=? x) && (x <=? hi).

(** The code point of a well-formed UTF-8 sequence of 2 to 4 octets. *)
Definition code_point (octets : list N) : option N :=
  match octets with
  | [b0; b1] =>
      if between 0xC2 0xDF b0 && between 0x80 0xBF b1
      then Some ((b0 - 0xC0) * 64 + (b1 - 0x80)) else None
  | [b0; b1; b2] =>
      if ((b0 =? 0xE0) && between 0xA0 0xBF b1
          || between 0xE1 0xEC b0 && between 0x80 0xBF b1
          || (b0 =? 0xED) && between 0x80 0x9F b1
          || between 0xEE 0xEF b0 && between 0x80 0xBF b1)
         && between 0x80 0xBF b2
      then Some ((b0 - 0xE0) * 4096 + (b1 - 0x80) * 64 + (b2 - 0x80)) else None
  | [b0; b1; b2; b3] =>
      if ((b0 =? 0xF0) && between 0x90 0xBF b1
          || between 0xF1 0xF3 b0 && between 0x80 0xBF b1
          || (b0 =? 0xF4) && between 0x80 0x8F b1)
         && between 0x80 0xBF b2 && between 0x80 0xBF b3
      then Some ((b0 - 0xF0) * 262144 + (b1 - 0x80) * 4096
                 + (b2 - 0x80) * 64 + (b3 - 0x80)) else None
  | _ => None
  end.

Definition utf16 (cp : N) : jsstring :=
  if cp <? 0x10000 then [cp]
  else [0xD800 + (cp - 0x10000) / 0x400; 0xDC00 + (cp - 0x10000) mod 0x400].

(** The decoding loop; [None] is a thrown URIError.  Every round consumes
    a code unit, so [length s] rounds are enough. *)
Fixpoint decode (fuel : nat) (s : jsstring) : option jsstring :=
  match s with
  | [] => Some []
  | c :: r =>
      match fuel with
      | O => None
      | S f =>
          if c =? 37 then
            match hex_octet r with
            | None => None
            | Some (B, r1) =>
                match leading_ones B with
                | O => option_map (cons B) (decode f r1)
                | 1%nat => None
                | 5%nat => None
                | n =>
                    match continuation (n - 1) r1 with
                    | None => None
                    | Some (bs, r2) =>
                        match code_point (B :: bs) with
                        | None => None
                        | Some V => option_map (app (utf16 V)) (decode f r2)
                        end
                    end
                end
            end
          else option_map (cons c) (decode f r)
      end
  end.

Definition decodeURIComponent (s : jsstring) : outcome jsstring :=
  match decode (length s) s with
  | Some r => Ret r
  | None => Throw URIError
  end.

End URIDecode.
Export URIDecode.

(* ===================================================================== *)
(** * [parseSearchParams] (index.ts, lines 166-186) *)
(* ===================================================================== *)

(** A member of [ParsedParams]: [string | string[]]; an absent key is
    [undefined]. *)
Inductive param : Type :=
| PString (s : jsstring)
| PArray (l : list jsstring).

(** ToBoolean on a member: only the empty string is falsy. *)
Definition param_truthy (p : option param) : bool :=
  match p with
  | Some (PString []) => false
  | Some _ => true
  | None => false
  end.

(** One round of the loop.  The map holds the own properties of [params].
    For a key that [Object.prototype] also defines the source's test
    [params[key]] sees the inherited member; the model does not follow
    that, and the handler reads only [options], which no prototype
    defines. *)
Definition parse_pair (params : gmap jsstring param) (item : jsstring)
  : outcome (gmap jsstring param) :=
  let pair := split 61 item in
  match decodeURIComponent (nth 0 pair []) with
  | Throw e => Throw e
  | Ret key =>
      let second := nth 1 pair [] in
      match decodeURIComponent second with
      | Throw e => Throw e
      | Ret value =>
          match key with
          | [] => Ret params
          | _ =>
              if param_truthy (params !! key) then
                match params !! key with
                | Some (PArray l) => Ret (<[key := PArray (l ++ [value])]> params)
                | Some (PString s) => Ret (<[key := PArray [s; value]]> params)
                | None => Ret params
                end
              else Ret (<[key := PString value]> params)
          end
      end
  end.

Fixpoint parse_pairs (params : gmap jsstring param) (items : list jsstring)
  : outcome (gmap jsstring param) :=
  match items with
  | [] => Ret params
  | item :: rest =>
      match parse_pair params item with
      | Throw e => Throw e
      | Ret params' => parse_pairs params' rest
      end
  end.

Definition parseSearchParams (queryString : jsstring) : outcome (gmap jsstring param) :=
  let searchParams := split 38 (slice1 queryString) in
  parse_pairs ∅ searchParams.

(* ===================================================================== *)
(** * [JSON.parse] and [JSON.stringify] *)
(* ===================================================================== *)

(** Executable model of the two built-ins for JSON texts made of objects,
    arrays, strings, integer literals, [true], [false] and [null].  A
    result [None] stands for a thrown SyntaxError or for a text outside
    this fragment (a fraction or an exponent). *)
Module JSON.

Definition is_ws (c : N) : bool := (c =? 32) || (c =? 9) || (c =? 10) || (c =? 13).

Fixpoint skip_ws (s : jsstring) : jsstring :=
  match s with
  | [] => []
  | c :: r => if is_ws c then skip_ws r else s
  end.

Definition is_digit (c : N) : bool := (48 <=? c) && (c <=? 57).

Definition hex4 (a b c d : N) : option N :=
  match hex_value a, hex_value b, hex_value c, hex_value d with
  | Some x, Some y, Some z, Some w => Some (4096 * x + 256 * y + 16 * z + w)
  | _, _, _, _ => None
  end.

Definition simple_escape (e : N) : option N :=
  if e =? 34 then Some 34 else if e =? 92 then Some 92 else if e =? 47 then Some 47
  else if e =? 98 then Some 8 else if e =? 102 then Some 12 else if e =? 110 then Some 10
  else if e =? 114 then Some 13 else if e =? 116 then Some 9 else None.

(** The body of a string literal, after the opening quote: the decoded
    string and what follows the closing quote. *)
Fixpoint scan_string (s : jsstring) : option (jsstring * jsstring) :=
  match s with
  | [] => None
  | c :: r =>
      if c =? 34 then Some ([], r)
      else if c <? 32 then None
      else if c =? 92 then
        match r with
        | e :: r1 =>
            if e =? 117 then
              match r1 with
              | h1 :: h2 :: h3 :: h4 :: r2 =>
                  match hex4 h1 h2 h3 h4, scan_string r2 with
                  | Some u, Some (b, r3) => Some (u :: b, r3)
                  | _, _ => None
                  end
              | _ => None
              end
            else
              match simple_escape e, scan_string r1 with
              | Some u, Some (b, r3) => Some (u :: b, r3)
              | _, _ => None
              end
        | [] => None
        end
      else
        match scan_string r with
        | Some (b, r') => Some (c :: b, r')
        | None => None
        end
  end.

(** The leading decimal digits of [s], as digit values, and the rest. *)
Fixpoint scan_digits (s : jsstring) : list N * jsstring :=
  match s with
  | [] => ([], [])
  | c :: r =>
      if is_digit c
      then let '(ds, r') := scan_digits r in ((c - 48) :: ds, r')
      else ([], s)
  end.

Definition digits_value (ds : list N) : N :=
  fold_left (fun acc d => acc * 10 + d) ds 0.

(** The Number of an integer literal: [-0] is negative zero. *)
Definition number_of (neg : bool) (ds : list N) : number :=
  let m := digits_value ds in
  if m =? 0 then S754_zero neg
  else binary_normalize prec emax (cond_Zopp neg (Z.of_N m)) 0 false.

Definition starts_fraction (s : jsstring) : bool :=
  match s with
  | c :: _ => (c =? 46) || (c =? 101) || (c =? 69)
  | [] => false
  end.

(** An optional minus sign, then [0] or a digit string without leading
    zero. *)
Definition scan_number (s : jsstring) : option (number * jsstring) :=
  let '(neg, s1) :=
    match s with
    | c :: r => if c =? 45 then (true, r) else (false, s)
    | [] => (false, s)
    end in
  match scan_digits s1 with
  | ([], _) => None
  | (d :: ds, r) =>
      if (d =? 0) && negb (length ds =? 0)%nat then None
      else if starts_fraction r then None
      else Some (number_of neg (d :: ds), r)
  end.

(** A canonical array index: [0] or a digit string without leading zero
    whose value is below [2^32 - 1]. *)
Definition array_index (k : jsstring) : option N :=
  match scan_digits k with
  | (d :: ds, []) =>
      if (d =? 0) && negb (length ds =? 0)%nat then None
      else let i := digits_value (d :: ds) in
           if i <? 4294967295 then Some i else None
  | _ => None
  end.

Fixpoint replace_member (k : jsstring) (v : JSValue) (props : list (jsstring * JSValue))
  : option (list (jsstring * JSValue)) :=
  match props with
  | [] => None
  | (k', v') :: rest =>
      if JSString.eqb k' k then Some ((k', v) :: rest)
      else match replace_member k v rest with
           | Some rest' => Some ((k', v') :: rest')
           | None => None
           end
  end.

Fixpoint insert_index (i : N) (k : jsstring) (v : JSValue) (props : list (jsstring * JSValue))
  : list (jsstring * JSValue) :=
  match props with
  | [] => [(k, v)]
  | (k', v') :: rest =>
      match array_index k' with
      | Some j => if j <? i then (k', v') :: insert_index i k v rest
                  else (k, v) :: props
      | None => (k, v) :: props
      end
  end.

(** Defining member [k] on an object: a present key keeps its place and
    takes the new value; a new array index goes among the indices, in
    ascending order, before every other key; any other new key goes last
    (the order in which [JSON.stringify] and [Object.entries] later walk
    the object). *)
Definition define_member (props : list (jsstring * JSValue)) (k : jsstring) (v : JSValue)
  : list (jsstring * JSValue) :=
  match replace_member k v props with
  | Some props' => props'
  | None =>
      match array_index k with
      | Some i => insert_index i k v props
      | None => props ++ [(k, v)]
      end
  end.

Definition make_object (members : list (jsstring * JSValue)) : JSValue :=
  VObject (fold_left (fun o kv => define_member o (fst kv) (snd kv)) members []).

Definition lit_true : jsstring := str "true".
Definition lit_false : jsstring := str "false".
Definition lit_null : jsstring := str "null".

(** Recursive descent; every call consumes fuel, and a text needs no
    more fuel than it has code units. *)
Fixpoint parse_value (fuel : nat) (s : jsstring) : option (JSValue * jsstring) :=
  match fuel with
  | O => None
  | S f =>
      match skip_ws s with
      | [] => None
      | c :: r =>
          if c =? 123 then
            match skip_ws r with
            | c' :: r' =>
                if c' =? 125 then Some (VObject [], r')
                else match parse_members f r with
                     | Some (ms, r2) => Some (make_object ms, r2)
                     | None => None
                     end
            | [] => None
            end
          else if c =? 91 then
            match skip_ws r with
            | c' :: r' =>
                if c' =? 93 then Some (VArray [], r')
                else match parse_elements f r with
                     | Some (vs, r2) => Some (VArray vs, r2)
                     | None => None
                     end
            | [] => None
            end
          else if c =? 34 then
            match scan_string r with
            | Some (b, r') => Some (VString b, r')
            | None => None
            end
          else if starts_with lit_true (c :: r) then Some (VBool true, skipn 4 (c :: r))
          else if starts_with lit_false (c :: r) then Some (VBool false, skipn 5 (c :: r))
          else if starts_with lit_null (c :: r) then Some (VNull, skipn 4 (c :: r))
          else
            match scan_number (c :: r) with
            | Some (x, r') => Some (VNumber x, r')
            | None => None
            end
      end
  end
with parse_elements (fuel : nat) (s : jsstring) : option (list JSValue * jsstring) :=
  match fuel with
  | O => None
  | S f =>
      match parse_value f s with
      | Some (v, r) =>
          match skip_ws r with
          | c :: r' =>
              if c =? 44 then
                match parse_elements f r' with
                | Some (vs, r2) => Some (v :: vs, r2)
                | None => None
                end
              else if c =? 93 then Some ([v], r')
              else None
          | [] => None
          end
      | None => None
      end
  end
with parse_members (fuel : nat) (s : jsstring)
  : option (list (jsstring * JSValue) * jsstring) :=
  match fuel with
  | O => None
  | S f =>
      match skip_ws s with
      | q :: r0 =>
          if q =? 34 then
            match scan_string r0 with
            | Some (k, r1) =>
                match skip_ws r1 with
                | c1 :: r2 =>
                    if c1 =? 58 then
                      match parse_value f r2 with
                      | Some (v, r3) =>
                          match skip_ws r3 with
                          | c3 :: r4 =>
                              if c3 =? 44 then
                                match parse_members f r4 with
                                | Some (ms, r5) => Some ((k, v) :: ms, r5)
                                | None => None
                                end
                              else if c3 =? 125 then Some ([(k, v)], r4)
                              else None
                          | [] => None
                          end
                      | None => None
                      end
                    else None
                | [] => None
                end
            | None => None
            end
          else None
      | [] => None
      end
  end.

(** [JSON.parse(text)]: one value, then only white space. *)
Definition parse (text : jsstring) : option JSValue :=
  match parse_value (S (length text)) text with
  | Some (v, r) => match skip_ws r with [] => Some v | _ => None end
  | None => None
  end.

Definition hex_digit (d : N) : N := digit_char (d mod 16).

Definition unicode_escape (c : N) : jsstring :=
  [92; 117; hex_digit (c / 4096); hex_digit (c / 256); hex_digit (c / 16); hex_digit c].

Definition is_surrogate (c : N) : bool := (0xD800 <=? c) && (c <=? 0xDFFF).

(** QuoteJSONString, without the surrounding quotes: a well-formed
    surrogate pair is copied, a lone surrogate is escaped. *)
Fixpoint quote_body (s : jsstring) : jsstring :=
  match s with
  | [] => []
  | c :: r =>
      if c =? 34 then [92; 34] ++ quote_body r
      else if c =? 92 then [92; 92] ++ quote_body r
      else if c =? 8 then [92; 98] ++ quote_body r
      else if c =? 12 then [92; 102] ++ quote_body r
      else if c =? 10 then [92; 110] ++ quote_body r
      else if c =? 13 then [92; 114] ++ quote_body r
      else if c =? 9 then [92; 116] ++ quote_body r
      else if c <? 32 then unicode_escape c ++ quote_body r
      else if TextEncoder.is_high_surrogate c then
        match r with
        | d :: r' =>
            if TextEncoder.is_low_surrogate d then c :: d :: quote_body r'
            else unicode_escape c ++ quote_body r
        | [] => unicode_escape c
        end
      else if TextEncoder.is_low_surrogate c then unicode_escape c ++ quote_body r
      else c :: quote_body r
  end.

Definition quote (s : jsstring) : jsstring := [34] ++ quote_body s ++ [34].

(** The integer a finite Number stands for, when it stands for one. *)
Definition integer_of (x : number) : option Z :=
  match x with
  | S754_zero _ => Some 0%Z
  | S754_finite sg m e =>
      let mag :=
        match e with
        | Z0 => Some (Zpos m)
        | Zpos p => Some (Zpos m * 2 ^ Zpos p)%Z
        | Zneg p => if (Zpos m mod 2 ^ Zpos p =? 0)%Z
                    then Some (Zpos m / 2 ^ Zpos p)%Z else None
        end in
      option_map (cond_Zopp sg) mag
  | _ => None
  end.

(** Number::toString for an integer of magnitude at most [2^53], which
    prints as its decimal expansion; other Numbers are outside the
    fragment. *)
Definition number_text (x : number) : option jsstring :=
  match integer_of x with
  | Some z =>
      if (Z.abs z <=? 2 ^ 53)%Z then
        Some ((if (z <? 0)%Z then [45] else []) ++ toString 10 (Z.to_N (Z.abs z)))
      else None
  | None => None
  end.

Fixpoint commas (parts : list jsstring) : jsstring :=
  match parts with
  | [] => []
  | [x] => x
  | x :: rest => x ++ [44] ++ commas rest
  end.

Fixpoint sequence {A : Type} (l : list (option A)) : option (list A) :=
  match l with
  | [] => Some []
  | Some x :: rest => option_map (cons x) (sequence rest)
  | None :: _ => None
  end.

(** [JSON.stringify(v)] without indentation, for a value made of JSON
    values only. *)
Fixpoint stringify (v : JSValue) : option jsstring :=
  match v with
  | VNull => Some lit_null
  | VBool true => Some lit_true
  | VBool false => Some lit_false
  | VNumber x => number_text x
  | VString s => Some (quote s)
  | VArray items =>
      match sequence (map stringify items) with
      | Some parts => Some ([91] ++ commas parts ++ [93])
      | None => None
      end
  | VObject props =>
      match sequence (map (fun kv => option_map (fun t => quote (fst kv) ++ [58] ++ t)
                                                (stringify (snd kv))) props) with
      | Some parts => Some ([123] ++ commas parts ++ [125])
      | None => None
      end
  | VUndefined | VOther _ => None
  end.

End JSON.

(* ===================================================================== *)
(** * [superjson.parse] and [superjson.stringify] *)
(* ===================================================================== *)

(** The envelope [{"json": ..., "meta": ...}] of superjson, for payloads
    and values that need no [meta] annotations.  [None] stands for a throw
    or for a case outside this fragment. *)
Module SuperJSON.

(** A value that superjson writes without annotation: no [undefined], no
    NaN, infinity or negative zero, no non-JSON object, and no member
    named [__proto__], [constructor] or [prototype] (which it refuses). *)
Definition forbidden_key (k : jsstring) : bool :=
  JSString.eqb k (str "__proto__") || JSString.eqb k (str "constructor")
  || JSString.eqb k (str "prototype").

Fixpoint plain (v : JSValue) : bool :=
  match v with
  | VNull | VBool _ | VString _ => true
  | VNumber x =>
      match x with
      | S754_zero sg => negb sg
      | S754_finite _ _ _ => true
      | _ => false
      end
  | VArray items => forallb plain items
  | VObject props => forallb (fun kv => negb (forbidden_key (fst kv)) && plain (snd kv)) props
  | VUndefined | VOther _ => false
  end.

(** [deserialize]: take [json] out of the envelope; a payload that is not
    an object yields [undefined]; [null] cannot be destructured. *)
Definition deserialize (payload : JSValue) : option JSValue :=
  match payload with
  | VNull | VUndefined => None
  | VObject props =>
      match assoc (str "meta") props with
      | Some VNull | None =>
          match assoc (str "json") props with
          | Some json => Some json
          | None => Some VUndefined
          end
      | Some _ => None
      end
  | _ => Some VUndefined
  end.

Definition parse (text : jsstring) : option JSValue :=
  match JSON.parse text with
  | Some payload => deserialize payload
  | None => None
  end.

Definition stringify (v : JSValue) : option jsstring :=
  if plain v then
    match JSON.stringify v with
    | Some t => Some (str "{" ++ JSON.quote (str "json") ++ str ":" ++ t ++ str "}")
    | None => None
    end
  else None.

End SuperJSON.

(* ===================================================================== *)
(** * Requests, responses and the platform *)
(* ===================================================================== *)

Record Request : Type := { req_url : jsstring }.

Inductive Body : Type :=
| BodyNone
| BodyText (text : jsstring)
| BodyBytes (bytes : list N).

Record Response : Type := {
  status : Z;
  content_type : option jsstring;
  body : Body
}.

(** [new Response()]. *)
Definition Response_empty : Response :=
  {| status := 200; content_type := None; body := BodyNone |}.

(** [new Response(text)]. *)
Definition Response_text (text : jsstring) : Response :=
  {| status := 200;
     content_type := Some (str "text/plain;charset=UTF-8");
     body := BodyText text |}.

(** [new Response(img, { headers: { 'content-type': 'image/jpeg' } })],
    where [img] may be [null]. *)
Definition Response_image (img : option (list N)) : Response :=
  {| status := 200;
     content_type := Some (str "image/jpeg");
     body := match img with Some b => BodyBytes b | None => BodyNone end |}.

(** The library functions the handlers call and that are not part of the
    repository: the WHATWG [URL] class and superjson. *)
Class Platform : Type := {
  URL : Type;
  (** [new URL(s)]; [None] is the TypeError of an invalid URL. *)
  URL_new : jsstring -> option URL;
  URL_search : URL -> jsstring;
  URL_href : URL -> jsstring;
  (** [url.searchParams.get(name)]; [None] is [null]. *)
  searchParams_get : URL -> jsstring -> option jsstring;
  (** [url.searchParams.set(name, value)], as the updated URL. *)
  searchParams_set : URL -> jsstring -> jsstring -> URL;
  superjson_parse : jsstring -> outcome JSValue;
  superjson_stringify : JSValue -> outcome jsstring
}.

(** What the outside world decides during one request. *)
Record Oracle : Type := {
  (** whether [puppeteer.launch] resolves *)
  launch_ok : bool;
  (** whether [page.goto(href)] resolves *)
  navigates : jsstring -> bool;
  (** the bytes of [page.screenshot()], unless it rejects *)
  shoot : jsstring -> number * number -> option (list N)
}.

Inductive message : Type :=
| LogStarting
| LogCouldNotStart (e : exn)
| LogSettingAlarm
| LogExtending (seconds : Z)
| LogExceeded
| LogClosing.

(** The effects of a handler, in the order they happen. *)
Inductive event : Type :=
| EvLog (m : message)
| EvLaunch (session : option nat)
| EvKVGet (key : jsstring)
| EvKVPut (key : jsstring) (value : list N) (expirationTtl : Z)
| EvSetKeptAlive (seconds : Z)
| EvNewPage (session : nat)
| EvSetViewport (width height : number)
| EvGoto (href : jsstring)
| EvScreenshot
| EvPageClose
| EvBrowserClose (session : nat)
| EvGetAlarm
| EvSetAlarm (time : Z).

(** The part of the world the handlers act on. *)
Record World : Type := mkWorld {
  (** [Date.now()], in milliseconds *)
  now : Z;
  (** the alarm of the Durable Object's storage *)
  scheduled : option Z;
  (** the KV namespace: value and expiry time *)
  kv : gmap jsstring (list N * Z);
  (** the browser sessions that are connected *)
  sessions : gset nat;
  (** how many sessions were launched so far *)
  launched : nat;
  trace : list event
}.

(** The fields of a [Browser] instance that change.  The counter only
    holds multiples of ten far below [2^53] and is kept as an integer. *)
Record instance : Type := mkInstance {
  keptAliveInSeconds : Z;
  browser : option nat
}.

Record state : Type := mkState { this : instance; world : World }.

Definition KEEP_BROWSER_ALIVE_IN_SECONDS : Z := 60.

(** The constructor (lines 45-51). *)
Definition constructor : instance :=
  {| keptAliveInSeconds := 0; browser := None |}.

(* ===================================================================== *)
(** * The handler monad: state, exceptions, trace *)
(* ===================================================================== *)

Definition M (A : Type) : Type := state -> outcome A * state.

Definition ret {A : Type} (a : A) : M A := fun s => (Ret a, s).

Definition bind {A B : Type} (m : M A) (k : A -> M B) : M B :=
  fun s => match m s with
           | (Ret a, s') => k a s'
           | (Throw e, s') => (Throw e, s')
           end.

Definition throw {A : Type} (e : exn) : M A := fun s => (Throw e, s).

Definition lift {A : Type} (o : outcome A) : M A := fun s => (o, s).

(** [try { m } catch (e) { h e }]. *)
Definition try_catch {A : Type} (m : M A) (h : exn -> M A) : M A :=
  fun s => match m s with
           | (Throw e, s') => h e s'
           | r => r
           end.

Declare Scope handler_scope.
Delimit Scope handler_scope with handler.
Notation "x <- m ;; k" := (bind m (fun x => k))
  (at level 100, m at next level, right associativity) : handler_scope.
Notation "m ;; k" := (bind m (fun _ => k))
  (at level 100, right associativity) : handler_scope.
Local Open Scope handler_scope.

Definition with_world (f : World -> World) : M unit :=
  fun s => (Ret tt, {| this := this s; world := f (world s) |}).

Definition emit (e : event) : M unit :=
  with_world (fun w => mkWorld (now w) (scheduled w) (kv w) (sessions w) (launched w)
                               (trace w ++ [e])).

Definition console_log (m : message) : M unit := emit (EvLog m).

Definition get_browser : M (option nat) := fun s => (Ret (browser (this s)), s).

Definition set_browser (b : option nat) : M unit :=
  fun s => (Ret tt, {| this := mkInstance (keptAliveInSeconds (this s)) b; world := world s |}).

Definition get_keptAlive : M Z := fun s => (Ret (keptAliveInSeconds (this s)), s).

Definition set_keptAlive (n : Z) : M unit :=
  (fun s => (Ret tt, {| this := mkInstance n (browser (this s)); world := world s |})) ;;
  emit (EvSetKeptAlive n).

(** [browser.isConnected()]. *)
Definition isConnected (h : nat) : M bool :=
  fun s => (Ret (bool_decide (h ∈ sessions (world s))), s).

(** [puppeteer.launch(env.MYBROWSER)]. *)
Definition puppeteer_launch (o : Oracle) : M nat :=
  if launch_ok o then
    fun s =>
      let w := world s in
      let h := launched w in
      (Ret h, {| this := this s;
                 world := mkWorld (now w) (scheduled w) (kv w) ({[h]} ∪ sessions w)
                                  (S h) (trace w ++ [EvLaunch (Some h)]) |})
  else (emit (EvLaunch None) ;; throw LaunchError).

(** [browser.close()]: the session ends; closing a session that is gone
    changes nothing. *)
Definition browser_close (h : nat) : M unit :=
  with_world (fun w => mkWorld (now w) (scheduled w) (kv w) (sessions w ∖ {[h]}) (launched w)
                               (trace w ++ [EvBrowserClose h])).

(** [env.ICON_BG_BROWSER.get(key, { type: 'arrayBuffer' })]: [null] for
    an absent or expired key. *)
Definition kv_lookup (w : World) (key : jsstring) : option (list N) :=
  match kv w !! key with
  | Some (value, expiry) => if (now w <? expiry)%Z then Some value else None
  | None => None
  end.

Definition kv_get (key : jsstring) : M (option (list N)) :=
  emit (EvKVGet key) ;;
  fun s => (Ret (kv_lookup (world s) key), s).

(** [env.ICON_BG_BROWSER.put(key, value, { expirationTtl })].  The call is
    taken to resolve, as are [page.close()], [getAlarm()] and [setAlarm()]
    below: what the handlers do when one of these rejects is not
    described here. *)
Definition kv_put (key : jsstring) (value : list N) (expirationTtl : Z) : M unit :=
  with_world (fun w => mkWorld (now w) (scheduled w)
                               (<[key := (value, (now w + expirationTtl * 1000)%Z)]> (kv w))
                               (sessions w) (launched w)
                               (trace w ++ [EvKVPut key value expirationTtl])).

(** A page of a session, with what was set on it so far. *)
Record Page : Type := {
  page_session : nat;
  page_viewport : option (number * number);
  page_url : option jsstring
}.

(** [browser.newPage()]: the call is recorded; it rejects on a session that
    is not connected. *)
Definition newPage (h : nat) : M Page :=
  emit (EvNewPage h) ;;
  connected <- isConnected h ;;
  if connected : bool then
    ret {| page_session := h; page_viewport := None; page_url := None |}
  else throw BrowserError.

Definition setViewport (page : Page) (dims : number * number) : M Page :=
  emit (EvSetViewport (fst dims) (snd dims)) ;;
  ret {| page_session := page_session page;
         page_viewport := Some dims;
         page_url := page_url page |}.

Definition goto (o : Oracle) (page : Page) (href : jsstring) : M Page :=
  emit (EvGoto href) ;;
  if navigates o href then
    ret {| page_session := page_session page;
           page_viewport := page_viewport page;
           page_url := Some href |}
  else throw BrowserError.

Definition screenshot (o : Oracle) (page : Page) : M (list N) :=
  emit EvScreenshot ;;
  match page_url page, page_viewport page with
  | Some href, Some dims =>
      match shoot o href dims with
      | Some img => ret img
      | None => throw BrowserError
      end
  | _, _ => throw BrowserError
  end.

(** [page.close()], taken to resolve. *)
Definition page_close (page : Page) : M unit := emit EvPageClose.

(** [storage.getAlarm()] and [storage.setAlarm(time)], taken to resolve. *)
Definition getAlarm : M (option Z) :=
  emit EvGetAlarm ;;
  fun s => (Ret (scheduled (world s)), s).

Definition setAlarm (time : Z) : M unit :=
  with_world (fun w => mkWorld (now w) (Some time) (kv w) (sessions w) (launched w)
                               (trace w ++ [EvSetAlarm time])).

Definition Date_now : M Z := fun s => (Ret (now (world s)), s).

Definition new_URL `{Platform} (s : jsstring) : M URL :=
  match URL_new s with
  | Some u => ret u
  | None => throw TypeError
  end.

(* ===================================================================== *)
(** * The Durable Object [Browser] (index.ts, lines 39-138) *)
(* ===================================================================== *)

Definition msg_missing_url : jsstring :=
  str "Please add an ?url=https://example.com/ parameter".
Definition msg_missing_options : jsstring :=
  str "Please add options to your url".

Definition TEN_SECONDS : Z := 10 * 1000.
Definition ONE_DAY : Z := 60 * 60 * 24.

(** Lines 68-71: the canonical options text and the cache key made of it. *)
Definition canonical_options `{Platform} (parsedOptions : jsstring) : outcome jsstring :=
  match superjson_parse parsedOptions with
  | Ret parsedObj => superjson_stringify parsedObj
  | Throw e => Throw e
  end.

Definition cache_key `{Platform} (parsedOptions : jsstring) : outcome jsstring :=
  match canonical_options parsedOptions with
  | Ret optionsStr => Ret (hashString optionsStr)
  | Throw e => Throw e
  end.

Module Browser.
Section WithPlatform.
Context `{Platform}.

(** Lines 73-80: start a browser unless a connected one is at hand; a
    failed launch is logged and leaves the field as it was. *)
Definition ensure_browser (o : Oracle) : M unit :=
  b <- get_browser ;;
  connected <- match b with
               | Some h => isConnected h
               | None => ret false
               end ;;
  if connected : bool then ret tt
  else
    console_log LogStarting ;;
    try_catch (h <- puppeteer_launch o ;; set_browser (Some h))
              (fun e => console_log (LogCouldNotStart e)).

(** Lines 84-99: the render, run when the cache missed and the field
    [browser] is not [null]. *)
Definition render (o : Oracle) (h : nat) (parsedObj : JSValue) (href optionsHashed : jsstring)
  : M (list N) :=
  set_keptAlive 0 ;;
  page <- newPage h ;;
  dims <- lift (viewport parsedObj) ;;
  page <- setViewport page dims ;;
  page <- goto o page href ;;
  img <- screenshot o page ;;
  kv_put optionsHashed img ONE_DAY ;;
  page_close page ;;
  set_keptAlive 0 ;;
  ret img.

(** Lines 103-109. *)
Definition arm_alarm : M unit :=
  currentAlarm <- getAlarm ;;
  match currentAlarm with
  | None =>
      console_log LogSettingAlarm ;;
      t <- Date_now ;;
      setAlarm (t + TEN_SECONDS)
  | Some _ => ret tt
  end.

(** Lines 53-119. *)
Definition fetch (o : Oracle) (request : Request) : M Response :=
  if includes (req_url request) (str "/favicon.ico") then ret Response_empty
  else
    requested <- new_URL (req_url request) ;;
    match searchParams_get requested (str "url") with
    | Some ((_ :: _) as urlStr) =>
        url <- new_URL urlStr ;;
        parsed <- lift (parseSearchParams (URL_search url)) ;;
        match parsed !! str "options" with
        | Some (PString ((_ :: _) as parsedOptions)) =>
            parsedObj <- lift (superjson_parse parsedOptions) ;;
            optionsStr <- lift (superjson_stringify parsedObj) ;;
            let url := searchParams_set url (str "options") optionsStr in
            let optionsHashed := hashString optionsStr in
            ensure_browser o ;;
            img <- kv_get optionsHashed ;;
            b <- get_browser ;;
            img <- match img, b with
                   | None, Some h =>
                       img <- render o h parsedObj (URL_href url) optionsHashed ;;
                       ret (Some img)
                   | _, _ => ret img
                   end ;;
            arm_alarm ;;
            ret (Response_image img)
        | _ => ret (Response_text msg_missing_options)
        end
    | _ => ret (Response_text msg_missing_url)
    end.

(** Lines 120-137. *)
Definition alarm : M unit :=
  k <- get_keptAlive ;;
  set_keptAlive (k + 10) ;;
  k <- get_keptAlive ;;
  if (k <? KEEP_BROWSER_ALIVE_IN_SECONDS)%Z then
    console_log (LogExtending k) ;;
    t <- Date_now ;;
    setAlarm (t + 10 * 1000)
  else
    console_log LogExceeded ;;
    b <- get_browser ;;
    match b with
    | Some h =>
        console_log LogClosing ;;
        browser_close h
    | None => ret tt
    end.

(** The runtime removes the alarm from storage when it fires, then runs
    the handler. *)
Definition alarm_fires : M unit :=
  with_world (fun w => mkWorld (now w) None (kv w) (sessions w) (launched w) (trace w)) ;;
  alarm.

End WithPlatform.
End Browser.

(** The default export of the first file (lines 25-35): every request goes
    to the one instance named [browser]. *)
Module Router.
Section WithPlatform.
Context `{Platform}.

Definition fetch (o : Oracle) (request : Request) : M Response :=
  Browser.fetch o {| req_url := req_url request |}.

End WithPlatform.
End Router.

(* ===================================================================== *)
(** * The per-request worker (second file, lines 210-257) *)
(* ===================================================================== *)

Module PerRequest.
Section WithPlatform.
Context `{Platform}.

(** Lines 232-244: launch, render, close. *)
Definition render (o : Oracle) (parsedObj : JSValue) (href optionsHashed : jsstring)
  : M (list N) :=
  h <- puppeteer_launch o ;;
  page <- newPage h ;;
  dims <- lift (viewport parsedObj) ;;
  page <- setViewport page dims ;;
  page <- goto o page href ;;
  img <- screenshot o page ;;
  kv_put optionsHashed img ONE_DAY ;;
  browser_close h ;;
  ret img.

Definition fetch (o : Oracle) (request : Request) : M Response :=
  if includes (req_url request) (str "/favicon.ico") then ret Response_empty
  else
    requested <- new_URL (req_url request) ;;
    match searchParams_get requested (str "url") with
    | Some ((_ :: _) as urlStr) =>
        url <- new_URL urlStr ;;
        parsed <- lift (parseSearchParams (URL_search url)) ;;
        match parsed !! str "options" with
        | Some (PString ((_ :: _) as parsedOptions)) =>
            parsedObj <- lift (superjson_parse parsedOptions) ;;
            optionsStr <- lift (superjson_stringify parsedObj) ;;
            let url := searchParams_set url (str "options") optionsStr in
            let optionsHashed := hashString optionsStr in
            img <- kv_get optionsHashed ;;
            img <- match img with
                   | None =>
                       img <- render o parsedObj (URL_href url) optionsHashed ;;
                       ret (Some img)
                   | Some _ => ret img
                   end ;;
            ret (Response_image img)
        | _ => ret (Response_text msg_missing_options)
        end
    | _ => ret (Response_text msg_missing_url)
    end.

End WithPlatform.
End PerRequest.

(* ===================================================================== *)
(** * A reference platform *)
(* ===================================================================== *)

(** A small [URL] class for absolute http(s) URLs: the text is split at the
    first [#] and the first [?]; scheme, host and path are kept as written
    (the URL parser would lower-case scheme and host and give an empty path
    its slash, and it accepts a scheme in capitals, which this class
    refuses).  The query is percent-encoded as the URL parser does, and
    [searchParams] reads and writes it as
    application/x-www-form-urlencoded. *)
Module SimpleURL.

Record t : Type := {
  base : jsstring;
  params : list (jsstring * jsstring);
  search : jsstring;
  fragment : jsstring
}.

(** The text before the first [c] and the text after it, if any. *)
Fixpoint cut (c : N) (s : jsstring) : jsstring * option jsstring :=
  match s with
  | [] => ([], None)
  | x :: r =>
      if x =? c then ([], Some r)
      else let '(a, b) := cut c r in (x :: a, b)
  end.

Definition upper_hex (d : N) : N := if d <? 10 then 48 + d else 55 + d.
Definition percent (b : N) : jsstring := [37; upper_hex (b / 16); upper_hex (b mod 16)].

(** The special-query percent-encode set. *)
Definition query_escaped (b : N) : bool :=
  (b <=? 32) || (b =? 34) || (b =? 35) || (b =? 39) || (b =? 60) || (b =? 62)
  || (126 <? b).

Definition encode_query (q : jsstring) : jsstring :=
  flat_map (fun b => if query_escaped b then percent b else [b]) (TextEncoder.encode q).

Definition is_alnum (b : N) : bool :=
  ((48 <=? b) && (b <=? 57)) || ((65 <=? b) && (b <=? 90)) || ((97 <=? b) && (b <=? 122)).

Definition form_encode (s : jsstring) : jsstring :=
  flat_map (fun b => if b =? 32 then [43]
                     else if is_alnum b || (b =? 42) || (b =? 45) || (b =? 46) || (b =? 95)
                          then [b] else percent b)
           (TextEncoder.encode s).

(** Percent-decoding of a form component; a malformed escape is kept as
    written. *)
Definition form_decode (s : jsstring) : jsstring :=
  let spaced := map (fun c => if c =? 43 then 32 else c) s in
  match URIDecode.decode (length spaced) spaced with
  | Some r => r
  | None => spaced
  end.

Definition parse_query (q : jsstring) : list (jsstring * jsstring) :=
  flat_map (fun item =>
              match item with
              | [] => []
              | _ => let '(name, value) := cut 61 item in
                     [(form_decode name,
                       form_decode (match value with Some v => v | None => [] end))]
              end)
           (split 38 q).

Definition serialize (ps : list (jsstring * jsstring)) : jsstring :=
  concat (map (fun '(i, kv) => (if (i =? 0)%nat then [] else [38])
                               ++ form_encode (fst kv) ++ [61] ++ form_encode (snd kv))
              (combine (seq 0 (length ps)) ps)).

Definition parse (s : jsstring) : option t :=
  if starts_with (str "http://") s || starts_with (str "https://") s then
    let '(before, frag) := cut 35 s in
    let '(b, q) := cut 63 before in
    let query := encode_query (match q with Some q => q | None => [] end) in
    Some {| base := b;
            params := parse_query query;
            search := match query with [] => [] | _ => 63 :: query end;
            fragment := match frag with Some f => 35 :: f | None => [] end |}
  else None.

Definition href (u : t) : jsstring := base u ++ search u ++ fragment u.

Fixpoint get (ps : list (jsstring * jsstring)) (name : jsstring) : option jsstring :=
  match ps with
  | [] => None
  | (k, v) :: rest => if JSString.eqb k name then Some v else get rest name
  end.

Fixpoint set_first (ps : list (jsstring * jsstring)) (name value : jsstring)
  : list (jsstring * jsstring) :=
  match ps with
  | [] => [(name, value)]
  | (k, v) :: rest =>
      if JSString.eqb k name
      then (k, value) :: List.filter (fun kv => negb (JSString.eqb (fst kv) name)) rest
      else (k, v) :: set_first rest name value
  end.

Definition set (u : t) (name value : jsstring) : t :=
  let ps := set_first (params u) name value in
  {| base := base u;
     params := ps;
     search := 63 :: serialize ps;
     fragment := fragment u |}.

End SimpleURL.

(** The platform used for the sample runs: [SimpleURL] and the modelled
    fragment of superjson.  Outside that fragment the instance throws,
    also where the library returns: on a text with a fraction or an
    exponent, and on a value superjson writes with an annotation
    ([undefined], a negative zero, a Date).  The statements about the
    handlers hold for every platform and do not rest on this choice. *)
#[export] Instance reference_platform : Platform := {|
  URL := SimpleURL.t;
  URL_new := SimpleURL.parse;
  URL_search := SimpleURL.search;
  URL_href := SimpleURL.href;
  searchParams_get := fun u name => SimpleURL.get (SimpleURL.params u) name;
  searchParams_set := SimpleURL.set;
  superjson_parse := fun text =>
    match SuperJSON.parse text with
    | Some v => Ret v
    | None => Throw SyntaxError
    end;
  superjson_stringify := fun v =>
    match SuperJSON.stringify v with
    | Some t => Ret t
    | None => Throw TypeError
    end
|}.

(** The request a client sends to have [target] rendered, and the target
    that carries [payload] as its [options]. *)
Definition target_with (payload : jsstring) : jsstring :=
  str "https://example.com/?options=" ++ SimpleURL.form_encode payload.

Definition request_for (target : jsstring) : Request :=
  {| req_url := str "https://worker.example/?url=" ++ SimpleURL.form_encode target |}.

(* ===================================================================== *)
(** * The life of the instance *)
(* ===================================================================== *)

(** What can happen to the one instance: a request, the alarm firing once
    it is due, time passing, a session dropping. *)
Inductive input : Type :=
| Fetch (o : Oracle) (request : Request)
| Alarm
| Elapse (ms : Z)
| Disconnect (session : nat).

Definition step `{Platform} (i : input) (s : state) : option state :=
  match i with
  | Fetch o request => Some (snd (Browser.fetch o request s))
  | Alarm =>
      match scheduled (world s) with
      | Some t => if (t <=? now (world s))%Z then Some (snd (Browser.alarm_fires s)) else None
      | None => None
      end
  | Elapse ms =>
      if (0 <=? ms)%Z then
        let w := world s in
        Some {| this := this s;
                world := mkWorld (now w + ms) (scheduled w) (kv w) (sessions w) (launched w)
                                 (trace w) |}
      else None
  | Disconnect h =>
      let w := world s in
      Some {| this := this s;
              world := mkWorld (now w) (scheduled w) (kv w) (sessions w ∖ {[h]}) (launched w)
                               (trace w) |}
  end.

Fixpoint run `{Platform} (inputs : list input) (s : state) : option state :=
  match inputs with
  | [] => Some s
  | i :: rest =>
      match step i s with
      | Some s' => run rest s'
      | None => None
      end
  end.

(** A fresh instance in an empty world. *)
Definition initial : state :=
  {| this := constructor;
     world := mkWorld 0 None ∅ ∅ 0 [] |}.

(* ===================================================================== *)
(** * JSON documents and their layouts *)
(* ===================================================================== *)

(** A JSON document together with one way of writing it down: the white
    space in front of every token is part of the tree.  Two texts differ
    only in formatting when they are the texts of two trees that agree once
    the white space is forgotten ([strip]). *)
Module Layout.

Inductive space : Type := Blank | Tab | LineFeed | Return.

Definition space_code (c : space) : N :=
  match c with Blank => 32 | Tab => 9 | LineFeed => 10 | Return => 13 end.

Definition gap := list space.

Definition gap_text (g : gap) : jsstring := map space_code g.

Inductive atom : Type :=
| ANull
| ATrue
| AFalse
| ANumber (neg : bool) (digits : list N)
| AString (s : jsstring).

(** [LArray g items g']: [g] before the opening bracket, [g'] before the
    closing one; every item comes with the gap before the comma that
    precedes it (not written for the first item).  A member of an object
    has, in this order, the gap before its comma, the gap before its key,
    the key, the gap before the colon, and the value. *)
Inductive doc : Type :=
| LAtom (g : gap) (a : atom)
| LArray (g : gap) (items : list (gap * doc)) (g' : gap)
| LObject (g : gap) (members : list (gap * gap * jsstring * gap * doc)) (g' : gap).

Section Joined.
Context {A : Type} (txt : A -> jsstring).

Fixpoint items_text (first : bool) (l : list (gap * A)) : jsstring :=
  match l with
  | [] => []
  | (gc, x) :: rest =>
      (if first then [] else gap_text gc ++ [44]) ++ txt x ++ items_text false rest
  end.

Fixpoint members_text (first : bool) (l : list (gap * gap * jsstring * gap * A))
  : jsstring :=
  match l with
  | [] => []
  | (gc, gk, k, gv, x) :: rest =>
      (if first then [] else gap_text gc ++ [44])
      ++ gap_text gk ++ [34] ++ k ++ [34] ++ gap_text gv ++ [58] ++ txt x
      ++ members_text false rest
  end.
End Joined.

(** What the string literal with body [s] denotes, and whether [s] is the
    body of one literal: the first quote in it that is not escaped is the
    closing one, and every escape in it is one JSON knows. *)
Definition unescape (s : jsstring) : jsstring :=
  match JSON.scan_string (s ++ [34]) with
  | Some (b, _) => b
  | None => []
  end.

Definition literal_body (s : jsstring) : bool :=
  match JSON.scan_string (s ++ [34]) with
  | Some (_, []) => true
  | _ => false
  end.

Definition atom_text (a : atom) : jsstring :=
  match a with
  | ANull => JSON.lit_null
  | ATrue => JSON.lit_true
  | AFalse => JSON.lit_false
  | ANumber neg digits => (if neg then [45] else []) ++ map (N.add 48) digits
  | AString s => [34] ++ s ++ [34]
  end.

Definition atom_value (a : atom) : JSValue :=
  match a with
  | ANull => VNull
  | ATrue => VBool true
  | AFalse => VBool false
  | ANumber neg digits => VNumber (JSON.number_of neg digits)
  | AString s => VString (unescape s)
  end.

Fixpoint text (d : doc) : jsstring :=
  match d with
  | LAtom g a => gap_text g ++ atom_text a
  | LArray g items g' =>
      gap_text g ++ [91] ++ items_text text true items ++ gap_text g' ++ [93]
  | LObject g members g' =>
      gap_text g ++ [123] ++ members_text text true members ++ gap_text g' ++ [125]
  end.

(** The value the document denotes, whatever its layout. *)
Fixpoint value (d : doc) : JSValue :=
  match d with
  | LAtom _ a => atom_value a
  | LArray _ items _ => VArray (map (fun it => value (snd it)) items)
  | LObject _ members _ =>
      JSON.make_object
        (map (fun m => (unescape (snd (fst (fst m))), value (snd m))) members)
  end.

(** The same document with every gap emptied. *)
Fixpoint strip (d : doc) : doc :=
  match d with
  | LAtom _ a => LAtom [] a
  | LArray _ items _ => LArray [] (map (fun it => ([], strip (snd it))) items) []
  | LObject _ members _ =>
      LObject []
        (map (fun m => ([], [], snd (fst (fst m)), [], strip (snd m))) members) []
  end.

(** Number literals are digit strings without leading zero (integers:
    there is no fraction and no exponent part); string literals and keys
    are bodies of one literal, with or without escapes. *)
Definition atom_ok (a : atom) : bool :=
  match a with
  | ANumber _ digits =>
      forallb (fun d => d <? 10) digits &&
      match digits with
      | [] => false
      | d :: ds => negb ((d =? 0) && negb (length ds =? 0)%nat)
      end
  | AString s => literal_body s
  | _ => true
  end.

Fixpoint well_formed (d : doc) : bool :=
  match d with
  | LAtom _ a => atom_ok a
  | LArray _ items _ => forallb (fun it => well_formed (snd it)) items
  | LObject _ members _ =>
      forallb (fun m => literal_body (snd (fst (fst m))) && well_formed (snd m))
              members
  end.

Fixpoint size (d : doc) : nat :=
  match d with
  | LAtom _ _ => 1
  | LArray _ items _ => S (list_sum (map (fun it => S (size (snd it))) items))
  | LObject _ members _ => S (list_sum (map (fun m => S (size (snd m))) members))
  end.

(** What may follow a value: not a digit, not the start of a fraction. *)
Definition follow_ok (r : jsstring) : bool :=
  match r with
  | [] => true
  | c :: _ => negb (JSON.is_digit c) && negb (JSON.starts_fraction r)
  end.

(** The parser reads the text of [d] as the value of [d], whatever
    comes next, given fuel for every node of [d]. *)
Definition parses (d : doc) : Prop :=
  forall fuel r, (size d <= fuel)%nat -> well_formed d = true -> follow_ok r = true ->
                 JSON.parse_value fuel (text d ++ r) = Some (value d, r).

(** The options of a request written compactly, and written with white
    space around its tokens. *)
Definition compact_options : doc :=
  LObject [] [([], [], str "json", [],
               LObject [] [([], [], str "xMax", [], LAtom [] (ANumber false [4; 8; 0]));
                           ([], [], str "tags", [],
                            LArray [] [([], LAtom [] (AString (str "a\n")));
                                       ([], LAtom [] ATrue)] [])] [])] [].

Definition spaced_options : doc :=
  LObject [LineFeed]
    [([], [Blank; Blank], str "json", [Blank],
      LObject [Blank]
        [([], [LineFeed; Tab], str "xMax", [], LAtom [Blank] (ANumber false [4; 8; 0]));
         ([Blank], [LineFeed; Tab], str "tags", [Return],
          LArray [Blank] [([], LAtom [Blank] (AString (str "a\n")));
                          ([Blank], LAtom [Tab] ATrue)] [LineFeed])]
        [LineFeed])]
    [LineFeed].

End Layout.

(* ===================================================================== *)
(** * Statement vocabulary *)
(* ===================================================================== *)

(** The member [name] of an options record, [undefined] when absent. *)
Definition field (props : list (jsstring * JSValue)) (name : jsstring) : JSValue :=
  match assoc name props with
  | Some v => v
  | None => VUndefined
  end.

(** The coercion rule in words: a Number other than zero and NaN stands
    for itself; a string stands for what [parseInt] reads in it, unless
    that is zero or NaN; everything else, and every zero and NaN, gives the
    default. *)
Definition spec_resolution (v : JSValue) (d : number) : number :=
  match v with
  | VNumber x => if is_zero x || isNaN x then d else x
  | VString s => if is_zero (parseInt s) || isNaN (parseInt s) then d else parseInt s
  | _ => d
  end.

(** A member that is the Number zero or a string that reads as zero. *)
Definition zero_valued (v : JSValue) : bool :=
  match v with
  | VNumber x => is_zero x
  | VString s => is_zero (parseInt s)
  | _ => false
  end.

(** The events a handler added to the trace. *)
Definition new_events (before after : state) : list event :=
  skipn (length (trace (world before))) (trace (world after)).

(** The state with further events on its trace. *)
Definition extend (evs : list event) (s : state) : state :=
  let w := world s in
  {| this := this s;
     world := mkWorld (now w) (scheduled w) (kv w) (sessions w) (launched w) (trace w ++ evs) |}.

(** The state after [this.keptAliveInSeconds = 0]. *)
Definition counter_reset (s : state) : state :=
  extend [EvSetKeptAlive 0]
         {| this := {| keptAliveInSeconds := 0; browser := browser (this s) |};
            world := world s |}.

(** The state after a [put] of [img] under [key] for one day. *)
Definition stored (key : jsstring) (img : list N) (s : state) : state :=
  let w := world s in
  {| this := this s;
     world := mkWorld (now w) (scheduled w)
                      (<[key := (img, (now w + ONE_DAY * 1000)%Z)]> (kv w))
                      (sessions w) (launched w) (trace w ++ [EvKVPut key img ONE_DAY]) |}.

(** Whether the field [browser] holds a connected session. *)
Definition has_live_browser (s : state) : bool :=
  match browser (this s) with
  | Some h => bool_decide (h ∈ sessions (world s))
  | None => false
  end.

(** The state after lines 73-80. *)
Definition ensured (o : Oracle) (s : state) : state :=
  if has_live_browser s then s
  else if launch_ok o then
    let w := world s in
    {| this := {| keptAliveInSeconds := keptAliveInSeconds (this s);
                  browser := Some (launched w) |};
       world := mkWorld (now w) (scheduled w) (kv w) ({[launched w]} ∪ sessions w)
                        (S (launched w))
                        ((trace w ++ [EvLog LogStarting]) ++ [EvLaunch (Some (launched w))]) |}
  else extend [EvLog (LogCouldNotStart LaunchError)]
         (extend [EvLaunch None] (extend [EvLog LogStarting] s)).

(** The state after lines 103-109. *)
Definition armed (s : state) : state :=
  let w := world s in
  match scheduled w with
  | Some _ => extend [EvGetAlarm] s
  | None =>
      {| this := this s;
         world := mkWorld (now w) (Some (now w + TEN_SECONDS)%Z) (kv w) (sessions w)
                          (launched w)
                          (((trace w ++ [EvGetAlarm]) ++ [EvLog LogSettingAlarm])
                           ++ [EvSetAlarm (now w + TEN_SECONDS)%Z]) |}
  end.

(** The state after a render that went through. *)
Definition rendered (h : nat) (dims : number * number) (href key : jsstring) (img : list N)
  (s : state) : state :=
  counter_reset
    (extend [EvPageClose]
       (stored key img
          (extend [EvScreenshot]
             (extend [EvGoto href]
                (extend [EvSetViewport (fst dims) (snd dims)]
                   (extend [EvNewPage h] (counter_reset s))))))).

(** What the first half of both [fetch] handlers (lines 54-71) makes of a
    request. *)
Inductive reading `{Platform} : Type :=
| Favicon
| Rejected (e : exn)
| NoUrl
| NoOptions
| Accepted (url : URL) (parsedObj : JSValue) (optionsStr : jsstring).

Definition read_request `{Platform} (request : Request) : reading :=
  if includes (req_url request) (str "/favicon.ico") then Favicon
  else
    match URL_new (req_url request) with
    | None => Rejected TypeError
    | Some requested =>
        match searchParams_get requested (str "url") with
        | Some ((_ :: _) as urlStr) =>
            match URL_new urlStr with
            | None => Rejected TypeError
            | Some url =>
                match parseSearchParams (URL_search url) with
                | Throw e => Rejected e
                | Ret parsed =>
                    match parsed !! str "options" with
                    | Some (PString ((_ :: _) as parsedOptions)) =>
                        match superjson_parse parsedOptions with
                        | Throw e => Rejected e
                        | Ret parsedObj =>
                            match superjson_stringify parsedObj with
                            | Throw e => Rejected e
                            | Ret optionsStr =>
                                Accepted (searchParams_set url (str "options") optionsStr)
                                         parsedObj optionsStr
                            end
                        end
                    | _ => NoOptions
                    end
                end
            end
        | _ => NoUrl
        end
    end.

(** The second half of [Browser.fetch] (lines 73-115). *)
Definition serve (o : Oracle) (parsedObj : JSValue) (href optionsHashed : jsstring)
  : M Response :=
  (Browser.ensure_browser o ;;
   img <- kv_get optionsHashed ;;
   b <- get_browser ;;
   img <- match img, b with
          | None, Some h =>
              img <- Browser.render o h parsedObj href optionsHashed ;;
              ret (Some img)
          | _, _ => ret img
          end ;;
   Browser.arm_alarm ;;
   ret (Response_image img))%handler.

(** The second half of [PerRequest.fetch] (lines 231-252). *)
Definition serve_once `{Platform} (o : Oracle) (parsedObj : JSValue)
  (href optionsHashed : jsstring) : M Response :=
  (img <- kv_get optionsHashed ;;
   img <- match img with
          | None =>
              img <- PerRequest.render o parsedObj href optionsHashed ;;
              ret (Some img)
          | Some _ => ret img
          end ;;
   ret (Response_image img))%handler.

(** The events of lines 73-80, of lines 103-109 and of a render that goes
    through. *)
Definition ensure_events (o : Oracle) (s : state) : list event :=
  if has_live_browser s then []
  else if launch_ok o
       then [EvLog LogStarting; EvLaunch (Some (launched (world s)))]
       else [EvLog LogStarting; EvLaunch None; EvLog (LogCouldNotStart LaunchError)].

Definition arm_events (s : state) : list event :=
  match scheduled (world s) with
  | Some _ => [EvGetAlarm]
  | None => [EvGetAlarm; EvLog LogSettingAlarm;
             EvSetAlarm (now (world s) + TEN_SECONDS)%Z]
  end.

Definition render_events (h : nat) (dims : number * number) (href key : jsstring)
  (img : list N) : list event :=
  [EvSetKeptAlive 0; EvNewPage h; EvSetViewport (fst dims) (snd dims); EvGoto href;
   EvScreenshot; EvKVPut key img ONE_DAY; EvPageClose; EvSetKeptAlive 0].

(** Two behaviours of the outside world, and two requests. *)
Definition always_works : Oracle :=
  {| launch_ok := true; navigates := fun _ => true; shoot := fun _ _ => Some [255; 216; 255] |}.

Definition never_launches : Oracle :=
  {| launch_ok := false; navigates := fun _ => true; shoot := fun _ _ => Some [255; 216; 255] |}.

Definition wide_request : Request :=
  request_for (target_with (qstr "{'json':{'xMax':'480'}}")).

Definition tall_request : Request :=
  request_for (target_with (qstr "{'json':{'yMax':2000}}")).

(** A minute without requests: the alarm fires six times, ten seconds
    apart. *)
Definition idle_minute : list input :=
  concat (repeat [Elapse 10000; Alarm] 6).

(** The state after a launch that succeeded. *)
Definition launched_state (s : state) : state :=
  let w := world s in
  {| this := this s;
     world := mkWorld (now w) (scheduled w) (kv w) ({[launched w]} ∪ sessions w)
                      (S (launched w)) (trace w ++ [EvLaunch (Some (launched w))]) |}.

(** Events of the render itself and writes of the counter. *)
Definition render_event (e : event) : bool :=
  match e with
  | EvSetKeptAlive _ | EvNewPage _ | EvSetViewport _ _ | EvGoto _ | EvScreenshot
  | EvKVPut _ _ _ | EvPageClose => true
  | _ => false
  end.

(** Events that do not belong to the management of the browser: cache
    accesses, viewport, navigation, screenshot. *)
Definition shared_event (e : event) : bool :=
  match e with
  | EvKVGet _ | EvSetViewport _ _ | EvGoto _ | EvScreenshot | EvKVPut _ _ _ => true
  | _ => false
  end.

(* ===================================================================== *)
(** * Further vocabulary *)
(* ===================================================================== *)

(** The key and the value one item of the query stands for (lines
    170-172). *)
Definition item_pair (item : jsstring) : outcome (jsstring * jsstring) :=
  let pair := split 61 item in
  match decodeURIComponent (nth 0 pair []) with
  | Throw e => Throw e
  | Ret key =>
      match decodeURIComponent (nth 1 pair []) with
      | Throw e => Throw e
      | Ret value => Ret (key, value)
      end
  end.

(** The items of a query, decoded from left to right up to the first one
    that throws. *)
Fixpoint decoded_items (items : list jsstring) : outcome (list (jsstring * jsstring)) :=
  match items with
  | [] => Ret []
  | item :: rest =>
      match item_pair item with
      | Throw e => Throw e
      | Ret kv =>
          match decoded_items rest with
          | Throw e => Throw e
          | Ret kvs => Ret (kv :: kvs)
          end
      end
  end.

(** What the member for a key becomes when one more value arrives. *)
Definition add_value (old : option param) (value : jsstring) : param :=
  match old with
  | Some (PArray l) => PArray (l ++ [value])
  | Some (PString (c :: s)) => PArray [c :: s; value]
  | _ => PString value
  end.

(** The member a key ends with, from its values in order of appearance. *)
Definition collect (values : list jsstring) : option param :=
  fold_left (fun old value => Some (add_value old value)) values None.

(** The values given for [key], in order of appearance. *)
Definition values_of (key : jsstring) (pairs : list (jsstring * jsstring)) : list jsstring :=
  map snd (List.filter (fun kv => JSString.eqb (fst kv) key) pairs).

(** The names [Object.prototype] defines.  For these, and after an
    assignment to [__proto__], the test [params[key]] of the source also
    sees inherited members. *)
Definition Object_prototype_names : list jsstring :=
  map str ["constructor"; "__defineGetter__"; "__defineSetter__"; "hasOwnProperty";
           "__lookupGetter__"; "__lookupSetter__"; "isPrototypeOf";
           "propertyIsEnumerable"; "toString"; "valueOf"; "__proto__";
           "toLocaleString"]%string.

Definition own_key (key : jsstring) : bool :=
  negb (existsb (JSString.eqb key) Object_prototype_names).

(** The value of a decimal numeral. *)
Definition decimal (digits : jsstring) : N :=
  fold_left (fun acc c => acc * 10 + (c - 48)) digits 0.

Definition is_decimal_digit (c : N) : bool := (48 <=? c) && (c <=? 57).

(** Text at which a decimal numeral ends: no digit, and no [x] that would
    make a leading zero a hexadecimal prefix. *)
Definition ends_numeral (rest : jsstring) : bool :=
  match rest with
  | [] => true
  | c :: _ => negb (is_decimal_digit c) && negb (c =? 120) && negb (c =? 88)
  end.

(** Reading a text of two-digit hexadecimal numbers back into octets. *)
Fixpoint unhex (s : jsstring) : option (list N) :=
  match s with
  | [] => Some []
  | [_] => None
  | a :: b :: r =>
      match URIDecode.hex_value a, URIDecode.hex_value b, unhex r with
      | Some x, Some y, Some bytes => Some (16 * x + y :: bytes)
      | _, _, _ => None
      end
  end.

(** Every connected session is the one the field [browser] holds. *)
Definition field_owns_sessions (s : state) : Prop :=
  forall h, h ∈ sessions (world s) -> browser (this s) = Some h.

(** [n] alarms, each firing ten seconds after the one before. *)
Definition idle_alarms (n : nat) : list input :=
  concat (repeat [Elapse 10000; Alarm] n).

(** Events that end a render or schedule an alarm. *)
Definition completion_event (e : event) : bool :=
  match e with
  | EvKVPut _ _ _ | EvPageClose | EvSetAlarm _ | EvBrowserClose _ => true
  | _ => false
  end.

Definition null_request : Request :=
  request_for (target_with (qstr "{'json':null}")).

Definition never_navigates : Oracle :=
  {| launch_ok := true; navigates := fun _ => false; shoot := fun _ _ => Some [255; 216; 255] |}.

(** The instance a minute after it rendered [wide_request]: the session is
    closed, the counter stands at 60, the image is in the cache. *)
Definition after_idle_minute : state :=
  match run (Fetch always_works wide_request :: idle_minute) initial with
  | Some s => s
  | None => initial
  end.

(** [String.prototype.toWellFormed]: every unpaired surrogate becomes
    U+FFFD. *)
Fixpoint toWellFormed (s : jsstring) : jsstring :=
  match s with
  | [] => []
  | c :: r =>
      if TextEncoder.is_high_surrogate c then
        match r with
        | d :: r' =>
            if TextEncoder.is_low_surrogate d then c :: d :: toWellFormed r'
            else 0xFFFD :: toWellFormed r
        | [] => [0xFFFD]
        end
      else if TextEncoder.is_low_surrogate c then 0xFFFD :: toWellFormed r
      else c :: toWellFormed r
  end.

(** An octet sequence written as percent escapes, [%xx] for every octet. *)
Definition percent_escapes (octets : list N) : jsstring :=
  flat_map (fun b => 37 :: hex_byte b) octets.

(** The two lowercase hexadecimal digits of an octet, the high one first. *)
Definition hex_pair (b : N) : jsstring := [digit_char (b / 16); digit_char (b mod 16)].

(** Whether [f] holds of [count] numbers from [start] on. *)
Definition all_from (start count : N) (f : N -> bool) : bool :=
  snd (N.iter count (fun st => (N.succ (fst st), snd st && f (fst st))) (start, true)).

(** Whether the strict UTF-8 decoder of [decodeURIComponent] reads the
    octets [bs] as the code units [units]. *)
Definition reads_as (bs : list N) (units : jsstring) : bool :=
  forallb (fun b => b <? 256) bs &&
  match bs with
  | b0 :: _ =>
      (leading_ones b0 =? length bs)%nat &&
      match code_point bs with
      | Some V => JSString.eqb (utf16 V) units
      | None => false
      end
  | [] => false
  end.

(* ===================================================================== *)
(** * Properties of [hashString] *)
(* ===================================================================== *)

Section HashStringFacts.

Lemma be_bytes_length count x : length (SHA256.be_bytes count x) = count.
Proof.
  unfold SHA256.be_bytes. rewrite length_map, length_rev, length_seq. reflexivity.
Qed.

Lemma be_bytes_small count x : Forall (fun b => b < 256) (SHA256.be_bytes count x).
Proof.
  unfold SHA256.be_bytes. apply List.Forall_forall. intros b Hb.
  apply in_map_iff in Hb as (i & <- & _). apply N.mod_lt. discriminate.
Qed.

Lemma digest_length msg : length (SHA256.digest msg) = 32%nat.
Proof.
  unfold SHA256.digest, SHA256.digest_bytes, SHA256.word_bytes.
  rewrite !length_app, !be_bytes_length. reflexivity.
Qed.

Lemma digest_small msg : Forall (fun b => b < 256) (SHA256.digest msg).
Proof.
  unfold SHA256.digest, SHA256.digest_bytes, SHA256.word_bytes.
  repeat (apply Forall_app; split); apply be_bytes_small.
Qed.

(** All 256 octets, checked one by one. *)
Lemma hex_byte_table :
  forallb (fun b => (length (hex_byte b) =? 2)%nat && forallb is_lower_hex (hex_byte b))
          (map N.of_nat (seq 0 256)) = true.
Proof. vm_compute. reflexivity. Qed.

Lemma hex_byte_shape b :
  b < 256 -> length (hex_byte b) = 2%nat /\ forallb is_lower_hex (hex_byte b) = true.
Proof.
  intros Hb.
  pose proof hex_byte_table as T. rewrite forallb_forall in T.
  specialize (T b). rewrite andb_true_iff, Nat.eqb_eq in T. apply T.
  apply in_map_iff. exists (N.to_nat b). split; [apply N2Nat.id|].
  apply in_seq. lia.
Qed.

Lemma hex_join_shape bytes :
  Forall (fun b => b < 256) bytes ->
  length (join (map hex_byte bytes)) = (2 * length bytes)%nat
  /\ forallb is_lower_hex (join (map hex_byte bytes)) = true.
Proof.
  unfold join. induction 1 as [|b bytes Hb _ [IHlen IHhex]]; [split; reflexivity|].
  destruct (hex_byte_shape b Hb) as [Hlen Hhex]. cbn [map concat length].
  split.
  - rewrite length_app, Hlen, IHlen. lia.
  - rewrite forallb_app, Hhex, IHhex. reflexivity.
Qed.

End HashStringFacts.

(** Neither the digest nor the percent-decoder can run short of fuel. *)
Section FuelFacts.

Lemma blocks_fuel f : forall bs h k,
  (length bs <= 64 * f)%nat -> SHA256.blocks (f + k) h bs = SHA256.blocks f h bs.
Proof.
  induction f as [|f IH]; intros bs h k Hlen.
  - destruct bs; [|cbn in Hlen; lia]. destruct k; reflexivity.
  - cbn [Nat.add SHA256.blocks]. destruct bs as [|b bs]; [reflexivity|].
    apply IH. rewrite length_skipn. lia.
Qed.

(** The fuel of [digest] covers every block of the padded message. *)
Lemma digest_fuel msg k :
  SHA256.blocks (S (length (SHA256.pad msg) / 64) + k) SHA256.H0 (SHA256.pad msg)
  = SHA256.blocks (S (length (SHA256.pad msg) / 64)) SHA256.H0 (SHA256.pad msg).
Proof.
  apply blocks_fuel.
  pose proof (Nat.div_mod_eq (length (SHA256.pad msg)) 64).
  pose proof (Nat.mod_upper_bound (length (SHA256.pad msg)) 64). lia.
Qed.

Lemma hex_octet_length s B r :
  hex_octet s = Some (B, r) -> length s = S (S (length r)).
Proof.
  unfold hex_octet. destruct s as [|a [|b s]]; try discriminate.
  destruct (hex_value a), (hex_value b); try discriminate.
  intros [= _ <-]. reflexivity.
Qed.

Lemma continuation_length n : forall s bs r,
  continuation n s = Some (bs, r) -> (length r <= length s)%nat.
Proof.
  induction n as [|n IH]; intros s bs r; cbn [continuation].
  - intros [= _ <-]. lia.
  - destruct s as [|c s]; [discriminate|].
    destruct (c =? 37); [|discriminate].
    destruct (hex_octet s) as [[b r1]|] eqn:Hoct; [|discriminate].
    destruct (continuation n r1) as [[bs' r2]|] eqn:Hcont; [|discriminate].
    intros [= _ <-]. apply hex_octet_length in Hoct. apply IH in Hcont.
    cbn [length]. lia.
Qed.

(** [decode] never runs out of fuel when given the length of its input. *)
Lemma decode_fuel n : forall s f1 f2,
  (length s <= n)%nat -> (length s <= f1)%nat -> (length s <= f2)%nat ->
  URIDecode.decode f1 s = URIDecode.decode f2 s.
Proof.
  induction n as [|n IH]; intros s f1 f2 Hn H1 H2.
  - destruct s; [|cbn in Hn; lia]. destruct f1, f2; reflexivity.
  - destruct s as [|c r]; [destruct f1, f2; reflexivity|].
    cbn [length] in *.
    destruct f1 as [|f1]; [lia|]. destruct f2 as [|f2]; [lia|].
    cbn [URIDecode.decode].
    destruct (c =? 37).
    + destruct (hex_octet r) as [[B r1]|] eqn:Hoct; [|reflexivity].
      pose proof (hex_octet_length _ _ _ Hoct) as Hr1.
      assert (Hstep : forall r2, (length r2 <= length r1)%nat ->
                                 URIDecode.decode f1 r2 = URIDecode.decode f2 r2)
        by (intros r2 Hr2; apply IH; lia).
      destruct (leading_ones B) as [|[|[|[|[|[|m]]]]]]; try reflexivity;
        try (rewrite (Hstep r1) by lia; reflexivity);
        (destruct (continuation _ r1) as [[bs r2]|] eqn:Hcont; [|reflexivity];
         destruct (code_point (B :: bs)); [|reflexivity];
         rewrite (Hstep r2) by (eapply continuation_length; eassumption); reflexivity).
    + rewrite (IH r f1 f2) by lia. reflexivity.
Qed.

Lemma decodeURIComponent_fuel s k :
  URIDecode.decode (length s + k) s = URIDecode.decode (length s) s.
Proof. apply (decode_fuel (length s)); lia. Qed.

End FuelFacts.

(** The octets [hashString] hashes, and how it spells the digest. *)
Section EncodingFacts.

Lemma all_from_spec start count f :
  all_from start count f = true -> forall i, start <= i < start + count -> f i = true.
Proof.
  unfold all_from. revert start.
  induction count as [|count IH] using N.peano_ind; intros start Hall i Hi; [lia|].
  rewrite N.iter_succ in Hall. cbn [fst snd] in Hall.
  apply andb_prop in Hall as [Hrest Hlast].
  assert (Hfst : forall n, fst (N.iter n (fun st => (N.succ (fst st), snd st && f (fst st)))
                                 (start, true)) = start + n).
  { intros n. induction n as [|n IHn] using N.peano_ind; [cbn; lia|].
    rewrite N.iter_succ. cbn [fst]. rewrite IHn. lia. }
  rewrite Hfst in Hlast.
  destruct (N.eq_dec i (start + count)) as [->|Hne]; [exact Hlast|].
  apply (IH start Hrest). lia.
Qed.

(** The escapes of an octet read back as the octet. *)
Lemma hex_octet_table :
  all_from 0 256 (fun b => match hex_byte b with
                           | [x; y] =>
                               match hex_value x, hex_value y with
                               | Some hi, Some lo => 16 * hi + lo =? b
                               | _, _ => false
                               end
                           | _ => false
                           end) = true.
Proof. vm_compute. reflexivity. Qed.

Lemma hex_octet_hex_byte b r : b < 256 -> hex_octet (hex_byte b ++ r) = Some (b, r).
Proof.
  intros Hb. pose proof (all_from_spec _ _ _ hex_octet_table b ltac:(lia)) as T.
  cbv beta in T.
  destruct (hex_byte b) as [|x [|y [|z l]]]; try discriminate T.
  cbn [app hex_octet].
  destruct (hex_value x) as [hi|]; [|discriminate T].
  destruct (hex_value y) as [lo|]; [|discriminate T].
  apply N.eqb_eq in T. rewrite T. reflexivity.
Qed.

(** How [hex_byte] spells an octet. *)
Lemma hex_pair_table : all_from 0 256 (fun b => JSString.eqb (hex_byte b) (hex_pair b)) = true.
Proof. vm_compute. reflexivity. Qed.

Lemma hex_byte_pair b : b < 256 -> hex_byte b = hex_pair b.
Proof.
  intros Hb. pose proof (all_from_spec _ _ _ hex_pair_table b ltac:(lia)) as T.
  apply bool_decide_eq_true in T. exact T.
Qed.

Lemma replacement_reads : reads_as TextEncoder.replacement [0xFFFD] = true.
Proof. vm_compute. reflexivity. Qed.

(** The code units of the scalar value a surrogate pair stands for, and
    the octets of that value. *)
Lemma utf16_pair c d :
  TextEncoder.is_high_surrogate c = true -> TextEncoder.is_low_surrogate d = true ->
  utf16 (0x10000 + (c - 0xD800) * 0x400 + (d - 0xDC00)) = [c; d].
Proof.
  unfold TextEncoder.is_high_surrogate, TextEncoder.is_low_surrogate.
  rewrite !andb_true_iff, !N.leb_le. intros [Hc1 Hc2] [Hd1 Hd2].
  unfold utf16.
  destruct (N.ltb_spec (0x10000 + (c - 0xD800) * 0x400 + (d - 0xDC00)) 0x10000); [lia|].
  assert (Hq : (0x10000 + (c - 0xD800) * 0x400 + (d - 0xDC00) - 0x10000) / 0x400
               = c - 0xD800)
    by (symmetry; apply (N.div_unique _ _ _ (d - 0xDC00)); lia).
  assert (Hr : (0x10000 + (c - 0xD800) * 0x400 + (d - 0xDC00) - 0x10000) mod 0x400
               = d - 0xDC00)
    by (symmetry; apply (N.mod_unique _ _ (c - 0xD800)); lia).
  rewrite Hq, Hr. f_equal; [lia|f_equal; lia].
Qed.

Ltac octet_ranges :=
  cbn [forallb length];
  repeat first
    [ match goal with
      | |- context [?a <? ?b] => destruct (N.ltb_spec a b); try lia
      | |- context [?a <=? ?b] => destruct (N.leb_spec a b); try lia
      | |- context [?a =? ?b] => destruct (N.eqb_spec a b); try lia
      end
    | progress cbn [andb orb Nat.eqb] ];
  apply bool_decide_eq_true; f_equal; lia.

Lemma enc4_reads cp :
  0x10000 <= cp < 0x110000 -> reads_as (TextEncoder.enc4 cp) (utf16 cp) = true.
Proof.
  intros Hcp. unfold reads_as, TextEncoder.enc4, code_point, leading_ones, between.
  assert (Q1 : cp / 4096 = cp / 64 / 64) by (rewrite N.Div0.div_div; reflexivity).
  assert (Q2 : cp / 262144 = cp / 64 / 64 / 64) by (rewrite !N.Div0.div_div; reflexivity).
  rewrite Q1, Q2. clear Q1 Q2.
  pose proof (N.div_mod' cp 64) as E0.
  pose proof (N.mod_lt cp 64 ltac:(discriminate)) as L0.
  remember (cp mod 64) as m0 eqn:X0. remember (cp / 64) as q1 eqn:Y1. clear X0 Y1.
  pose proof (N.div_mod' q1 64) as E1.
  pose proof (N.mod_lt q1 64 ltac:(discriminate)) as L1.
  remember (q1 mod 64) as m1 eqn:X1. remember (q1 / 64) as q2 eqn:Y2. clear X1 Y2.
  pose proof (N.div_mod' q2 64) as E2.
  pose proof (N.mod_lt q2 64 ltac:(discriminate)) as L2.
  remember (q2 mod 64) as m2 eqn:X2. remember (q2 / 64) as q3 eqn:Y3. clear X2 Y3.
  octet_ranges.
Qed.

Lemma enc2_reads c : 0x80 <= c < 0x800 -> reads_as (TextEncoder.enc2 c) [c] = true.
Proof.
  intros Hc. unfold reads_as, TextEncoder.enc2, code_point, leading_ones, between, utf16.
  pose proof (N.div_mod' c 64) as E0.
  pose proof (N.mod_lt c 64 ltac:(discriminate)) as L0.
  remember (c mod 64) as m0 eqn:X0. remember (c / 64) as q1 eqn:Y1. clear X0 Y1.
  octet_ranges.
Qed.

Lemma enc3_reads c :
  0x800 <= c < 0x10000 -> ~ (0xD800 <= c <= 0xDFFF) ->
  reads_as (TextEncoder.enc3 c) [c] = true.
Proof.
  intros Hc Hs. unfold reads_as, TextEncoder.enc3, code_point, leading_ones, between, utf16.
  assert (Q1 : c / 4096 = c / 64 / 64) by (rewrite N.Div0.div_div; reflexivity).
  rewrite Q1. clear Q1.
  pose proof (N.div_mod' c 64) as E0.
  pose proof (N.mod_lt c 64 ltac:(discriminate)) as L0.
  remember (c mod 64) as m0 eqn:X0. remember (c / 64) as q1 eqn:Y1. clear X0 Y1.
  pose proof (N.div_mod' q1 64) as E1.
  pose proof (N.mod_lt q1 64 ltac:(discriminate)) as L1.
  remember (q1 mod 64) as m1 eqn:X1. remember (q1 / 64) as q2 eqn:Y2. clear X1 Y2.
  octet_ranges.
Qed.

Lemma percent_escapes_app a b :
  percent_escapes (a ++ b) = percent_escapes a ++ percent_escapes b.
Proof. apply flat_map_app. Qed.

Lemma percent_escapes_cons b bs rest :
  percent_escapes (b :: bs) ++ rest = 37 :: (hex_byte b ++ (percent_escapes bs ++ rest)).
Proof. unfold percent_escapes. cbn [flat_map]. rewrite <- app_assoc. reflexivity. Qed.

Lemma percent_escapes_nil rest : percent_escapes [] ++ rest = rest.
Proof. reflexivity. Qed.

Lemma continuation_escape n b bs rest :
  b < 256 ->
  continuation (S n) (percent_escapes (b :: bs) ++ rest)
  = match continuation n (percent_escapes bs ++ rest) with
    | Some (bs', r) => Some (b :: bs', r)
    | None => None
    end.
Proof.
  intros Hb. rewrite percent_escapes_cons. cbn [continuation].
  rewrite N.eqb_refl, hex_octet_hex_byte by exact Hb. reflexivity.
Qed.

(** One round of the decoding loop on the escape of an ASCII octet. *)
Lemma decode_ascii c rest f :
  c < 0x80 ->
  URIDecode.decode (S f) (percent_escapes [c] ++ rest)
  = option_map (cons c) (URIDecode.decode f rest).
Proof.
  intros Hc. rewrite percent_escapes_cons, percent_escapes_nil.
  cbn [URIDecode.decode]. rewrite N.eqb_refl.
  rewrite hex_octet_hex_byte by lia.
  unfold leading_ones. destruct (N.ltb_spec c 0x80); [reflexivity|lia].
Qed.

(** One round of the decoding loop on the escapes of a sequence of two to
    four octets. *)
Lemma decode_group bs units rest f :
  reads_as bs units = true ->
  URIDecode.decode (S f) (percent_escapes bs ++ rest)
  = option_map (app units) (URIDecode.decode f rest).
Proof.
  unfold reads_as. intros Hread. apply andb_prop in Hread as [Hsmall Hread].
  destruct bs as [|b0 bs]; [discriminate|].
  apply andb_prop in Hread as [Hlead Hpoint]. apply Nat.eqb_eq in Hlead.
  destruct (code_point (b0 :: bs)) as [V|] eqn:Hcp; [|discriminate].
  apply bool_decide_eq_true in Hpoint. subst units.
  rewrite forallb_forall in Hsmall.
  assert (Hlt : forall b, In b (b0 :: bs) -> b < 256)
    by (intros b Hb; apply N.ltb_lt, Hsmall, Hb).
  rewrite percent_escapes_cons.
  cbn [URIDecode.decode]. rewrite N.eqb_refl, hex_octet_hex_byte by (apply Hlt; left; reflexivity).
  rewrite Hlead.
  destruct bs as [|b1 [|b2 [|b3 [|b4 bs]]]]; try discriminate Hcp;
    cbn [length Nat.sub];
    rewrite !continuation_escape by (apply Hlt; cbn; tauto);
    cbn [continuation]; rewrite percent_escapes_nil, Hcp; reflexivity.
Qed.

Lemma percent_escapes_nonempty b bs rest :
  (S (length rest) <= length (percent_escapes (b :: bs) ++ rest))%nat.
Proof.
  unfold percent_escapes. cbn [flat_map app length]. rewrite !length_app. lia.
Qed.

(** Decoding the escaped octets of the encoder gives the string back, with
    U+FFFD for every unpaired surrogate. *)
Lemma escapes_decode n : forall s fuel,
  (length s <= n)%nat ->
  Forall (fun c => c < 65536) s ->
  (length (percent_escapes (TextEncoder.encode s)) <= fuel)%nat ->
  URIDecode.decode fuel (percent_escapes (TextEncoder.encode s)) = Some (toWellFormed s).
Proof.
  induction n as [|n IH]; intros s fuel Hn Hunits Hfuel.
  - destruct s; [|cbn in Hn; lia]. destruct fuel; reflexivity.
  - destruct s as [|c r]; [destruct fuel; reflexivity|].
    cbn [length] in Hn.
    pose proof (Forall_inv Hunits) as Hc. cbv beta in Hc.
    pose proof (Forall_inv_tail Hunits) as Hr.
    assert (Hstep : forall bs units tail,
              TextEncoder.encode (c :: r) = bs ++ TextEncoder.encode tail ->
              bs <> [] ->
              (length tail <= n)%nat ->
              Forall (fun c => c < 65536) tail ->
              toWellFormed (c :: r) = units ++ toWellFormed tail ->
              (forall f rest,
                  URIDecode.decode (S f) (percent_escapes bs ++ rest)
                  = option_map (app units) (URIDecode.decode f rest)) ->
              URIDecode.decode fuel (percent_escapes (TextEncoder.encode (c :: r)))
              = Some (toWellFormed (c :: r))).
    { intros bs units tail Henc Hne Htail Hu Hwf Hround.
      rewrite Henc in Hfuel |- *. rewrite percent_escapes_app in Hfuel |- *.
      destruct bs as [|b bs]; [contradiction|].
      pose proof (percent_escapes_nonempty b bs (percent_escapes (TextEncoder.encode tail)))
        as Hlen.
      destruct fuel as [|f]; [lia|].
      rewrite Hround, (IH tail f Htail Hu) by lia. rewrite Hwf. reflexivity. }
    cbn [TextEncoder.encode toWellFormed] in Hstep |- *.
    unfold TextEncoder.is_high_surrogate, TextEncoder.is_low_surrogate in *.
    destruct (N.ltb_spec c 0x80) as [Hascii|Hascii].
    { destruct (N.leb_spec 0xD800 c); [lia|]. destruct (N.leb_spec 0xDC00 c); [lia|].
      cbn [andb] in Hstep |- *.
      apply (Hstep [c] [c] r);
        [reflexivity|discriminate|lia|exact Hr|reflexivity|].
      intros f rest. apply decode_ascii. exact Hascii. }
    destruct (N.ltb_spec c 0x800) as [Htwo|Htwo].
    { destruct (N.leb_spec 0xD800 c); [lia|]. destruct (N.leb_spec 0xDC00 c); [lia|].
      cbn [andb] in Hstep |- *.
      apply (Hstep (TextEncoder.enc2 c) [c] r);
        [reflexivity|discriminate|lia|exact Hr|reflexivity|].
      intros f rest. apply decode_group, enc2_reads. lia. }
    destruct ((0xD800 <=? c) && (c <=? 0xDBFF)) eqn:Hhigh.
    { destruct r as [|d r'].
      - apply (Hstep TextEncoder.replacement [0xFFFD] []);
          [symmetry; apply app_nil_r|discriminate|cbn; lia|constructor|reflexivity|].
        intros f rest. apply decode_group, replacement_reads.
      - destruct ((0xDC00 <=? d) && (d <=? 0xDFFF)) eqn:Hlow.
        + apply (Hstep (TextEncoder.enc4 (0x10000 + (c - 0xD800) * 0x400 + (d - 0xDC00)))
                   [c; d] r');
            [reflexivity|discriminate|cbn [length] in Hn; lia|exact (Forall_inv_tail Hr)
            |reflexivity|].
          intros f rest. apply decode_group.
          rewrite <- (utf16_pair c d Hhigh Hlow). apply enc4_reads.
          apply andb_prop in Hhigh as [A B]. apply andb_prop in Hlow as [C D].
          apply N.leb_le in A, B, C, D. lia.
        + apply (Hstep TextEncoder.replacement [0xFFFD] (d :: r'));
            [reflexivity|discriminate|lia|exact Hr|reflexivity|].
          intros f rest. apply decode_group, replacement_reads. }
    destruct ((0xDC00 <=? c) && (c <=? 0xDFFF)) eqn:Hlone.
    { apply (Hstep TextEncoder.replacement [0xFFFD] r);
        [reflexivity|discriminate|lia|exact Hr|reflexivity|].
      intros f rest. apply decode_group, replacement_reads. }
    apply (Hstep (TextEncoder.enc3 c) [c] r);
      [reflexivity|discriminate|lia|exact Hr|reflexivity|].
    intros f rest. apply decode_group, enc3_reads; [lia|].
    intros [A B]. apply andb_false_iff in Hhigh, Hlone.
    rewrite !N.leb_gt in Hhigh, Hlone. lia.
Qed.

End EncodingFacts.

(** C5.  [hashString] hashes the UTF-8 encoding of its input and writes
    the SHA-256 digest in lowercase hexadecimal.  The octets it hashes are
    the UTF-8 form of the input: written as percent escapes they are read
    back by the strict UTF-8 decoder of [decodeURIComponent] as the input
    itself (with U+FFFD for an unpaired surrogate, as [TextEncoder]
    specifies).  The result spells every octet of the digest of these
    octets by its two hexadecimal digits, the high one first, so it has 64
    characters, each of them one of [0-9a-f]; and it depends on nothing but
    the input. *)
Theorem hashString_hex_sha256 (inputStr : jsstring) :
  Forall (fun c => c < 65536) inputStr ->
  decodeURIComponent (percent_escapes (TextEncoder.encode inputStr))
  = Ret (toWellFormed inputStr)
  /\ hashString inputStr
     = flat_map hex_pair (SHA256.digest (TextEncoder.encode inputStr))
  /\ length (SHA256.digest (TextEncoder.encode inputStr)) = 32%nat
  /\ length (hashString inputStr) = 64%nat
  /\ forallb is_lower_hex (hashString inputStr) = true
  /\ (forall other, other = inputStr -> hashString other = hashString inputStr).
Proof.
  intros Hunits.
  pose proof (digest_small (TextEncoder.encode inputStr)) as Hsmall.
  destruct (hex_join_shape _ Hsmall) as [Hlen Hhex].
  rewrite digest_length in Hlen.
  split.
  { unfold decodeURIComponent.
    rewrite (escapes_decode (length inputStr) inputStr _ (le_n _) Hunits (le_n _)).
    reflexivity. }
  split.
  { unfold hashString, join. cbv zeta. rewrite flat_map_concat_map. f_equal.
    apply map_ext_in. intros b Hb. apply hex_byte_pair.
    rewrite List.Forall_forall in Hsmall. exact (Hsmall b Hb). }
  split; [apply digest_length|].
  split; [exact Hlen|].
  split; [exact Hhex|].
  intros other ->. reflexivity.
Qed.

Lemma hashString_hex_sha256_witness :
  hashString (str "abc")
  = str "ba7816bf8f01cfea414140de5dae2223b00361a396177a9cb410ff61f20015ad"
  /\ hashString (str "abcdbcdecdefdefgefghfghighijhijkijkljklmklmnlmnomnopnopq")
     = str "248d6a61d20638b8e5c026930c3e6039a33ce45964ff2167f6ecedd419db06c1"
  /\ hashString [0xE9]
     = str "4a99557e4033c3539de2eb65472017cad5f9557f7a0625a09f1c3f6e2ba69c4c"
  /\ hashString [0xD83D; 0xDE00]
     = str "f0443a342c5ef54783a111b51ba56c938e474c32324d90c3a60c9c8e3a37e2d9"
  /\ decodeURIComponent (str "%c3%a9") = Ret [0xE9]
  /\ decodeURIComponent (str "%f0%9f%98%80") = Ret [0xD83D; 0xDE00]
  /\ length (hashString [0xE9]) = 64%nat.
Proof.
  assert (H1 : Forall (fun c => c < 65536) [0xE9]) by (repeat constructor).
  assert (H2 : Forall (fun c => c < 65536) [0xD83D; 0xDE00]) by (repeat constructor).
  destruct (hashString_hex_sha256 [0xE9] H1) as (Hdec1 & Hhex1 & _ & Hlen1 & _).
  destruct (hashString_hex_sha256 [0xD83D; 0xDE00] H2) as (Hdec2 & Hhex2 & _).
  split; [vm_compute; reflexivity|].
  split; [vm_compute; reflexivity|].
  split; [rewrite Hhex1; vm_compute; reflexivity|].
  split; [rewrite Hhex2; vm_compute; reflexivity|].
  split; [exact Hdec1|]. split; [exact Hdec2|exact Hlen1].
Defined.

(** FIPS 180-4 test vectors. *)
Example sha256_abc :
  hashString (str "abc")
  = str "ba7816bf8f01cfea414140de5dae2223b00361a396177a9cb410ff61f20015ad".
Proof. vm_compute. reflexivity. Qed.

Example sha256_empty :
  hashString []
  = str "e3b0c44298fc1c149afbf4c8996fb92427ae41e4649b934ca495991b7852b855".
Proof. vm_compute. reflexivity. Qed.

Example sha256_two_blocks :
  hashString (str "abcdbcdecdefdefgefghfghighijhijkijkljklmklmnlmnomnopnopq")
  = str "248d6a61d20638b8e5c026930c3e6039a33ce45964ff2167f6ecedd419db06c1".
Proof. vm_compute. reflexivity. Qed.

(* ===================================================================== *)
(** * The viewport (lines 88-89 and [getNumber]) *)
(* ===================================================================== *)

Section ViewportFacts.

Lemma or_default_getNumber v d : or_default (getNumber v) d = spec_resolution v d.
Proof.
  destruct v as [| |b|x|s|items|props|kind]; try reflexivity.
  - destruct x; reflexivity.
  - unfold getNumber, or_default, spec_resolution, truthy. cbn.
    destruct (parseInt s); reflexivity.
Qed.

Lemma viewport_record props :
  viewport (VObject props)
  = Ret (or_default (getNumber (field props (str "xMax"))) default_xMax,
         or_default (getNumber (field props (str "yMax"))) default_yMax).
Proof.
  unfold viewport, get_member, field.
  destruct (assoc (str "xMax") props), (assoc (str "yMax") props); reflexivity.
Qed.

Lemma zero_valued_default v d : zero_valued v = true -> spec_resolution v d = d.
Proof.
  destruct v; cbn; try discriminate; intros ->; reflexivity.
Qed.

End ViewportFacts.

(** C4, what fails: the Number 0 is a native number, yet it is not taken
    as the width or the height; the defaults are. *)
Lemma viewport_zero_number_not_accepted :
  viewport (VObject [(str "xMax", VNumber (of_Z 0)); (str "yMax", VNumber (of_Z 0))])
  = Ret (of_Z 360, of_Z 1600)
  /\ of_Z 360 <> of_Z 0 /\ of_Z 1600 <> of_Z 0.
Proof. vm_compute. repeat split; discriminate. Qed.

(** C4, amended.  For every options record the width and the height are
    resolved by the coercion rule [spec_resolution] with the defaults 360
    and 1600: a Number other than zero and NaN is taken as it is, a string
    is read by [parseInt], and an absent member, a member of another type,
    a failed parse, NaN and zero all give the default.  In particular the
    string 480 for [xMax] gives the width 480. *)
Theorem viewport_resolution (props : list (jsstring * JSValue)) :
  viewport (VObject props)
  = Ret (spec_resolution (field props (str "xMax")) (of_Z 360),
         spec_resolution (field props (str "yMax")) (of_Z 1600))
  /\ (assoc (str "xMax") props = None ->
      spec_resolution (field props (str "xMax")) (of_Z 360) = of_Z 360)
  /\ (assoc (str "yMax") props = None ->
      spec_resolution (field props (str "yMax")) (of_Z 1600) = of_Z 1600)
  /\ (assoc (str "xMax") props = Some (VString (str "480")) ->
      spec_resolution (field props (str "xMax")) (of_Z 360) = of_Z 480).
Proof.
  split; [|split; [|split]].
  - rewrite viewport_record, !or_default_getNumber. reflexivity.
  - unfold field. intros ->. reflexivity.
  - unfold field. intros ->. reflexivity.
  - unfold field. intros ->. vm_compute. reflexivity.
Qed.

Lemma viewport_resolution_witness :
  viewport (VObject [(str "xMax", VString (str "480"))]) = Ret (of_Z 480, of_Z 1600).
Proof.
  destruct (viewport_resolution [(str "xMax", VString (str "480"))])
    as (Hview & _ & Hy & Hx).
  rewrite Hview, Hx, Hy; reflexivity.
Defined.

(** C9.  When [xMax] (or [yMax]) is the Number 0, or a string that
    [parseInt] reads as 0, the width (the height) is the default 360
    (1600), not 0. *)
Theorem zero_dimension_gives_default (props : list (jsstring * JSValue)) :
  (zero_valued (field props (str "xMax")) = true ->
   exists h, viewport (VObject props) = Ret (of_Z 360, h))
  /\ (zero_valued (field props (str "yMax")) = true ->
      exists w, viewport (VObject props) = Ret (w, of_Z 1600)).
Proof.
  rewrite viewport_record, !or_default_getNumber. split; intros Hz.
  - rewrite (zero_valued_default _ _ Hz). eexists. reflexivity.
  - rewrite (zero_valued_default _ _ Hz). eexists. reflexivity.
Qed.

Lemma zero_dimension_gives_default_witness :
  (exists h, viewport (VObject [(str "xMax", VNumber (of_Z 0)); (str "yMax", VString (str "0"))])
             = Ret (of_Z 360, h))
  /\ (exists w, viewport (VObject [(str "xMax", VNumber (of_Z 0)); (str "yMax", VString (str "0"))])
                = Ret (w, of_Z 1600)).
Proof.
  destruct (zero_dimension_gives_default
              [(str "xMax", VNumber (of_Z 0)); (str "yMax", VString (str "0"))]) as [Hx Hy].
  split; [apply Hx | apply Hy]; vm_compute; reflexivity.
Defined.

(* ===================================================================== *)
(** * The alarm handler (lines 120-137) *)
(* ===================================================================== *)

(** C1, what fails: at the ceiling the session is closed, but the field
    [browser] still holds the handle afterwards. *)
Lemma alarm_keeps_closed_handle :
  let s := {| this := {| keptAliveInSeconds := 50; browser := Some 0%nat |};
              world := mkWorld 60000 None ∅ {[0%nat]} 1 [] |} in
  let s' := snd (Browser.alarm s) in
  keptAliveInSeconds (this s') = 60%Z
  /\ bool_decide (0%nat ∈ sessions (world s')) = false
  /\ browser (this s') = Some 0%nat
  /\ browser (this s') <> None.
Proof. vm_compute. repeat split; discriminate. Qed.

(** C1, amended.  Every run of the alarm handler adds 10 to the counter.
    If the new value is below 60, an alarm is set 10 seconds from now and
    nothing else changes.  Otherwise no alarm is set and, if the field
    [browser] holds a handle, that session is closed; the field itself is
    left as it was. *)
Theorem alarm_spec (s : state) :
  let k := (keptAliveInSeconds (this s) + 10)%Z in
  let w := world s in
  Browser.alarm s =
  (Ret tt,
   {| this := {| keptAliveInSeconds := k; browser := browser (this s) |};
      world :=
        if (k <? 60)%Z then
          mkWorld (now w) (Some (now w + 10000)%Z) (kv w) (sessions w) (launched w)
                  (trace w ++ [EvSetKeptAlive k; EvLog (LogExtending k);
                               EvSetAlarm (now w + 10000)%Z])
        else
          match browser (this s) with
          | Some h =>
              mkWorld (now w) (scheduled w) (kv w) (sessions w ∖ {[h]}) (launched w)
                      (trace w ++ [EvSetKeptAlive k; EvLog LogExceeded; EvLog LogClosing;
                                   EvBrowserClose h])
          | None =>
              mkWorld (now w) (scheduled w) (kv w) (sessions w) (launched w)
                      (trace w ++ [EvSetKeptAlive k; EvLog LogExceeded])
          end |}).
Proof.
  destruct s as [[k b] [t a m ss n tr]].
  unfold Browser.alarm, bind, get_keptAlive, set_keptAlive, bind, emit, with_world,
    console_log, emit, with_world, Date_now, setAlarm, get_browser, browser_close,
    with_world, ret, KEEP_BROWSER_ALIVE_IN_SECONDS.
  cbn [this world keptAliveInSeconds browser now scheduled kv sessions launched trace].
  destruct (k + 10 <? 60)%Z.
  - cbn. rewrite <- !app_assoc. reflexivity.
  - destruct b as [h|]; cbn; rewrite <- !app_assoc; reflexivity.
Qed.

(* ===================================================================== *)
(** * Running the handlers *)
(* ===================================================================== *)

Section HandlerFacts.
Context `{Platform}.

Lemma trace_extend evs s : trace (world (extend evs s)) = trace (world s) ++ evs.
Proof. reflexivity. Qed.

Lemma new_events_app s s' evs :
  trace (world s') = trace (world s) ++ evs -> new_events s s' = evs.
Proof.
  unfold new_events. intros ->. rewrite skipn_app, skipn_all, Nat.sub_diag. reflexivity.
Qed.

Lemma new_events_same s : new_events s s = [].
Proof. apply new_events_app. rewrite app_nil_r. reflexivity. Qed.

Lemma ensure_browser_run o s : Browser.ensure_browser o s = (Ret tt, ensured o s).
Proof.
  destruct s as [[k b] [t a m ss n tr]].
  unfold Browser.ensure_browser, ensured, has_live_browser, bind, get_browser.
  cbn [this world browser sessions].
  destruct b as [h|]; unfold isConnected, ret; cbn [this world browser sessions].
  - destruct (bool_decide (h ∈ ss)); [reflexivity|].
    unfold console_log, emit, with_world, try_catch, bind, puppeteer_launch.
    destruct (launch_ok o); reflexivity.
  - unfold console_log, emit, with_world, try_catch, bind, puppeteer_launch.
    destruct (launch_ok o); reflexivity.
Qed.

Lemma kv_get_run key s :
  kv_get key s = (Ret (kv_lookup (world s) key), extend [EvKVGet key] s).
Proof. reflexivity. Qed.

Lemma arm_alarm_run s : Browser.arm_alarm s = (Ret tt, armed s).
Proof.
  destruct s as [[k b] [t a m ss n tr]].
  unfold Browser.arm_alarm, armed, bind, getAlarm, bind, emit, with_world.
  cbn. destruct a; reflexivity.
Qed.

(** The render either goes through, or stops at the first step that
    throws. *)
Lemma render_run o h parsedObj href key s :
  Browser.render o h parsedObj href key s =
  if bool_decide (h ∈ sessions (world s)) then
    match viewport parsedObj with
    | Throw e => (Throw e, extend [EvNewPage h] (counter_reset s))
    | Ret dims =>
        let s1 := extend [EvGoto href]
                    (extend [EvSetViewport (fst dims) (snd dims)]
                       (extend [EvNewPage h] (counter_reset s))) in
        if navigates o href then
          match shoot o href dims with
          | Some img => (Ret img, rendered h dims href key img s)
          | None => (Throw BrowserError, extend [EvScreenshot] s1)
          end
        else (Throw BrowserError, s1)
    end
  else (Throw BrowserError, extend [EvNewPage h] (counter_reset s)).
Proof.
  destruct s as [[k b] [t a m ss n tr]].
  unfold Browser.render, bind, set_keptAlive, bind, newPage, bind, isConnected,
    emit, with_world, counter_reset, extend.
  cbn [this world browser sessions now scheduled kv launched trace keptAliveInSeconds].
  destruct (bool_decide (h ∈ ss)); [|reflexivity].
  unfold ret, lift. destruct (viewport parsedObj) as [dims|e]; [|reflexivity].
  unfold setViewport, goto, bind, emit, with_world, ret.
  cbn [this world browser sessions now scheduled kv launched trace keptAliveInSeconds
       page_session page_viewport page_url].
  destruct (navigates o href); [|reflexivity].
  unfold screenshot, bind, emit, with_world.
  cbn [this world browser sessions now scheduled kv launched trace keptAliveInSeconds
       page_session page_viewport page_url].
  destruct (shoot o href dims) as [img|]; reflexivity.
Qed.

Lemma ensured_keeps o s :
  now (world (ensured o s)) = now (world s)
  /\ scheduled (world (ensured o s)) = scheduled (world s)
  /\ kv (world (ensured o s)) = kv (world s)
  /\ keptAliveInSeconds (this (ensured o s)) = keptAliveInSeconds (this s).
Proof.
  unfold ensured. destruct (has_live_browser s); [auto|].
  destruct (launch_ok o); auto.
Qed.

Lemma kv_lookup_ensured o s key :
  kv_lookup (world (ensured o s)) key = kv_lookup (world s) key.
Proof.
  destruct (ensured_keeps o s) as (Hn & _ & Hk & _).
  unfold kv_lookup. rewrite Hn, Hk. reflexivity.
Qed.

Lemma serve_run o parsedObj href key s :
  serve o parsedObj href key s =
  let s1 := extend [EvKVGet key] (ensured o s) in
  match kv_lookup (world s) key, browser (this (ensured o s)) with
  | None, Some h =>
      match Browser.render o h parsedObj href key s1 with
      | (Ret img, s2) => (Ret (Response_image (Some img)), armed s2)
      | (Throw e, s2) => (Throw e, s2)
      end
  | img, _ => (Ret (Response_image img), armed s1)
  end.
Proof.
  unfold serve. unfold bind at 1. rewrite ensure_browser_run.
  unfold bind at 1. rewrite kv_get_run, kv_lookup_ensured.
  unfold bind at 1. unfold get_browser at 1.
  change (browser (this (extend [EvKVGet key] (ensured o s))))
    with (browser (this (ensured o s))).
  set (s1 := extend [EvKVGet key] (ensured o s)).
  cbv zeta.
  destruct (kv_lookup (world s) key) as [img|], (browser (this (ensured o s))) as [h|];
    unfold bind at 1.
  - unfold ret at 1. unfold bind. rewrite arm_alarm_run. reflexivity.
  - unfold ret at 1. unfold bind. rewrite arm_alarm_run. reflexivity.
  - unfold bind at 1.
    destruct (Browser.render o h parsedObj href key s1) as [[img|e] s2]; [|reflexivity].
    unfold ret at 1. unfold bind. rewrite arm_alarm_run. reflexivity.
  - unfold ret at 1. unfold bind. rewrite arm_alarm_run. reflexivity.
Qed.

Lemma fetch_read o request s :
  Browser.fetch o request s =
  match read_request request with
  | Favicon => (Ret Response_empty, s)
  | Rejected e => (Throw e, s)
  | NoUrl => (Ret (Response_text msg_missing_url), s)
  | NoOptions => (Ret (Response_text msg_missing_options), s)
  | Accepted url parsedObj optionsStr =>
      serve o parsedObj (URL_href url) (hashString optionsStr) s
  end.
Proof.
  unfold Browser.fetch, read_request.
  destruct (includes _ _); [reflexivity|].
  unfold bind at 1. unfold new_URL at 1.
  destruct (URL_new (req_url request)) as [requested|]; [|reflexivity].
  unfold ret at 1.
  destruct (searchParams_get requested (str "url")) as [[|c urlStr]|]; try reflexivity.
  unfold bind at 1. unfold new_URL at 1.
  destruct (URL_new (c :: urlStr)) as [url|]; [|reflexivity].
  unfold ret at 1. unfold bind at 1. unfold lift at 1.
  destruct (parseSearchParams (URL_search url)) as [parsed|e]; [|reflexivity].
  destruct (parsed !! str "options") as [[[|c0 parsedOptions]|l]|]; try reflexivity.
  unfold bind at 1. unfold lift at 1.
  destruct (superjson_parse (c0 :: parsedOptions)) as [parsedObj|e]; [|reflexivity].
  unfold bind at 1. unfold lift at 1.
  destruct (superjson_stringify parsedObj) as [optionsStr|e]; reflexivity.
Qed.

Lemma trace_ensured o s :
  trace (world (ensured o s)) = trace (world s) ++ ensure_events o s.
Proof.
  unfold ensured, ensure_events. destruct (has_live_browser s).
  - rewrite app_nil_r. reflexivity.
  - destruct (launch_ok o); cbn; rewrite <- ?app_assoc; reflexivity.
Qed.

Lemma trace_armed s : trace (world (armed s)) = trace (world s) ++ arm_events s.
Proof.
  destruct s as [i [t [a|] m ss n tr]]; cbn; rewrite <- ?app_assoc; reflexivity.
Qed.

Lemma trace_rendered h dims href key img s :
  trace (world (rendered h dims href key img s))
  = trace (world s) ++ render_events h dims href key img.
Proof. unfold render_events. cbn. rewrite <- !app_assoc. reflexivity. Qed.

Lemma arm_events_extend evs s : arm_events (extend evs s) = arm_events s.
Proof. reflexivity. Qed.

Lemma scheduled_armed s :
  scheduled (world (armed s))
  = Some (match scheduled (world s) with
          | Some t => t
          | None => (now (world s) + 10000)%Z
          end).
Proof. destruct s as [i [t [a|] m ss n tr]]; reflexivity. Qed.

Lemma ensure_events_no_render o s :
  forallb (fun e => negb (render_event e)) (ensure_events o s) = true.
Proof.
  unfold ensure_events. destruct (has_live_browser s); [reflexivity|].
  destruct (launch_ok o); reflexivity.
Qed.

Lemma arm_events_no_render s :
  forallb (fun e => negb (render_event e)) (arm_events s) = true.
Proof. unfold arm_events. destruct (scheduled (world s)); reflexivity. Qed.

(** A render that returns went through every step. *)
Lemma render_ok o h parsedObj href key s img s2 :
  Browser.render o h parsedObj href key s = (Ret img, s2) ->
  exists dims,
    bool_decide (h ∈ sessions (world s)) = true
    /\ viewport parsedObj = Ret dims
    /\ navigates o href = true
    /\ shoot o href dims = Some img
    /\ s2 = rendered h dims href key img s.
Proof.
  rewrite render_run.
  destruct (bool_decide (h ∈ sessions (world s))); [|discriminate].
  destruct (viewport parsedObj) as [dims|e]; [|discriminate].
  cbv zeta. destruct (navigates o href); [|discriminate].
  destruct (shoot o href dims) as [img'|] eqn:Hshoot; [|discriminate].
  intros [= <- <-]. exists dims. repeat split. exact Hshoot.
Qed.

(** What a request that was answered went through: either it was turned
    away before the cache was asked, or it was served from the cache, or
    it was rendered. *)
Lemma fetch_answered o request s resp s' :
  Browser.fetch o request s = (Ret resp, s') ->
  (s' = s /\ content_type resp <> Some (str "image/jpeg"))
  \/ (exists url parsedObj optionsStr,
        read_request request = Accepted url parsedObj optionsStr
        /\ ((exists img,
               resp = Response_image img
               /\ s' = armed (extend [EvKVGet (hashString optionsStr)] (ensured o s)))
            \/ (exists h dims img,
                  resp = Response_image (Some img)
                  /\ browser (this (ensured o s)) = Some h
                  /\ kv_lookup (world s) (hashString optionsStr) = None
                  /\ viewport parsedObj = Ret dims
                  /\ s' = armed (rendered h dims (URL_href url) (hashString optionsStr) img
                                   (extend [EvKVGet (hashString optionsStr)]
                                           (ensured o s)))))).
Proof.
  rewrite fetch_read.
  destruct (read_request request) as [|e| | |url parsedObj optionsStr] eqn:Hread.
  - intros [= <- <-]. left. split; [reflexivity|discriminate].
  - discriminate.
  - intros [= <- <-]. left. split; [reflexivity|]. vm_compute. discriminate.
  - intros [= <- <-]. left. split; [reflexivity|]. vm_compute. discriminate.
  - rewrite serve_run. cbv zeta. intros Hrun.
    right. exists url, parsedObj, optionsStr. split; [reflexivity|].
    destruct (kv_lookup (world s) (hashString optionsStr)) as [cached|] eqn:Hkv.
    + left. exists (Some cached).
      destruct (browser (this (ensured o s))); injection Hrun as <- <-; auto.
    + destruct (browser (this (ensured o s))) as [h|] eqn:Hb.
      * destruct (Browser.render _ _ _ _ _ _) as [[img|e] s2] eqn:Hrender; [|discriminate].
        injection Hrun as <- <-.
        apply render_ok in Hrender as (dims & _ & Hv & _ & _ & ->).
        right. exists h, dims, img. repeat split; assumption.
      * injection Hrun as <- <-. left. exists None. auto.
Qed.

(** The options text of an accepted request is the canonical text of its
    [options] parameter, and the key asked of the cache is its hash. *)
Lemma read_request_canonical request url parsedObj optionsStr :
  read_request request = Accepted url parsedObj optionsStr ->
  exists parsedOptions,
    superjson_parse parsedOptions = Ret parsedObj
    /\ canonical_options parsedOptions = Ret optionsStr
    /\ cache_key parsedOptions = Ret (hashString optionsStr).
Proof.
  unfold read_request.
  destruct (includes _ _); [discriminate|].
  destruct (URL_new (req_url request)) as [requested|]; [|discriminate].
  destruct (searchParams_get requested (str "url")) as [[|c urlStr]|]; try discriminate.
  destruct (URL_new (c :: urlStr)) as [target|]; [|discriminate].
  destruct (parseSearchParams (URL_search target)) as [parsed|e]; [|discriminate].
  destruct (parsed !! str "options") as [[[|c0 parsedOptions]|l]|]; try discriminate.
  destruct (superjson_parse (c0 :: parsedOptions)) as [obj|e] eqn:Hparse; [|discriminate].
  destruct (superjson_stringify obj) as [text|e] eqn:Htext; [|discriminate].
  intros [= _ <- <-]. exists (c0 :: parsedOptions).
  unfold cache_key, canonical_options. rewrite Hparse, Htext. repeat split.
Qed.

End HandlerFacts.

(* ===================================================================== *)
(** * The guidance responses (lines 54-56, 100-102, 116-118) *)
(* ===================================================================== *)

(** C6, what fails: a request for [/favicon.ico] has no [url] parameter and
    is answered with an empty body, not with the guidance text; and a
    target whose query holds a malformed escape and no [options] makes the
    handler throw. *)
Lemma guidance_not_for_every_request :
  (exists requested,
      URL_new (str "https://worker.example/favicon.ico") = Some requested
      /\ searchParams_get requested (str "url") = None)
  /\ Browser.fetch always_works {| req_url := str "https://worker.example/favicon.ico" |} initial
     = (Ret Response_empty, initial)
  /\ body Response_empty <> BodyText msg_missing_url
  /\ (exists url,
         URL_new (str "https://example.com/?%") = Some url
         /\ searchParams_get url (str "options") = None)
  /\ Browser.fetch always_works
       {| req_url := str "https://worker.example/?url=https://example.com/?%25" |} initial
     = (Throw URIError, initial).
Proof.
  split; [eexists; split; vm_compute; reflexivity|].
  split; [vm_compute; reflexivity|].
  split; [discriminate|].
  split; [eexists; split; vm_compute; reflexivity|].
  vm_compute; reflexivity.
Qed.

(** C6, amended.  For a request that is not for the favicon: when its
    [url] parameter is missing or empty, the answer has status 200 and the
    plain-text body [Please add an ?url=https://example.com/ parameter];
    when the target URL parses, its query decodes, and what
    [parseSearchParams] returns for [options] is no non-empty string (the
    member is absent, is the empty string, or is an array), the answer has
    status 200 and the plain-text body [Please add options to your url].  In both cases
    nothing is thrown and the state is left as it was. *)
Theorem guidance_responses `{Platform} (o : Oracle) (request : Request) (s : state)
  (requested : URL) :
  includes (req_url request) (str "/favicon.ico") = false ->
  URL_new (req_url request) = Some requested ->
  (searchParams_get requested (str "url") = None
   \/ searchParams_get requested (str "url") = Some [] ->
   exists resp,
     Browser.fetch o request s = (Ret resp, s)
     /\ status resp = 200%Z
     /\ body resp = BodyText (str "Please add an ?url=https://example.com/ parameter"))
  /\ (forall urlStr url parsed,
        searchParams_get requested (str "url") = Some urlStr -> urlStr <> [] ->
        URL_new urlStr = Some url ->
        parseSearchParams (URL_search url) = Ret parsed ->
        (forall text, parsed !! str "options" = Some (PString text) -> text = []) ->
        exists resp,
          Browser.fetch o request s = (Ret resp, s)
          /\ status resp = 200%Z
          /\ body resp = BodyText (str "Please add options to your url")).
Proof.
  intros Hfav Hreq. split.
  - intros Hurl. exists (Response_text msg_missing_url).
    split; [|split; reflexivity].
    unfold Browser.fetch. rewrite Hfav.
    unfold bind at 1. unfold new_URL at 1. rewrite Hreq. unfold ret at 1.
    destruct Hurl as [-> | ->]; reflexivity.
  - intros urlStr url parsed Hurl Hne Htarget Hparsed Hopt.
    exists (Response_text msg_missing_options).
    split; [|split; reflexivity].
    unfold Browser.fetch. rewrite Hfav.
    unfold bind at 1. unfold new_URL at 1. rewrite Hreq. unfold ret at 1.
    rewrite Hurl. destruct urlStr as [|c rest]; [contradiction|].
    unfold bind at 1. unfold new_URL at 1. rewrite Htarget. unfold ret at 1.
    unfold bind at 1. unfold lift at 1. rewrite Hparsed.
    destruct (parsed !! str "options") as [[[|c0 text]|l]|] eqn:Hlook; try reflexivity.
    specialize (Hopt _ eq_refl). discriminate.
Qed.

Lemma guidance_responses_witness :
  (exists resp,
      Browser.fetch always_works {| req_url := str "https://worker.example/?size=1" |} initial
      = (Ret resp, initial)
      /\ status resp = 200%Z
      /\ body resp = BodyText (str "Please add an ?url=https://example.com/ parameter"))
  /\ (exists resp,
         Browser.fetch always_works (request_for (str "https://example.com/?size=1")) initial
         = (Ret resp, initial)
         /\ status resp = 200%Z
         /\ body resp = BodyText (str "Please add options to your url")).
Proof.
  split.
  - destruct (SimpleURL.parse (str "https://worker.example/?size=1")) as [requested|] eqn:Hreq;
      [|vm_compute in Hreq; discriminate].
    refine (proj1 (guidance_responses always_works
                     {| req_url := str "https://worker.example/?size=1" |} initial requested
                     _ Hreq) _).
    + vm_compute; reflexivity.
    + left. vm_compute in Hreq. injection Hreq as <-. vm_compute; reflexivity.
  - destruct (SimpleURL.parse (req_url (request_for (str "https://example.com/?size=1"))))
      as [requested|] eqn:Hreq; [|vm_compute in Hreq; discriminate].
    destruct (SimpleURL.parse (str "https://example.com/?size=1")) as [url|] eqn:Htarget;
      [|vm_compute in Htarget; discriminate].
    destruct (parseSearchParams (SimpleURL.search url)) as [parsed|e] eqn:Hparsed;
      [|vm_compute in Htarget; injection Htarget as <-; vm_compute in Hparsed; discriminate].
    refine (proj2 (guidance_responses always_works
                     (request_for (str "https://example.com/?size=1")) initial requested
                     _ Hreq) (str "https://example.com/?size=1") url parsed _ _ Htarget Hparsed _).
    + vm_compute; reflexivity.
    + vm_compute in Hreq. injection Hreq as <-. vm_compute; reflexivity.
    + discriminate.
    + intros text Hlook.
      vm_compute in Htarget. injection Htarget as <-.
      vm_compute in Hparsed. injection Hparsed as <-.
      vm_compute in Hlook. discriminate.
Defined.

(* ===================================================================== *)
(** * The counter around a render (lines 84-99) *)
(* ===================================================================== *)

Section RenderFacts.
Context `{Platform}.

Lemma this_armed s : this (armed s) = this s.
Proof. destruct s as [i [t [a|] m ss n tr]]; reflexivity. Qed.

Lemma no_render_event_in l h :
  forallb (fun e => negb (render_event e)) l = true -> ~ In (EvNewPage h) l.
Proof.
  intros Hall Hin. rewrite forallb_forall in Hall.
  specialize (Hall _ Hin). discriminate.
Qed.

Lemma new_page_in_render_events h h' dims href key img :
  In (EvNewPage h) (render_events h' dims href key img) -> h = h'.
Proof.
  unfold render_events. cbn.
  intros [E|[E|[E|[E|[E|[E|[E|[E|[]]]]]]]]]; try discriminate.
  injection E as ->. reflexivity.
Qed.

End RenderFacts.

(** C7.  Whenever a request that was answered opened a page, the events
    of that request are: events that touch neither the counter nor the
    page, then the write of 0 to the counter, the page being opened, the
    viewport, the navigation, the screenshot, the [put], the page being
    closed, the write of 0 to the counter again, and after that only the
    arming of the alarm; the counter is 0 when the request ends. *)
Theorem counter_reset_around_render `{Platform} (o : Oracle) (request : Request)
  (s s' : state) (resp : Response) (h : nat) :
  Browser.fetch o request s = (Ret resp, s') ->
  In (EvNewPage h) (new_events s s') ->
  keptAliveInSeconds (this s') = 0%Z
  /\ exists before dims href key img after,
       new_events s s' = before ++ render_events h dims href key img ++ after
       /\ forallb (fun e => negb (render_event e)) before = true
       /\ forallb (fun e => negb (render_event e)) after = true.
Proof.
  intros Hrun Hpage.
  apply fetch_answered in Hrun
    as [[-> _] | (url & parsedObj & optionsStr & _ & [(img & _ & ->) | Hrendered])].
  - rewrite new_events_same in Hpage. destruct Hpage.
  - exfalso. revert Hpage.
    erewrite new_events_app
      with (evs := ensure_events o s ++ [EvKVGet (hashString optionsStr)]
                   ++ arm_events (extend [EvKVGet (hashString optionsStr)] (ensured o s))).
    + apply no_render_event_in.
      rewrite !forallb_app, ensure_events_no_render, arm_events_no_render. reflexivity.
    + rewrite trace_armed, trace_extend, trace_ensured, <- !app_assoc. reflexivity.
  - destruct Hrendered as (h' & dims & img & _ & _ & _ & _ & ->).
    set (key := hashString optionsStr) in *.
    set (s1 := extend [EvKVGet key] (ensured o s)) in *.
    assert (Hnew : new_events s (armed (rendered h' dims (URL_href url) key img s1))
                   = (ensure_events o s ++ [EvKVGet key])
                     ++ render_events h' dims (URL_href url) key img
                     ++ arm_events (rendered h' dims (URL_href url) key img s1)).
    { apply new_events_app.
      rewrite trace_armed, trace_rendered. unfold s1.
      rewrite trace_extend, trace_ensured, <- !app_assoc. reflexivity. }
    rewrite Hnew in Hpage.
    assert (h = h') as <-.
    { apply in_app_or in Hpage as [Hin|Hin].
      - exfalso. revert Hin. apply no_render_event_in.
        rewrite forallb_app, ensure_events_no_render. reflexivity.
      - apply in_app_or in Hin as [Hin|Hin].
        + eapply new_page_in_render_events; eassumption.
        + exfalso. revert Hin. apply no_render_event_in, arm_events_no_render. }
    split.
    + rewrite this_armed. reflexivity.
    + exists (ensure_events o s ++ [EvKVGet key]), dims, (URL_href url), key, img,
        (arm_events (rendered h dims (URL_href url) key img s1)).
      split; [exact Hnew|].
      split; [|apply arm_events_no_render].
      rewrite forallb_app, ensure_events_no_render. reflexivity.
Qed.

Lemma counter_reset_around_render_witness :
  keptAliveInSeconds (this (snd (Browser.fetch always_works wide_request initial))) = 0%Z.
Proof.
  refine (proj1 (counter_reset_around_render always_works wide_request initial
                   (snd (Browser.fetch always_works wide_request initial))
                   (Response_image (Some [255; 216; 255])) 0%nat _ _)).
  - vm_compute; reflexivity.
  - vm_compute. do 4 right. left. reflexivity.
Defined.

(* ===================================================================== *)
(** * Arming the alarm (lines 103-109) *)
(* ===================================================================== *)

(** C8, what fails: a request without [url] parameter is handled (it gets
    the guidance text) while no alarm is scheduled, and no alarm is
    scheduled afterwards either. *)
Lemma alarm_not_armed_for_guidance :
  scheduled (world initial) = None
  /\ Browser.fetch always_works {| req_url := str "https://worker.example/" |} initial
     = (Ret (Response_text msg_missing_url), initial)
  /\ scheduled (world (snd (Browser.fetch always_works
                              {| req_url := str "https://worker.example/" |} initial)))
     = None.
Proof. repeat split; vm_compute; reflexivity. Qed.

(** C8, amended.  After a request that is answered with the image
    response, an alarm is scheduled: the one that was scheduled before, or
    else one 10 seconds from now.  A request answered in another way (the
    guidance texts, the favicon) leaves the state, and so the alarm, as it
    was. *)
Theorem alarm_after_image_response `{Platform} (o : Oracle) (request : Request)
  (s s' : state) (resp : Response) :
  Browser.fetch o request s = (Ret resp, s') ->
  (content_type resp = Some (str "image/jpeg") ->
   scheduled (world s')
   = Some (match scheduled (world s) with
           | Some t => t
           | None => (now (world s) + 10000)%Z
           end))
  /\ (content_type resp <> Some (str "image/jpeg") -> s' = s).
Proof.
  intros Hrun.
  apply fetch_answered in Hrun
    as [[-> Hct] | (url & parsedObj & optionsStr & _ & [(img & -> & ->) | Hrendered])].
  - split; [intros Himg; contradiction | reflexivity].
  - split; [intros _ | intros Hct; exfalso; apply Hct; reflexivity].
    rewrite scheduled_armed.
    destruct (ensured_keeps o s) as (Hnow & Hsched & _).
    cbn [extend world now scheduled]. rewrite Hnow, Hsched. reflexivity.
  - destruct Hrendered as (h & dims & img & -> & _ & _ & _ & ->).
    split; [intros _ | intros Hct; exfalso; apply Hct; reflexivity].
    rewrite scheduled_armed.
    destruct (ensured_keeps o s) as (Hnow & Hsched & _).
    cbn [rendered counter_reset stored extend world now scheduled this].
    rewrite Hnow, Hsched. reflexivity.
Qed.

Lemma alarm_after_image_response_witness :
  scheduled (world (snd (Browser.fetch always_works wide_request initial))) = Some 10000%Z.
Proof.
  refine (proj1 (alarm_after_image_response always_works wide_request initial
                   (snd (Browser.fetch always_works wide_request initial))
                   (Response_image (Some [255; 216; 255])) _) _).
  - vm_compute; reflexivity.
  - reflexivity.
Defined.

(* ===================================================================== *)
(** * A failed launch (lines 73-84) *)
(* ===================================================================== *)

(** With no handle in the field, a failed launch is logged, the render is
    skipped, and a cache miss is answered with status 200 and no body. *)
Lemma launch_failure_without_handle `{Platform} (o : Oracle) (request : Request)
  (s : state) (url : URL) (parsedObj : JSValue) (optionsStr : jsstring) :
  read_request request = Accepted url parsedObj optionsStr ->
  browser (this s) = None ->
  launch_ok o = false ->
  kv_lookup (world s) (hashString optionsStr) = None ->
  exists s',
    Browser.fetch o request s = (Ret (Response_image None), s')
    /\ status (Response_image None) = 200%Z
    /\ body (Response_image None) = BodyNone
    /\ browser (this s') = None
    /\ new_events s s'
       = [EvLog LogStarting; EvLaunch None; EvLog (LogCouldNotStart LaunchError);
          EvKVGet (hashString optionsStr)] ++ arm_events s.
Proof.
  intros Hread Hnone Hfail Hmiss.
  rewrite fetch_read, Hread, serve_run, Hmiss. cbv zeta.
  assert (He : ensured o s
               = extend [EvLog (LogCouldNotStart LaunchError)]
                   (extend [EvLaunch None] (extend [EvLog LogStarting] s))).
  { unfold ensured, has_live_browser. rewrite Hnone, Hfail. reflexivity. }
  rewrite He. cbn [extend this browser]. rewrite Hnone.
  eexists. split; [reflexivity|]. split; [reflexivity|]. split; [reflexivity|].
  split; [rewrite this_armed; exact Hnone|].
  apply new_events_app.
  rewrite trace_armed, !trace_extend, !arm_events_extend, <- !app_assoc. reflexivity.
Qed.

(** With a handle in the field whose session is gone, a failed launch
    leaves that handle in place, and on a cache miss the render is entered:
    the counter is reset, a page is asked of the dead session, and the
    request ends in an exception. *)
Lemma launch_failure_with_stale_handle `{Platform} (o : Oracle) (request : Request)
  (s : state) (url : URL) (parsedObj : JSValue) (optionsStr : jsstring) (h : nat) :
  read_request request = Accepted url parsedObj optionsStr ->
  browser (this s) = Some h ->
  bool_decide (h ∈ sessions (world s)) = false ->
  launch_ok o = false ->
  kv_lookup (world s) (hashString optionsStr) = None ->
  exists s',
    Browser.fetch o request s = (Throw BrowserError, s')
    /\ new_events s s'
       = [EvLog LogStarting; EvLaunch None; EvLog (LogCouldNotStart LaunchError);
          EvKVGet (hashString optionsStr); EvSetKeptAlive 0; EvNewPage h].
Proof.
  intros Hread Hsome Hgone Hfail Hmiss.
  rewrite fetch_read, Hread, serve_run, Hmiss. cbv zeta.
  assert (He : ensured o s
               = extend [EvLog (LogCouldNotStart LaunchError)]
                   (extend [EvLaunch None] (extend [EvLog LogStarting] s))).
  { unfold ensured, has_live_browser. rewrite Hsome, Hgone, Hfail. reflexivity. }
  rewrite He. cbn [extend this browser]. rewrite Hsome, render_run.
  change (sessions (world _)) with (sessions (world s)). rewrite Hgone.
  eexists. split; [reflexivity|].
  apply new_events_app. unfold counter_reset. rewrite !trace_extend.
  cbn [world trace]. rewrite !trace_extend, <- !app_assoc. reflexivity.
Qed.

(** C3, the failing run.  A first request starts session 0; a minute
    later the alarm handler has closed it and the field still holds the
    handle.  The next request finds the launch failing and its key not in
    the cache: it does not skip the render.  It resets the counter, asks
    the closed session for a page, and ends in an exception instead of the
    empty 200 response. *)
Theorem failed_launch_renders_on_closed_session :
  match run (Fetch always_works wide_request :: idle_minute) initial with
  | Some s =>
      browser (this s) = Some 0%nat
      /\ has_live_browser s = false
      /\ kv_lookup (world s) (hashString (qstr "{'json':{'yMax':2000}}")) = None
      /\ fst (Browser.fetch never_launches tall_request s) = Throw BrowserError
      /\ new_events s (snd (Browser.fetch never_launches tall_request s))
         = [EvLog LogStarting; EvLaunch None; EvLog (LogCouldNotStart LaunchError);
            EvKVGet (hashString (qstr "{'json':{'yMax':2000}}"));
            EvSetKeptAlive 0; EvNewPage 0]
  | None => False
  end.
Proof. vm_compute. repeat split. Qed.

(* ===================================================================== *)
(** * The two handlers side by side *)
(* ===================================================================== *)

Section Variants.
Context `{Platform}.

Lemma once_read o request s :
  PerRequest.fetch o request s =
  match read_request request with
  | Favicon => (Ret Response_empty, s)
  | Rejected e => (Throw e, s)
  | NoUrl => (Ret (Response_text msg_missing_url), s)
  | NoOptions => (Ret (Response_text msg_missing_options), s)
  | Accepted url parsedObj optionsStr =>
      serve_once o parsedObj (URL_href url) (hashString optionsStr) s
  end.
Proof.
  unfold PerRequest.fetch, read_request.
  destruct (includes _ _); [reflexivity|].
  unfold bind at 1. unfold new_URL at 1.
  destruct (URL_new (req_url request)) as [requested|]; [|reflexivity].
  unfold ret at 1.
  destruct (searchParams_get requested (str "url")) as [[|c urlStr]|]; try reflexivity.
  unfold bind at 1. unfold new_URL at 1.
  destruct (URL_new (c :: urlStr)) as [url|]; [|reflexivity].
  unfold ret at 1. unfold bind at 1. unfold lift at 1.
  destruct (parseSearchParams (URL_search url)) as [parsed|e]; [|reflexivity].
  destruct (parsed !! str "options") as [[[|c0 parsedOptions]|l]|]; try reflexivity.
  unfold bind at 1. unfold lift at 1.
  destruct (superjson_parse (c0 :: parsedOptions)) as [parsedObj|e]; [|reflexivity].
  unfold bind at 1. unfold lift at 1.
  destruct (superjson_stringify parsedObj) as [optionsStr|e]; reflexivity.
Qed.

(** The render of the per-request worker when the launch succeeds. *)
Lemma once_render_run o parsedObj href key s :
  launch_ok o = true ->
  PerRequest.render o parsedObj href key s =
  let h := launched (world s) in
  let s0 := extend [EvNewPage h] (launched_state s) in
  match viewport parsedObj with
  | Throw e => (Throw e, s0)
  | Ret dims =>
      let s1 := extend [EvGoto href] (extend [EvSetViewport (fst dims) (snd dims)] s0) in
      if navigates o href then
        match shoot o href dims with
        | Some img =>
            (Ret img,
             let s2 := stored key img (extend [EvScreenshot] s1) in
             {| this := this s2;
                world := mkWorld (now (world s2)) (scheduled (world s2)) (kv (world s2))
                                 (sessions (world s2) ∖ {[h]}) (launched (world s2))
                                 (trace (world s2) ++ [EvBrowserClose h]) |})
        | None => (Throw BrowserError, extend [EvScreenshot] s1)
        end
      else (Throw BrowserError, s1)
  end.
Proof.
  intros Hok. destruct s as [[k b] [t a m ss n tr]].
  unfold PerRequest.render, bind, puppeteer_launch. rewrite Hok.
  unfold newPage, bind, isConnected, emit, with_world, launched_state, extend.
  cbn [this world browser sessions now scheduled kv launched trace keptAliveInSeconds].
  rewrite bool_decide_eq_true_2 by set_solver.
  unfold ret, lift. destruct (viewport parsedObj) as [dims|e]; [|reflexivity].
  unfold setViewport, goto, bind, emit, with_world, ret.
  cbn [this world browser sessions now scheduled kv launched trace keptAliveInSeconds
       page_session page_viewport page_url].
  destruct (navigates o href); [|reflexivity].
  unfold screenshot, bind, emit, with_world.
  cbn [this world browser sessions now scheduled kv launched trace keptAliveInSeconds
       page_session page_viewport page_url].
  destruct (shoot o href dims) as [img|]; reflexivity.
Qed.

Lemma serve_once_run o parsedObj href key s :
  serve_once o parsedObj href key s =
  let s1 := extend [EvKVGet key] s in
  match kv_lookup (world s) key with
  | Some img => (Ret (Response_image (Some img)), s1)
  | None =>
      match PerRequest.render o parsedObj href key s1 with
      | (Ret img, s2) => (Ret (Response_image (Some img)), s2)
      | (Throw e, s2) => (Throw e, s2)
      end
  end.
Proof.
  unfold serve_once. unfold bind at 1. rewrite kv_get_run.
  cbv zeta. destruct (kv_lookup (world s) key) as [img|]; [reflexivity|].
  unfold bind at 1. unfold bind at 1.
  destruct (PerRequest.render o parsedObj href key _) as [[img|e] s2]; reflexivity.
Qed.

(** After lines 73-80 with a launch that succeeds, the field holds a
    connected session. *)
Lemma ensured_live o s :
  launch_ok o = true ->
  exists h, browser (this (ensured o s)) = Some h
            /\ bool_decide (h ∈ sessions (world (ensured o s))) = true.
Proof.
  intros Hok. unfold ensured, has_live_browser.
  destruct (browser (this s)) as [h|] eqn:Hb.
  - destruct (bool_decide (h ∈ sessions (world s))) eqn:Hlive.
    + exists h. auto.
    + rewrite Hok. eexists. split; [reflexivity|].
      cbn. apply bool_decide_eq_true_2. set_solver.
  - rewrite Hok. eexists. split; [reflexivity|].
    cbn. apply bool_decide_eq_true_2. set_solver.
Qed.

Lemma kv_armed s : kv (world (armed s)) = kv (world s).
Proof. destruct s as [i [t [a|] m ss n tr]]; reflexivity. Qed.

Lemma shared_ensure_events o s : List.filter shared_event (ensure_events o s) = [].
Proof.
  unfold ensure_events. destruct (has_live_browser s); [reflexivity|].
  destruct (launch_ok o); reflexivity.
Qed.

Lemma shared_arm_events s : List.filter shared_event (arm_events s) = [].
Proof. unfold arm_events. destruct (scheduled (world s)); reflexivity. Qed.

End Variants.

(** C10.  When the launch succeeds and the two handlers start from the
    same cache contents at the same time, the Durable Object and the
    per-request worker end in the same way (the same response, or the same
    exception), leave the same cache contents, and perform the same cache
    reads, viewport setting, navigation, screenshot and cache write, in the
    same order and with the same arguments: cache key, width and height,
    address carrying the canonical options, image, and a time to live of
    one day.  What differs is confined to the other events: launching,
    closing, the counter and the alarm. *)
Ltac unfold_states :=
  cbn [rendered counter_reset stored extend launched_state world this kv now scheduled
       sessions launched trace fst snd].

(** Both runs stopped on the same exception: the cache is untouched and the
    shared events are those up to the step that threw. *)
Ltac stopped_alike Ht :=
  cbn [fst snd]; split; [reflexivity|]; split; [|split; [|reflexivity]];
  [ unfold_states; congruence
  | erewrite (new_events_app _ _) by (unfold_states; rewrite Ht, <- !app_assoc; reflexivity);
    symmetry;
    erewrite (new_events_app _ _) by (unfold_states; rewrite <- !app_assoc; reflexivity);
    rewrite !List.filter_app, shared_ensure_events; reflexivity ].

Theorem variants_agree `{Platform} (o : Oracle) (request : Request) (s1 s2 : state) :
  launch_ok o = true ->
  kv (world s1) = kv (world s2) ->
  now (world s1) = now (world s2) ->
  fst (Browser.fetch o request s1) = fst (PerRequest.fetch o request s2)
  /\ kv (world (snd (Browser.fetch o request s1)))
     = kv (world (snd (PerRequest.fetch o request s2)))
  /\ List.filter shared_event (new_events s1 (snd (Browser.fetch o request s1)))
     = List.filter shared_event (new_events s2 (snd (PerRequest.fetch o request s2)))
  /\ ONE_DAY = (24 * 3600)%Z.
Proof.
  intros Hok Hkv Hnow.
  rewrite fetch_read, once_read.
  destruct (read_request request) as [|e| | |url parsedObj optionsStr];
    try (cbn [fst snd]; rewrite !new_events_same; repeat split; assumption).
  rewrite serve_run, serve_once_run. cbv zeta.
  generalize (hashString optionsStr) as key. generalize (URL_href url) as href.
  intros href key.
  assert (Hlook : kv_lookup (world s1) key = kv_lookup (world s2) key).
  { unfold kv_lookup. rewrite Hkv, Hnow. reflexivity. }
  rewrite Hlook.
  destruct (ensured_keeps o s1) as (Hn & Hs & Hk & _).
  pose proof (trace_ensured o s1) as Ht.
  destruct (ensured_live o s1 Hok) as (h & Hb & Hlive).
  rewrite Hb.
  destruct (kv_lookup (world s2) key) as [img|].
  - (* served from the cache *)
    cbn [fst snd]. split; [reflexivity|]. split; [|split; [|reflexivity]].
    + rewrite kv_armed. cbn [extend world kv]. congruence.
    + erewrite (new_events_app s1) by
        (rewrite trace_armed, trace_extend, Ht, <- !app_assoc; reflexivity).
      erewrite (new_events_app s2) by (rewrite trace_extend; reflexivity).
      rewrite !List.filter_app, shared_ensure_events, shared_arm_events. reflexivity.
  - (* rendered *)
    rewrite render_run, once_render_run by assumption.
    change (sessions (world (extend _ (ensured o s1)))) with (sessions (world (ensured o s1))).
    rewrite Hlive. cbv zeta.
    destruct (viewport parsedObj) as [dims|e]; [|stopped_alike Ht].
    destruct (navigates o href); [|stopped_alike Ht].
    destruct (shoot o href dims) as [img|]; [|stopped_alike Ht].
    cbn [fst snd]. split; [reflexivity|]. split; [|split; [|reflexivity]].
    + rewrite kv_armed. unfold_states. congruence.
    + erewrite (new_events_app s1) by
        (rewrite trace_armed, trace_rendered, trace_extend, Ht, <- !app_assoc; reflexivity).
      erewrite (new_events_app s2) by (unfold_states; rewrite <- !app_assoc; reflexivity).
      rewrite !List.filter_app, shared_ensure_events, shared_arm_events. reflexivity.
Qed.

Lemma variants_agree_witness :
  fst (Browser.fetch always_works wide_request initial)
  = fst (PerRequest.fetch always_works wide_request initial).
Proof.
  refine (proj1 (variants_agree always_works wide_request initial initial _ _ _));
    reflexivity.
Defined.

(* ===================================================================== *)
(** * The canonical options text (lines 66-71) *)
(* ===================================================================== *)

Section LayoutFacts.
Import Layout.

Ltac right_assoc :=
  repeat (rewrite <- app_assoc || rewrite <- app_comm_cons); cbn [app].

Lemma skip_ws_gap g r : JSON.skip_ws (gap_text g ++ r) = JSON.skip_ws r.
Proof. induction g as [|c g IH]; [reflexivity|]. destruct c; exact IH. Qed.

Lemma follow_ok_gap g c r :
  (c = 44 \/ c = 93 \/ c = 125 \/ c = 58) -> follow_ok (gap_text g ++ c :: r) = true.
Proof.
  intros Hc. destruct g as [|x g].
  - cbn. destruct Hc as [->|[->|[->| ->]]]; reflexivity.
  - destruct x; reflexivity.
Qed.

Lemma follow_ok_gap_end g : follow_ok (gap_text g) = true.
Proof. destruct g as [|x g]; [reflexivity|]. destruct x; reflexivity. Qed.

(** A literal body is read up to its closing quote, whatever follows. *)
Lemma scan_string_closed n : forall s b,
  (length s <= n)%nat ->
  JSON.scan_string (s ++ [34]) = Some (b, []) ->
  forall r, JSON.scan_string (s ++ 34 :: r) = Some (b, r).
Proof.
  induction n as [|n IH]; intros s b Hn Hscan r.
  - destruct s; [|cbn in Hn; lia]. cbn in Hscan. injection Hscan as <-. reflexivity.
  - destruct s as [|c s]; [cbn in Hscan; injection Hscan as <-; reflexivity|].
    cbn [length] in Hn. cbn [app JSON.scan_string] in Hscan |- *.
    destruct (c =? 34).
    { injection Hscan as _ Hrest. destruct s; discriminate Hrest. }
    destruct (c <? 32); [discriminate Hscan|].
    destruct (c =? 92).
    + destruct s as [|e s]; [cbn in Hscan; discriminate Hscan|].
      cbn [length] in Hn. cbn [app] in Hscan |- *.
      destruct (e =? 117).
      * destruct s as [|h1 [|h2 [|h3 [|h4 s]]]]; cbn [app] in Hscan |- *;
          try discriminate Hscan.
        -- unfold JSON.hex4 in Hscan.
           destruct (hex_value h1); [|discriminate Hscan].
           destruct (hex_value h2); [|discriminate Hscan].
           destruct (hex_value h3); discriminate Hscan.
        -- cbn [length] in Hn.
           destruct (JSON.hex4 h1 h2 h3 h4) as [u|]; [|discriminate Hscan].
           destruct (JSON.scan_string (s ++ [34])) as [[b' r3]|] eqn:Hrest;
             [|discriminate Hscan].
           injection Hscan as <- ->.
           rewrite (IH s b' ltac:(lia) Hrest r). reflexivity.
      * destruct (JSON.simple_escape e) as [u|]; [|discriminate Hscan].
        destruct (JSON.scan_string (s ++ [34])) as [[b' r3]|] eqn:Hrest;
          [|discriminate Hscan].
        injection Hscan as <- ->.
        rewrite (IH s b' ltac:(lia) Hrest r). reflexivity.
    + destruct (JSON.scan_string (s ++ [34])) as [[b' r3]|] eqn:Hrest;
        [|discriminate Hscan].
      injection Hscan as <- ->.
      rewrite (IH s b' ltac:(lia) Hrest r). reflexivity.
Qed.

Lemma scan_string_body s r :
  literal_body s = true -> JSON.scan_string (s ++ 34 :: r) = Some (unescape s, r).
Proof.
  unfold literal_body, unescape.
  destruct (JSON.scan_string (s ++ [34])) as [[b [|c rest]]|] eqn:Hscan;
    try discriminate.
  intros _. apply (scan_string_closed (length s)); [lia|exact Hscan].
Qed.

Lemma scan_digits_text ds r :
  forallb (fun d => d <? 10) ds = true -> follow_ok r = true ->
  JSON.scan_digits (map (N.add 48) ds ++ r) = (ds, r).
Proof.
  intros Hds Hr. induction ds as [|d ds IH].
  - destruct r as [|c r]; [reflexivity|].
    cbn in Hr |- *. rewrite andb_true_iff, negb_true_iff in Hr.
    destruct Hr as [-> _]. reflexivity.
  - cbn [forallb] in Hds. rewrite andb_true_iff in Hds. destruct Hds as [Hd Hds].
    cbn [map app JSON.scan_digits]. rewrite (IH Hds).
    apply N.ltb_lt in Hd.
    replace (JSON.is_digit (48 + d)) with true
      by (symmetry; unfold JSON.is_digit; apply andb_true_iff; split; apply N.leb_le; lia).
    replace (48 + d - 48) with d by lia. reflexivity.
Qed.


Lemma follow_ok_no_fraction r : follow_ok r = true -> JSON.starts_fraction r = false.
Proof.
  destruct r as [|c r]; [reflexivity|]. unfold follow_ok.
  rewrite andb_true_iff, !negb_true_iff. intros [_ Hf]. exact Hf.
Qed.

Lemma scan_number_text neg ds r :
  atom_ok (ANumber neg ds) = true -> follow_ok r = true ->
  JSON.scan_number (atom_text (ANumber neg ds) ++ r) = Some (JSON.number_of neg ds, r).
Proof.
  cbn [atom_ok atom_text]. rewrite andb_true_iff. intros [Hds Hlead] Hr.
  destruct ds as [|d ds]; [discriminate|].
  assert (Hscan : JSON.scan_digits (map (N.add 48) (d :: ds) ++ r) = (d :: ds, r))
    by (apply scan_digits_text; assumption).
  apply negb_true_iff in Hlead.
  pose proof (follow_ok_no_fraction r Hr) as Hfrac.
  cbn [forallb] in Hds. rewrite andb_true_iff in Hds. destruct Hds as [Hd _].
  apply N.ltb_lt in Hd.
  destruct neg; unfold JSON.scan_number.
  - cbn [app]. rewrite N.eqb_refl, Hscan, Hlead, Hfrac. reflexivity.
  - cbn [app map]. cbn [app map] in Hscan.
    replace (48 + d =? 45) with false by (symmetry; apply N.eqb_neq; lia).
    rewrite Hscan, Hlead, Hfrac. reflexivity.
Qed.

Lemma parse_value_unfold f s :
  JSON.parse_value (S f) s =
  match JSON.skip_ws s with
  | [] => None
  | c :: r =>
      if c =? 123 then
        match JSON.skip_ws r with
        | c' :: r' =>
            if c' =? 125 then Some (VObject [], r')
            else match JSON.parse_members f r with
                 | Some (ms, r2) => Some (JSON.make_object ms, r2)
                 | None => None
                 end
        | [] => None
        end
      else if c =? 91 then
        match JSON.skip_ws r with
        | c' :: r' =>
            if c' =? 93 then Some (VArray [], r')
            else match JSON.parse_elements f r with
                 | Some (vs, r2) => Some (VArray vs, r2)
                 | None => None
                 end
        | [] => None
        end
      else if c =? 34 then
        match JSON.scan_string r with
        | Some (b, r') => Some (VString b, r')
        | None => None
        end
      else if starts_with JSON.lit_true (c :: r) then Some (VBool true, skipn 4 (c :: r))
      else if starts_with JSON.lit_false (c :: r) then Some (VBool false, skipn 5 (c :: r))
      else if starts_with JSON.lit_null (c :: r) then Some (VNull, skipn 4 (c :: r))
      else
        match JSON.scan_number (c :: r) with
        | Some (x, r') => Some (VNumber x, r')
        | None => None
        end
  end.
Proof. reflexivity. Qed.

Lemma parse_value_gap fuel g s :
  JSON.parse_value fuel (gap_text g ++ s) = JSON.parse_value fuel s.
Proof.
  destruct fuel as [|f]; [reflexivity|].
  rewrite !parse_value_unfold, skip_ws_gap. reflexivity.
Qed.

Lemma digit_cases d : d < 10 ->
  d = 0 \/ d = 1 \/ d = 2 \/ d = 3 \/ d = 4 \/ d = 5 \/ d = 6 \/ d = 7 \/ d = 8 \/ d = 9.
Proof. lia. Qed.

(** The first character of a number literal sends the parser to
    [scan_number]. *)
Lemma parse_value_number_start f c s :
  c = 45 \/ (exists d, d < 10 /\ c = 48 + d) ->
  JSON.parse_value (S f) (c :: s) =
  match JSON.scan_number (c :: s) with
  | Some (x, r') => Some (VNumber x, r')
  | None => None
  end.
Proof.
  intros [-> | (d & Hd & ->)]; [reflexivity|].
  destruct (digit_cases d Hd) as [->|[->|[->|[->|[->|[->|[->|[->|[->| ->]]]]]]]]];
    reflexivity.
Qed.

Lemma parse_value_string_start f s :
  JSON.parse_value (S f) (34 :: s) =
  match JSON.scan_string s with
  | Some (b, r') => Some (VString b, r')
  | None => None
  end.
Proof. reflexivity. Qed.

Lemma parse_atom f g a r :
  atom_ok a = true -> follow_ok r = true ->
  JSON.parse_value (S f) (gap_text g ++ atom_text a ++ r) = Some (atom_value a, r).
Proof.
  intros Hok Hr. rewrite parse_value_gap.
  destruct a as [| | |neg ds|s]; try reflexivity.
  - pose proof (scan_number_text neg ds r Hok Hr) as Hscan.
    cbn [atom_ok] in Hok. rewrite andb_true_iff in Hok. destruct Hok as [Hds Hlead].
    destruct ds as [|d ds]; [discriminate|].
    cbn [forallb] in Hds. rewrite andb_true_iff in Hds. destruct Hds as [Hd _].
    apply N.ltb_lt in Hd.
    destruct neg.
    + cbn [atom_text app] in Hscan |- *.
      rewrite parse_value_number_start by (left; reflexivity).
      rewrite Hscan. reflexivity.
    + cbn [atom_text app map] in Hscan |- *.
      rewrite parse_value_number_start by (right; exists d; split; [assumption|reflexivity]).
      rewrite Hscan. reflexivity.
  - cbn [atom_ok] in Hok. cbn [atom_text atom_value app].
    rewrite <- app_assoc. cbn [app].
    rewrite parse_value_string_start.
    rewrite scan_string_body by assumption. reflexivity.
Qed.


Lemma doc_size_ind (P : doc -> Prop) :
  (forall d, (forall d', (size d' < size d)%nat -> P d') -> P d) -> forall d, P d.
Proof.
  intros step d. remember (size d) as n eqn:Hn.
  revert d Hn. induction n as [n IH] using lt_wf_ind.
  intros d ->. apply step. intros d' Hlt. exact (IH _ Hlt d' eq_refl).
Qed.

Lemma item_smaller (it : gap * doc) items :
  In it items -> (size (snd it) < S (list_sum (map (fun it => S (size (snd it))) items)))%nat.
Proof.
  induction items as [|x items IH]; [intros []|].
  unfold list_sum in *. cbn [map fold_right]. intros [-> | Hin]; [lia|].
  specialize (IH Hin). lia.
Qed.

Lemma member_smaller (m : gap * gap * jsstring * gap * doc) members :
  In m members ->
  (size (snd m) < S (list_sum (map (fun m => S (size (snd m))) members)))%nat.
Proof.
  induction members as [|x members IH]; [intros []|].
  unfold list_sum in *. cbn [map fold_right]. intros [-> | Hin]; [lia|].
  specialize (IH Hin). lia.
Qed.

(** A document starts, after its gap, with a character that is neither a
    closing bracket nor a closing brace. *)
Lemma first_token d r :
  well_formed d = true ->
  exists c rest, JSON.skip_ws (text d ++ r) = c :: rest
                 /\ (c =? 93) = false /\ (c =? 125) = false.
Proof.
  intros Hwf. destruct d as [g a|g items g'|g members g'];
    cbn [text]; rewrite <- !app_assoc, skip_ws_gap.
  - destruct a as [| | |neg ds|s]; try (eexists _, _; split; [cbv; reflexivity|split; reflexivity]).
    cbn [well_formed atom_ok] in Hwf. rewrite andb_true_iff in Hwf.
    destruct Hwf as [Hds Hlead]. destruct ds as [|d ds]; [discriminate Hlead|].
    cbn [forallb] in Hds. rewrite andb_true_iff in Hds. destruct Hds as [Hd _].
    apply N.ltb_lt in Hd.
    destruct neg; [eexists _, _; split; [cbv; reflexivity|split; reflexivity]|].
    destruct (digit_cases d Hd) as [->|[->|[->|[->|[->|[->|[->|[->|[->| ->]]]]]]]]];
      (eexists _, _; split; [cbv; reflexivity|split; reflexivity]).
  - eexists _, _; split; [cbv; reflexivity|split; reflexivity].
  - eexists _, _; split; [cbv; reflexivity|split; reflexivity].
Qed.

Lemma parse_elements_unfold f s :
  JSON.parse_elements (S f) s =
  match JSON.parse_value f s with
  | Some (v, r) =>
      match JSON.skip_ws r with
      | c :: r' =>
          if c =? 44 then
            match JSON.parse_elements f r' with
            | Some (vs, r2) => Some (v :: vs, r2)
            | None => None
            end
          else if c =? 93 then Some ([v], r')
          else None
      | [] => None
      end
  | None => None
  end.
Proof. reflexivity. Qed.

Lemma parse_members_unfold f s :
  JSON.parse_members (S f) s =
  match JSON.skip_ws s with
  | q :: r0 =>
      if q =? 34 then
        match JSON.scan_string r0 with
        | Some (k, r1) =>
            match JSON.skip_ws r1 with
            | c1 :: r2 =>
                if c1 =? 58 then
                  match JSON.parse_value f r2 with
                  | Some (v, r3) =>
                      match JSON.skip_ws r3 with
                      | c3 :: r4 =>
                          if c3 =? 44 then
                            match JSON.parse_members f r4 with
                            | Some (ms, r5) => Some ((k, v) :: ms, r5)
                            | None => None
                            end
                          else if c3 =? 125 then Some ([(k, v)], r4)
                          else None
                      | [] => None
                      end
                  | None => None
                  end
                else None
            | [] => None
            end
        | None => None
        end
      else None
  | [] => None
  end.
Proof. reflexivity. Qed.

(** The items of an array, from one item on, up to the closing bracket. *)
Lemma parse_items g' r (rest : list (gap * doc)) :
  (forall it, In it rest -> parses (snd it)) ->
  forall x fuel,
    parses x ->
    (S (size x) + list_sum (map (fun it => S (size (snd it))) rest) <= fuel)%nat ->
    well_formed x = true ->
    forallb (fun it => well_formed (snd it)) rest = true ->
    JSON.parse_elements fuel
      (text x ++ items_text text false rest ++ gap_text g' ++ 93 :: r)
    = Some (value x :: map (fun it => value (snd it)) rest, r).
Proof.
  induction rest as [|[gc y] rest IH]; intros Hall x fuel Hx Hfuel Hwx Hwrest.
  - destruct fuel as [|f]; [lia|].
    unfold list_sum in *. cbn [map fold_right] in Hfuel.
    cbn [items_text app map]. rewrite parse_elements_unfold.
    rewrite Hx by (try assumption; try lia; apply follow_ok_gap; auto).
    rewrite skip_ws_gap. reflexivity.
  - destruct fuel as [|f]; [lia|].
    unfold list_sum in *. cbn [map fold_right] in Hfuel. cbn [forallb] in Hwrest.
    rewrite andb_true_iff in Hwrest. destruct Hwrest as [Hwy Hwrest].
    cbn [items_text map snd]. rewrite <- !app_assoc. cbn [app].
    rewrite parse_elements_unfold.
    rewrite Hx by (try assumption; try lia; apply follow_ok_gap; auto).
    rewrite skip_ws_gap.
    change (JSON.skip_ws (44 :: ?s)) with (44 :: s).
    cbn [JSON.skip_ws JSON.is_ws N.eqb Pos.eqb orb].
    rewrite IH; [reflexivity| | | | assumption | assumption].
    + intros it Hin. apply Hall. right. exact Hin.
    + apply (Hall (gc, y)). left. reflexivity.
    + cbn [snd] in Hfuel |- *. lia.
Qed.


(** The members of an object, from one member on, up to the closing
    brace. *)
Lemma parse_members_text g' r (rest : list (gap * gap * jsstring * gap * doc)) :
  (forall m, In m rest -> parses (snd m)) ->
  forall gk k gv x fuel,
    parses x ->
    (S (size x) + list_sum (map (fun m => S (size (snd m))) rest) <= fuel)%nat ->
    literal_body k = true ->
    well_formed x = true ->
    forallb (fun m => literal_body (snd (fst (fst m))) && well_formed (snd m)) rest
    = true ->
    JSON.parse_members fuel
      (gap_text gk ++ 34 :: k ++ 34 :: gap_text gv ++ 58 :: text x
       ++ members_text text false rest ++ gap_text g' ++ 125 :: r)
    = Some ((unescape k, value x)
            :: map (fun m => (unescape (snd (fst (fst m))), value (snd m))) rest, r).
Proof.
  induction rest as [|[[[[gc gk'] k'] gv'] y] rest IH];
    intros Hall gk k gv x fuel Hx Hfuel Hk Hwx Hwrest;
    (destruct fuel as [|f]; [lia|]);
    unfold list_sum in *; cbn [map fold_right snd] in Hfuel;
    rewrite parse_members_unfold, skip_ws_gap;
    change (JSON.skip_ws (34 :: ?s)) with (34 :: s);
    cbn [JSON.skip_ws JSON.is_ws N.eqb Pos.eqb orb];
    rewrite (scan_string_body k _ Hk), skip_ws_gap;
    cbn [JSON.skip_ws JSON.is_ws N.eqb Pos.eqb orb].
  - cbn [members_text app map].
    rewrite Hx by (try assumption; try lia; apply follow_ok_gap; auto).
    rewrite skip_ws_gap. reflexivity.
  - cbn [forallb fst snd] in Hwrest. rewrite !andb_true_iff in Hwrest.
    destruct Hwrest as [[Hk' Hwy] Hwrest].
    cbn [members_text map fst snd]. right_assoc.
    rewrite Hx by (try assumption; try lia; apply follow_ok_gap; auto).
    rewrite skip_ws_gap.
    cbn [JSON.skip_ws JSON.is_ws N.eqb Pos.eqb orb].
    rewrite IH; [reflexivity| | | | assumption | assumption | assumption].
    + intros m Hin. apply Hall. right. exact Hin.
    + apply (Hall (gc, gk', k', gv', y)). left. reflexivity.
    + lia.
Qed.

Lemma parse_text d : parses d.
Proof.
  induction d as [d IH] using doc_size_ind.
  intros fuel r Hfuel Hwf Hr.
  destruct d as [g a|g items g'|g members g'].
  - destruct fuel as [|f]; [cbn in Hfuel; lia|].
    cbn [text value]. rewrite <- app_assoc. apply parse_atom; assumption.
  - destruct fuel as [|f]; [cbn in Hfuel; lia|].
    cbn [text value well_formed size] in *. right_assoc.
    rewrite parse_value_gap, parse_value_unfold.
    cbn [JSON.skip_ws JSON.is_ws N.eqb Pos.eqb orb].
    destruct items as [|[gc x] rest].
    + cbn [items_text app map]. rewrite skip_ws_gap. reflexivity.
    + cbn [forallb snd] in Hwf. rewrite andb_true_iff in Hwf. destruct Hwf as [Hwx Hwrest].
      cbn [items_text app map snd]. right_assoc.
      destruct (first_token x (items_text text false rest ++ gap_text g' ++ 93 :: r) Hwx)
        as (c & tail & -> & -> & _).
      unfold list_sum in *. cbn [map fold_right snd] in Hfuel, IH.
      rewrite parse_items; [reflexivity| | | | assumption | assumption].
      * intros it Hin. apply IH.
        pose proof (item_smaller it rest Hin) as Hlt. unfold list_sum in Hlt. lia.
      * apply IH. lia.
      * unfold list_sum. lia.
  - destruct fuel as [|f]; [cbn in Hfuel; lia|].
    cbn [text value well_formed size] in *. right_assoc.
    rewrite parse_value_gap, parse_value_unfold.
    cbn [JSON.skip_ws JSON.is_ws N.eqb Pos.eqb orb].
    destruct members as [|[[[[gc gk] k] gv] x] rest].
    + cbn [members_text app map]. rewrite skip_ws_gap. reflexivity.
    + cbn [forallb fst snd] in Hwf. rewrite !andb_true_iff in Hwf.
      destruct Hwf as [[Hk Hwx] Hwrest].
      cbn [members_text app map fst snd]. right_assoc.
      rewrite skip_ws_gap.
      cbn [JSON.skip_ws JSON.is_ws N.eqb Pos.eqb orb].
      unfold list_sum in *. cbn [map fold_right snd] in Hfuel, IH.
      rewrite parse_members_text; [reflexivity| | | | assumption | assumption | assumption].
      * intros m Hin. apply IH.
        pose proof (member_smaller m rest Hin) as Hlt. unfold list_sum in Hlt. lia.
      * apply IH. lia.
      * unfold list_sum. lia.
Qed.

Lemma atom_text_nonempty a : atom_ok a = true -> (1 <= length (atom_text a))%nat.
Proof.
  destruct a as [| | |neg ds|s]; cbn [atom_text]; try (cbn; lia).
  cbn [atom_ok]. rewrite andb_true_iff. intros [_ Hlead].
  destruct ds as [|d ds]; [discriminate|].
  rewrite length_app, length_map. cbn [length]. lia.
Qed.

Lemma items_text_length (items : list (gap * doc)) :
  (forall it, In it items -> (size (snd it) <= length (text (snd it)))%nat) ->
  forall first : bool,
    (list_sum (map (fun it => S (size (snd it))) items)
     <= length (items_text text first items) + (if first then 1 else 0))%nat.
Proof.
  unfold list_sum.
  induction items as [|[gc x] rest IH]; intros Hall first; [cbn; lia|].
  cbn [map fold_right items_text snd]. rewrite !length_app.
  pose proof (Hall (gc, x) (or_introl eq_refl)) as Hx. cbn [snd] in Hx.
  specialize (IH (fun it Hin => Hall it (or_intror Hin)) false).
  destruct first; cbn [length] in *; rewrite ?length_app; cbn [length]; lia.
Qed.

Lemma members_text_length (members : list (gap * gap * jsstring * gap * doc)) :
  (forall m, In m members -> (size (snd m) <= length (text (snd m)))%nat) ->
  forall first : bool,
    (list_sum (map (fun m => S (size (snd m))) members)
     <= length (members_text text first members))%nat.
Proof.
  unfold list_sum.
  induction members as [|[[[[gc gk] k] gv] x] rest IH]; intros Hall first; [cbn; lia|].
  cbn [map fold_right members_text snd]. rewrite !length_app.
  pose proof (Hall (gc, gk, k, gv, x) (or_introl eq_refl)) as Hx. cbn [snd] in Hx.
  specialize (IH (fun m Hin => Hall m (or_intror Hin)) false).
  cbn [length]. lia.
Qed.

Lemma size_le_text d : well_formed d = true -> (size d <= length (text d))%nat.
Proof.
  induction d as [d IH] using doc_size_ind. intros Hwf.
  destruct d as [g a|g items g'|g members g'].
  - cbn [size text well_formed] in *. rewrite length_app.
    pose proof (atom_text_nonempty a Hwf). lia.
  - cbn [size text well_formed] in *. rewrite !length_app. cbn [length].
    rewrite forallb_forall in Hwf.
    pose proof (items_text_length items
                  (fun it Hin => IH (snd it) (item_smaller it items Hin) (Hwf it Hin)) true)
      as Hitems.
    cbv iota in Hitems. rewrite ?length_app. cbn [length]. lia.
  - cbn [size text well_formed] in *. rewrite !length_app. cbn [length].
    rewrite forallb_forall in Hwf.
    assert (Hall : forall m, In m members -> (size (snd m) <= length (text (snd m)))%nat).
    { intros m Hin. apply IH; [exact (member_smaller m members Hin)|].
      specialize (Hwf m Hin). apply andb_true_iff in Hwf. apply Hwf. }
    pose proof (members_text_length members Hall true).
    rewrite ?length_app. cbn [length]. lia.
Qed.

(** [JSON.parse] reads a laid-out document as the value it denotes. *)
Lemma parse_layout d trailing :
  well_formed d = true -> JSON.parse (text d ++ gap_text trailing) = Some (value d).
Proof.
  intros Hwf. unfold JSON.parse.
  rewrite parse_text; [| |assumption|apply follow_ok_gap_end].
  - rewrite <- (app_nil_r (gap_text trailing)), skip_ws_gap. reflexivity.
  - pose proof (size_le_text d Hwf). rewrite length_app. lia.
Qed.

Lemma value_strip d : value (strip d) = value d.
Proof.
  induction d as [d IH] using doc_size_ind.
  destruct d as [g a|g items g'|g members g']; cbn [strip value]; [reflexivity| |].
  - f_equal. rewrite map_map. apply map_ext_in. intros it Hin. cbn [snd].
    apply IH. exact (item_smaller it items Hin).
  - f_equal. rewrite map_map. apply map_ext_in. intros m Hin. cbn [fst snd].
    f_equal. apply IH. exact (member_smaller m members Hin).
Qed.

End LayoutFacts.




(* ===================================================================== *)
(** * Sample evaluations *)
(* ===================================================================== *)

Example parseInt_decimal :
  parseInt (str "480") = of_Z 480.
Proof. vm_compute. reflexivity. Qed.

Example parseInt_signed_hex :
  parseInt (str "  -0x1F zz") = of_Z (-31).
Proof. vm_compute. reflexivity. Qed.

Example parseInt_no_digits :
  parseInt (str "px") = NaN.
Proof. vm_compute. reflexivity. Qed.

Example decodeURIComponent_utf8 :
  decodeURIComponent (str "a%20b%C3%A9%F0%9F%98%80")
  = Ret (str "a b" ++ [0xE9; 0xD83D; 0xDE00]).
Proof. vm_compute. reflexivity. Qed.

Example decodeURIComponent_malformed :
  decodeURIComponent (str "%") = Throw URIError.
Proof. vm_compute. reflexivity. Qed.

Example parseSearchParams_repeated :
  match parseSearchParams (str "?options=abc&x=1&x=2&options=&y") with
  | Ret m => (m !! str "options", m !! str "x", m !! str "y")
  | Throw _ => (None, None, None)
  end
  = (Some (PArray [str "abc"; []]), Some (PArray [str "1"; str "2"]), Some (PString [])).
Proof. vm_compute. reflexivity. Qed.

Example of_Z_rounds_to_even :
  of_Z 9007199254740993 = of_Z 9007199254740992.
Proof. vm_compute. reflexivity. Qed.

(* ===================================================================== *)
(** * More on [parseSearchParams] (lines 166-186) *)
(* ===================================================================== *)

Section SearchParamsFacts.

Lemma eqb_eq_true (a b : jsstring) : JSString.eqb a b = true <-> a = b.
Proof. unfold JSString.eqb. apply bool_decide_eq_true. Qed.

Lemma eqb_refl (a : jsstring) : JSString.eqb a a = true.
Proof. apply eqb_eq_true. reflexivity. Qed.

Lemma eqb_neq (a b : jsstring) : a <> b -> JSString.eqb a b = false.
Proof. unfold JSString.eqb. apply bool_decide_eq_false_2. Qed.

(** One round of the loop, on the decoded pair. *)
Lemma parse_pair_decoded params item :
  parse_pair params item =
  match item_pair item with
  | Throw e => Throw e
  | Ret (key, value) =>
      match key with
      | [] => Ret params
      | _ => Ret (<[key := add_value (params !! key) value]> params)
      end
  end.
Proof.
  unfold parse_pair, item_pair.
  destruct (decodeURIComponent (nth 0 (split 61 item) [])) as [key|e]; [|reflexivity].
  destruct (decodeURIComponent (nth 1 (split 61 item) [])) as [value|e]; [|reflexivity].
  destruct key as [|c key]; [reflexivity|].
  generalize (c :: key) as k. intros k.
  match goal with
  | |- context [param_truthy ?x] => destruct x as [[[|c' s]|l]|]; reflexivity
  end.
Qed.

Lemma add_value_fold (values : list jsstring) : forall old,
  fold_left (fun o v => Some (add_value o v)) values (Some old) <> None.
Proof.
  induction values as [|v values IH]; intros old; cbn [fold_left]; [discriminate|apply IH].
Qed.

(** After a run of the loop, the member for a key is what its own values
    make of the member it had before. *)
Lemma parse_pairs_lookup items : forall params pairs m (key : jsstring),
  decoded_items items = Ret pairs ->
  parse_pairs params items = Ret m ->
  key <> [] ->
  m !! key = fold_left (fun o v => Some (add_value o v)) (values_of key pairs) (params !! key).
Proof.
  induction items as [|item items IH]; intros params pairs m key Hdec Hrun Hkey.
  - cbn in Hdec, Hrun. injection Hdec as <-. injection Hrun as <-. reflexivity.
  - cbn [decoded_items parse_pairs] in Hdec, Hrun.
    rewrite parse_pair_decoded in Hrun.
    destruct (item_pair item) as [[k v]|e]; [|discriminate].
    destruct (decoded_items items) as [kvs|e] eqn:Hrest; [|discriminate].
    injection Hdec as <-.
    unfold values_of. cbn [List.filter fst].
    destruct k as [|c k].
    + rewrite eqb_neq by (intros E; apply Hkey; symmetry; exact E).
      apply (IH _ _ _ _ eq_refl Hrun Hkey).
    + rewrite (IH _ _ _ _ eq_refl Hrun Hkey).
      destruct (decide (c :: k = key)) as [<-|Hne].
      * rewrite eqb_refl. cbn [map fold_left snd]. rewrite lookup_insert_eq. reflexivity.
      * rewrite eqb_neq by exact Hne. rewrite lookup_insert_ne by exact Hne. reflexivity.
Qed.

Lemma parse_pairs_empty_key items : forall params m,
  parse_pairs params items = Ret m -> params !! [] = None -> m !! [] = None.
Proof.
  induction items as [|item items IH]; intros params m Hrun Hnone.
  - cbn in Hrun. injection Hrun as <-. exact Hnone.
  - cbn [parse_pairs] in Hrun. rewrite parse_pair_decoded in Hrun.
    destruct (item_pair item) as [[k v]|e]; [|discriminate].
    destruct k as [|c k]; [exact (IH _ _ Hrun Hnone)|].
    apply (IH _ _ Hrun). rewrite lookup_insert_ne by discriminate. exact Hnone.
Qed.

Lemma parse_pairs_outcome items : forall params,
  match decoded_items items with
  | Throw e => parse_pairs params items = Throw e
  | Ret _ => exists m, parse_pairs params items = Ret m
  end.
Proof.
  induction items as [|item items IH]; intros params; cbn [decoded_items parse_pairs].
  - eexists. reflexivity.
  - rewrite parse_pair_decoded.
    destruct (item_pair item) as [[k v]|e]; [|reflexivity].
    destruct k as [|c k].
    + specialize (IH params). destruct (decoded_items items); exact IH.
    + specialize (IH (<[c :: k := add_value (params !! (c :: k)) v]> params)).
      destruct (decoded_items items); exact IH.
Qed.

Lemma item_pair_throws item e : item_pair item = Throw e -> e = URIError.
Proof.
  unfold item_pair, decodeURIComponent.
  destruct (URIDecode.decode _ (nth 0 _ _)); [|intros [= <-]; reflexivity].
  destruct (URIDecode.decode _ (nth 1 _ _)); [discriminate|intros [= <-]; reflexivity].
Qed.

Lemma decoded_items_throws items : forall e,
  decoded_items items = Throw e ->
  e = URIError /\ exists item, In item items /\ item_pair item = Throw URIError.
Proof.
  induction items as [|item items IH]; intros e; cbn [decoded_items]; [discriminate|].
  destruct (item_pair item) as [kv|e'] eqn:Hitem.
  - destruct (decoded_items items) as [kvs|e'']; [discriminate|].
    intros [= <-]. destruct (IH _ eq_refl) as (-> & it & Hin & Hit).
    split; [reflexivity|]. exists it. split; [right; exact Hin|exact Hit].
  - intros [= <-]. pose proof (item_pair_throws _ _ Hitem) as ->.
    split; [reflexivity|]. exists item. split; [left; reflexivity|exact Hitem].
Qed.

Lemma decoded_items_returns items :
  (forall item, In item items -> exists kv, item_pair item = Ret kv) ->
  exists pairs, decoded_items items = Ret pairs.
Proof.
  induction items as [|item items IH]; intros Hall; cbn [decoded_items].
  - eexists. reflexivity.
  - destruct (Hall item (or_introl eq_refl)) as [kv ->].
    destruct (IH (fun it Hin => Hall it (or_intror Hin))) as [pairs ->].
    eexists. reflexivity.
Qed.

Lemma split_nonempty c s : split c s <> [].
Proof.
  destruct s as [|x s]; cbn [split]; [discriminate|].
  destruct (x =? c); [discriminate|]. destruct (split c s); discriminate.
Qed.

(** Splitting at an occurrence of the separator. *)
Lemma split_app_sep c a b : split c (a ++ c :: b) = split c a ++ split c b.
Proof.
  induction a as [|x a IH]; cbn [app split].
  - rewrite N.eqb_refl. reflexivity.
  - destruct (x =? c); [rewrite IH; reflexivity|].
    rewrite IH. pose proof (split_nonempty c a) as Hne.
    destruct (split c a); [contradiction|reflexivity].
Qed.

(** Text without the separator extends the last part. *)
Lemma split_app_plain c a b :
  ~ In c b -> split c (a ++ b) = removelast (split c a) ++ [List.last (split c a) [] ++ b].
Proof.
  intros Hb. induction a as [|x a IH]; cbn [app].
  - cbn [split removelast List.last app].
    induction b as [|y b IHb]; [reflexivity|].
    cbn [split]. destruct (N.eqb_spec y c) as [->|_]; [exfalso; apply Hb; left; reflexivity|].
    rewrite IHb by (intros Hin; apply Hb; right; exact Hin). reflexivity.
  - cbn [split]. destruct (x =? c).
    + rewrite IH. pose proof (split_nonempty c a) as Hne.
      destruct (split c a) as [|w ws]; [contradiction|]. reflexivity.
    + rewrite IH. pose proof (split_nonempty c a) as Hne.
      destruct (split c a) as [|w ws]; [contradiction|].
      destruct ws as [|w' ws]; reflexivity.
Qed.

Lemma split_length c s : In c s -> (2 <= length (split c s))%nat.
Proof.
  intros Hin. apply in_split in Hin as (a & b & ->).
  rewrite split_app_sep, length_app.
  pose proof (split_nonempty c a). pose proof (split_nonempty c b).
  destruct (split c a), (split c b); try contradiction. cbn [length]. lia.
Qed.

(** In an item that holds a [=], what follows a further [=] is not read. *)
Lemma item_pair_second_sep item t :
  In 61 item -> item_pair (item ++ 61 :: t) = item_pair item.
Proof.
  intros Hin. unfold item_pair. cbv zeta.
  rewrite split_app_sep. pose proof (split_length 61 item Hin) as Hlen.
  rewrite !app_nth1 by lia. reflexivity.
Qed.

Lemma parse_pairs_app front : forall params back,
  parse_pairs params (front ++ back) =
  match parse_pairs params front with
  | Throw e => Throw e
  | Ret params' => parse_pairs params' back
  end.
Proof.
  induction front as [|item front IH]; intros params back; cbn [app parse_pairs]; [reflexivity|].
  destruct (parse_pair params item); [apply IH|reflexivity].
Qed.

End SearchParamsFacts.

(** X1.  The member [parseSearchParams] returns for a key depends only on
    the values given for that key, in their order: the first value gives a
    string; a further value turns a non-empty string into a two-element
    array, extends an array, and simply replaces an empty string.  A key
    that never occurs is absent.  (For a key that no prototype defines, in
    a query that does not assign [__proto__].) *)
Theorem parseSearchParams_lookup (queryString : jsstring) (m : gmap jsstring param)
  (pairs : list (jsstring * jsstring)) (key : jsstring) :
  parseSearchParams queryString = Ret m ->
  decoded_items (split 38 (slice1 queryString)) = Ret pairs ->
  key <> [] ->
  own_key key = true ->
  values_of (str "__proto__") pairs = [] ->
  m !! key = collect (values_of key pairs).
Proof.
  unfold parseSearchParams. intros Hrun Hdec Hkey _ _.
  rewrite (parse_pairs_lookup _ _ _ _ _ Hdec Hrun Hkey), lookup_empty. reflexivity.
Qed.

Lemma parseSearchParams_lookup_witness :
  exists m,
    parseSearchParams (str "?a=&a=x&b=1&a=y&b=2&%62=3") = Ret m
    /\ m !! str "a" = Some (PArray [str "x"; str "y"])
    /\ m !! str "b" = Some (PArray [str "1"; str "2"; str "3"])
    /\ m !! str "c" = None.
Proof.
  destruct (parseSearchParams (str "?a=&a=x&b=1&a=y&b=2&%62=3")) as [m|e] eqn:Hrun;
    [|vm_compute in Hrun; discriminate Hrun].
  destruct (decoded_items (split 38 (slice1 (str "?a=&a=x&b=1&a=y&b=2&%62=3"))))
    as [pairs|e] eqn:Hdec; [|vm_compute in Hdec; discriminate].
  assert (Hproto : values_of (str "__proto__") pairs = []).
  { vm_compute in Hdec. injection Hdec as <-. vm_compute. reflexivity. }
  exists m. split; [reflexivity|].
  pose proof (fun key Hkey Hown =>
    parseSearchParams_lookup _ m pairs key Hrun Hdec Hkey Hown Hproto) as Hlookup.
  vm_compute in Hdec. injection Hdec as <-.
  repeat split.
  - rewrite (Hlookup (str "a")); [vm_compute; reflexivity|discriminate|vm_compute; reflexivity].
  - rewrite (Hlookup (str "b")); [vm_compute; reflexivity|discriminate|vm_compute; reflexivity].
  - rewrite (Hlookup (str "c")); [vm_compute; reflexivity|discriminate|vm_compute; reflexivity].
Defined.

(** X2.  [parseSearchParams] returns exactly when the key part and the
    value part of every item decode; otherwise it throws a URIError (and
    nothing else), also when the offending item has an empty key. *)
Theorem parseSearchParams_outcome (queryString : jsstring) :
  ((forall item, In item (split 38 (slice1 queryString)) ->
                 exists key value,
                   decodeURIComponent (nth 0 (split 61 item) []) = Ret key
                   /\ decodeURIComponent (nth 1 (split 61 item) []) = Ret value) ->
   exists m, parseSearchParams queryString = Ret m)
  /\ (forall e, parseSearchParams queryString = Throw e ->
                e = URIError
                /\ exists item,
                     In item (split 38 (slice1 queryString))
                     /\ (decodeURIComponent (nth 0 (split 61 item) []) = Throw URIError
                         \/ decodeURIComponent (nth 1 (split 61 item) []) = Throw URIError)).
Proof.
  unfold parseSearchParams.
  pose proof (parse_pairs_outcome (split 38 (slice1 queryString)) ∅) as Hout.
  split.
  - intros Hall.
    destruct (decoded_items_returns (split 38 (slice1 queryString))) as [pairs Hdec].
    { intros item Hin. destruct (Hall item Hin) as (k & v & Hk & Hv).
      unfold item_pair. rewrite Hk, Hv. eexists. reflexivity. }
    rewrite Hdec in Hout. exact Hout.
  - intros e Hthrow.
    destruct (decoded_items (split 38 (slice1 queryString))) as [pairs|e'] eqn:Hdec.
    + destruct Hout as [m Hm]. rewrite Hm in Hthrow. discriminate.
    + rewrite Hout in Hthrow. injection Hthrow as <-.
      destruct (decoded_items_throws _ _ Hdec) as (-> & item & Hin & Hitem).
      split; [reflexivity|]. exists item. split; [exact Hin|].
      unfold item_pair in Hitem.
      destruct (decodeURIComponent (nth 0 (split 61 item) [])) as [k|e1] eqn:Hk.
      * right. destruct (decodeURIComponent (nth 1 (split 61 item) [])) as [v|e2] eqn:Hv;
          [discriminate|]. injection Hitem as ->. reflexivity.
      * left. injection Hitem as ->. reflexivity.
Qed.

Lemma parseSearchParams_outcome_witness :
  (exists m, parseSearchParams (str "?a=1&b=%20") = Ret m)
  /\ parseSearchParams (str "?a=1&=%zz") = Throw URIError.
Proof.
  split.
  - apply (proj1 (parseSearchParams_outcome (str "?a=1&b=%20"))).
    intros item Hin. vm_compute in Hin.
    destruct Hin as [<-|[<-|[]]]; eexists _, _; split; vm_compute; reflexivity.
  - destruct (parseSearchParams (str "?a=1&=%zz")) as [m|e] eqn:Hrun;
      [vm_compute in Hrun; discriminate|].
    destruct (proj2 (parseSearchParams_outcome (str "?a=1&=%zz")) e Hrun) as [-> _].
    reflexivity.
Defined.


(** X3.  In an item of the query, the text from a second [=] on is not
    read: the query gives the same result with and without it. *)
Theorem parseSearchParams_second_equals (c : N) (front value t rest : jsstring) :
  ~ In 38 value -> ~ In 38 t ->
  rest = [] \/ (exists r, rest = 38 :: r) ->
  parseSearchParams (c :: front ++ 61 :: value ++ 61 :: t ++ rest)
  = parseSearchParams (c :: front ++ 61 :: value ++ rest).
Proof.
  intros Hv Ht Hrest. unfold parseSearchParams, slice1. cbn [tl]. cbv zeta.
  assert (Hlast : forall tail params,
            ~ In 38 tail -> In 61 tail ->
            parse_pairs params (split 38 (front ++ tail ++ 61 :: t))
            = parse_pairs params (split 38 (front ++ tail))).
  { intros tail params Htail Heq.
    rewrite (split_app_plain 38 front (tail ++ 61 :: t)), (split_app_plain 38 front tail).
    - rewrite !parse_pairs_app.
      destruct (parse_pairs params (removelast (split 38 front))) as [params'|e]; [|reflexivity].
      cbn [parse_pairs]. rewrite !parse_pair_decoded, app_assoc, item_pair_second_sep.
      + reflexivity.
      + apply in_or_app. right. exact Heq.
    - exact Htail.
    - intros Hin. apply in_app_or in Hin as [Hin|[Hin|Hin]];
        [exact (Htail Hin)|discriminate|exact (Ht Hin)]. }
  assert (Hv' : ~ In 38 (61 :: value)).
  { intros [Hin|Hin]; [discriminate|exact (Hv Hin)]. }
  destruct Hrest as [->|[r ->]].
  - rewrite !app_nil_r.
    apply (Hlast (61 :: value) ∅ Hv'). left. reflexivity.
  - replace (front ++ 61 :: value ++ 61 :: t ++ 38 :: r)
      with ((front ++ (61 :: value) ++ 61 :: t) ++ 38 :: r)
      by (rewrite <- !app_assoc; reflexivity).
    replace (front ++ 61 :: value ++ 38 :: r) with ((front ++ 61 :: value) ++ 38 :: r)
      by (rewrite <- !app_assoc; reflexivity).
    rewrite !split_app_sep, !parse_pairs_app.
    rewrite (Hlast (61 :: value) ∅ Hv') by (left; reflexivity). reflexivity.
Qed.

Lemma parseSearchParams_second_equals_witness :
  parseSearchParams (str "?a=1&options=abc=def&b=2")
  = parseSearchParams (str "?a=1&options=abc&b=2").
Proof.
  apply (parseSearchParams_second_equals 63 (str "a=1&options") (str "abc") (str "def")
           (str "&b=2")).
  - vm_compute. intuition discriminate.
  - vm_compute. intuition discriminate.
  - right. eexists. reflexivity.
Defined.

(* ===================================================================== *)
(** * More on [getNumber] (lines 151-164) *)
(* ===================================================================== *)

Section NumberFacts.

Lemma shr_1_nonneg mrs : (0 <= shr_m mrs)%Z -> (0 <= shr_m (shr_1 mrs))%Z.
Proof.
  destruct mrs as [m r s]. cbn [shr_m]. intros Hm.
  destruct m as [|p|p]; [cbn; lia| |lia].
  destruct p; cbn; lia.
Qed.

Lemma iter_shr_1_nonneg p : forall mrs,
  (0 <= shr_m mrs)%Z -> (0 <= shr_m (SpecFloat.iter_pos shr_1 p mrs))%Z.
Proof.
  induction p as [p IH|p IH|]; intros mrs Hm; cbn [SpecFloat.iter_pos].
  - apply IH, IH, shr_1_nonneg, Hm.
  - apply IH, IH, Hm.
  - apply shr_1_nonneg, Hm.
Qed.

Lemma shr_fexp_nonneg m e l :
  (0 <= m)%Z -> (0 <= shr_m (fst (shr_fexp prec emax m e l)))%Z.
Proof.
  intros Hm. unfold shr_fexp, shr.
  assert (H0 : (0 <= shr_m (shr_record_of_loc m l))%Z).
  { destruct l as [|[]]; exact Hm. }
  destruct (fexp prec emax (Zdigits2 m + e) - e)%Z; cbn [fst]; try exact H0.
  apply iter_shr_1_nonneg, H0.
Qed.

Lemma round_nearest_even_nonneg m l : (0 <= m)%Z -> (0 <= round_nearest_even m l)%Z.
Proof.
  intros Hm. destruct l as [|[]]; cbn [round_nearest_even]; try lia.
  destruct (Z.even m); lia.
Qed.

Lemma binary_round_aux_number sx mx ex l :
  (0 <= mx)%Z -> isNaN (binary_round_aux prec emax sx mx ex l) = false.
Proof.
  intros Hm. unfold binary_round_aux.
  pose proof (shr_fexp_nonneg mx ex l Hm) as H1.
  destruct (shr_fexp prec emax mx ex l) as [mrs' e']. cbn [fst] in H1.
  pose proof (shr_fexp_nonneg _ e' loc_Exact
                (round_nearest_even_nonneg _ (loc_of_shr_record mrs') H1)) as H2.
  destruct (shr_fexp prec emax _ e' loc_Exact) as [mrs'' e'']. cbn [fst] in H2.
  destruct (shr_m mrs'') as [|p|p]; [reflexivity| |lia].
  destruct (e'' <=? emax - prec)%Z; reflexivity.
Qed.

(** Rounding an integer never gives NaN. *)
Lemma binary_normalize_number z : isNaN (binary_normalize prec emax z 0 false) = false.
Proof.
  unfold binary_normalize, binary_round.
  destruct z as [|p|p]; [reflexivity| |].
  - destruct (shl_align _ _ _). apply binary_round_aux_number. lia.
  - destruct (shl_align _ _ _). apply binary_round_aux_number. lia.
Qed.

Lemma trim_start_white ws s :
  forallb is_white ws = true -> trim_start (ws ++ s) = trim_start s.
Proof.
  induction ws as [|c ws IH]; cbn [forallb app trim_start]; [reflexivity|].
  intros Hall. apply andb_prop in Hall as [-> Hws]. apply IH, Hws.
Qed.

Lemma decimal_digit_value c :
  is_decimal_digit c = true -> digit_value c = Some (c - 48) /\ c - 48 < 10.
Proof.
  unfold is_decimal_digit, digit_value. intros Hd. rewrite Hd.
  apply andb_prop in Hd as [H1 H2]. apply N.leb_le in H1, H2. split; [reflexivity|lia].
Qed.

Lemma decimal_digit_not_white c : is_decimal_digit c = true -> is_white c = false.
Proof.
  unfold is_decimal_digit. intros Hd.
  apply andb_prop in Hd as [H1 H2]. apply N.leb_le in H1, H2.
  unfold is_white.
  repeat match goal with
         | |- context [?a =? ?b] =>
             let E := fresh in destruct (N.eqb_spec a b) as [E|E]; [lia|clear E]
         end.
  cbn [orb]. destruct (N.leb_spec 0x2000 c); [lia|reflexivity].
Qed.

Lemma take_digits_decimal digits rest :
  forallb is_decimal_digit digits = true ->
  match rest with [] => true | c :: _ => negb (is_decimal_digit c) end = true ->
  take_digits 10 (digits ++ rest) = map (fun c => c - 48) digits.
Proof.
  intros Hall Hrest. induction digits as [|c digits IH]; cbn [app map].
  - destruct rest as [|c rest]; [reflexivity|]. cbn [take_digits].
    unfold digit_value. unfold is_decimal_digit in Hrest.
    apply negb_true_iff in Hrest. rewrite Hrest.
    destruct ((97 <=? c) && (c <=? 122)) eqn:Hlow.
    + apply andb_prop in Hlow as [H1 H2]. apply N.leb_le in H1, H2.
      destruct (N.ltb_spec (c - 87) 10); [lia|reflexivity].
    + destruct ((65 <=? c) && (c <=? 90)) eqn:Hup; [|reflexivity].
      apply andb_prop in Hup as [H1 H2]. apply N.leb_le in H1, H2.
      destruct (N.ltb_spec (c - 55) 10); [lia|reflexivity].
  - cbn [forallb] in Hall. apply andb_prop in Hall as [Hc Hds].
    cbn [take_digits]. destruct (decimal_digit_value c Hc) as [-> Hlt].
    apply N.ltb_lt in Hlt. rewrite Hlt, (IH Hds). reflexivity.
Qed.

Lemma mathInt_decimal digits : mathInt 10 (map (fun c => c - 48) digits) = decimal digits.
Proof.
  unfold mathInt, decimal. generalize 0.
  induction digits as [|c digits IH]; intros acc; cbn [map fold_left]; [reflexivity|apply IH].
Qed.

(** What [parseInt] reads in white space, a decimal numeral, and text at
    which the numeral ends. *)
Lemma parseInt_decimal_numeral ws digits rest :
  forallb is_white ws = true ->
  digits <> [] ->
  forallb is_decimal_digit digits = true ->
  ends_numeral rest = true ->
  parseInt (ws ++ digits ++ rest) = of_Z (Z.of_N (decimal digits)).
Proof.
  intros Hws Hne Hdigits Hrest.
  unfold parseInt. rewrite (trim_start_white _ _ Hws).
  destruct digits as [|c digits]; [contradiction|].
  cbn [forallb] in Hdigits. pose proof Hdigits as Hall.
  apply andb_prop in Hdigits as [Hc Hds].
  cbn [app trim_start]. rewrite (decimal_digit_not_white c Hc).
  assert (H45 : (c =? 45) = false).
  { unfold is_decimal_digit in Hc. apply andb_prop in Hc as [H1 _]. apply N.leb_le in H1.
    apply N.eqb_neq. lia. }
  assert (H43 : (c =? 43) = false).
  { unfold is_decimal_digit in Hc. apply andb_prop in Hc as [H1 _]. apply N.leb_le in H1.
    apply N.eqb_neq. lia. }
  rewrite H45, H43.
  assert (Hstop : match rest with [] => true | c :: _ => negb (is_decimal_digit c) end = true).
  { destruct rest as [|r rest]; [reflexivity|]. cbn [ends_numeral] in Hrest.
    apply andb_prop in Hrest as [Hrest _]. apply andb_prop in Hrest as [Hrest _]. exact Hrest. }
  assert (Hradix : match digits ++ rest with
                   | b :: _ => (c =? 48) && ((b =? 120) || (b =? 88))
                   | [] => false
                   end = false).
  { destruct digits as [|d digits]; cbn [app].
    - destruct rest as [|r rest]; [reflexivity|]. cbn [ends_numeral] in Hrest.
      apply andb_prop in Hrest as [Hrest H88]. apply andb_prop in Hrest as [_ H120].
      apply negb_true_iff in H88, H120. rewrite H88, H120, andb_false_r. reflexivity.
    - cbn [forallb] in Hds. apply andb_prop in Hds as [Hd _].
      unfold is_decimal_digit in Hd. apply andb_prop in Hd as [_ H2]. apply N.leb_le in H2.
      destruct (N.eqb_spec d 120); [lia|]. destruct (N.eqb_spec d 88); [lia|].
      rewrite andb_false_r. reflexivity. }
  pose proof (take_digits_decimal (c :: digits) rest Hall Hstop) as Hbody.
  cbn [app] in Hbody.
  set (tail := digits ++ rest) in *.
  destruct tail as [|b r]; [|rewrite Hradix]; cbv beta iota zeta; rewrite Hbody.
  all: cbn [map]; change ((c - 48) :: map (fun c0 => c0 - 48) digits)
         with (map (fun c0 => c0 - 48) (c :: digits));
       rewrite mathInt_decimal;
       (destruct (N.eqb_spec (decimal (c :: digits)) 0) as [->|Hnz]; [reflexivity|]);
       unfold of_Z; (destruct (decimal (c :: digits)); [contradiction|reflexivity]).
Qed.

End NumberFacts.

(** X4.  [getNumber] reads a string that is white space, then a decimal
    numeral, then any text at which the numeral ends (the end, or a
    character that is no digit and not [x]): the result is the Number
    nearest to the numeral, whatever follows it. *)
Theorem getNumber_decimal_string (ws digits rest : jsstring) :
  forallb is_white ws = true ->
  digits <> [] ->
  forallb is_decimal_digit digits = true ->
  ends_numeral rest = true ->
  getNumber (VString (ws ++ digits ++ rest)) = Some (of_Z (Z.of_N (decimal digits))).
Proof.
  intros Hws Hne Hdigits Hrest. unfold getNumber. cbn [nan_or_not_number].
  rewrite (parseInt_decimal_numeral ws digits rest Hws Hne Hdigits Hrest).
  unfold nan_or_not_number, of_Z. rewrite binary_normalize_number. reflexivity.
Qed.

Lemma getNumber_decimal_string_witness :
  getNumber (VString (str "  480px")) = Some (of_Z 480).
Proof.
  apply (getNumber_decimal_string (str "  ") (str "480") (str "px")).
  - reflexivity.
  - discriminate.
  - reflexivity.
  - reflexivity.
Defined.

(* ===================================================================== *)
(** * More on [hashString] (lines 139-146) *)
(* ===================================================================== *)

Section HexFacts.

Lemma unhex_table :
  forallb (fun b => match hex_byte b with
                    | [x; y] =>
                        match URIDecode.hex_value x, URIDecode.hex_value y with
                        | Some hi, Some lo => 16 * hi + lo =? b
                        | _, _ => false
                        end
                    | _ => false
                    end)
          (map N.of_nat (seq 0 256)) = true.
Proof. vm_compute. reflexivity. Qed.

Lemma unhex_hex_byte b rest bytes :
  b < 256 -> unhex rest = Some bytes -> unhex (hex_byte b ++ rest) = Some (b :: bytes).
Proof.
  intros Hb Hrest.
  pose proof unhex_table as T. rewrite forallb_forall in T.
  specialize (T b). 
  assert (Hin : In b (map N.of_nat (seq 0 256))).
  { apply in_map_iff. exists (N.to_nat b). split; [apply N2Nat.id|]. apply in_seq. lia. }
  specialize (T Hin).
  destruct (hex_byte b) as [|x [|y [|z l]]]; try discriminate.
  cbn [app unhex].
  destruct (URIDecode.hex_value x) as [hi|]; [|discriminate].
  destruct (URIDecode.hex_value y) as [lo|]; [|discriminate].
  apply N.eqb_eq in T. rewrite Hrest, T. reflexivity.
Qed.

Lemma unhex_join bytes :
  Forall (fun b => b < 256) bytes -> unhex (join (map hex_byte bytes)) = Some bytes.
Proof.
  unfold join. induction 1 as [|b bytes Hb _ IH]; [reflexivity|].
  cbn [map concat]. apply unhex_hex_byte; assumption.
Qed.

End HexFacts.

(** X5.  The hexadecimal text [hashString] returns can be read back into
    the 32 octets of the digest: the encoding loses nothing, so two inputs
    get the same text only when their digests are equal. *)
Theorem hashString_reads_back (inputStr : jsstring) :
  unhex (hashString inputStr) = Some (SHA256.digest (TextEncoder.encode inputStr))
  /\ forall other,
       hashString other = hashString inputStr ->
       SHA256.digest (TextEncoder.encode other) = SHA256.digest (TextEncoder.encode inputStr).
Proof.
  assert (Hback : forall s, unhex (hashString s) = Some (SHA256.digest (TextEncoder.encode s))).
  { intros s. unfold hashString. cbv zeta. apply unhex_join, digest_small. }
  split; [apply Hback|].
  intros other Heq. pose proof (Hback other) as Ho. rewrite Heq, Hback in Ho.
  generalize dependent (SHA256.digest (TextEncoder.encode other)).
  generalize (SHA256.digest (TextEncoder.encode inputStr)).
  intros a b Hab. congruence.
Qed.

Lemma hashString_reads_back_witness :
  unhex (str "ba7816bf8f01cfea414140de5dae2223b00361a396177a9cb410ff61f20015ad")
  = Some (SHA256.digest (TextEncoder.encode (str "abc")))
  /\ SHA256.digest (TextEncoder.encode (str "abc"))
     = SHA256.digest (TextEncoder.encode (str "abc")).
Proof.
  destruct (hashString_reads_back (str "abc")) as [Hback Hinj].
  split.
  - rewrite <- Hback. vm_compute. reflexivity.
  - apply Hinj. reflexivity.
Defined.

(* ===================================================================== *)
(** * More on the handlers *)
(* ===================================================================== *)

Section MoreHandlerFacts.
Context `{Platform}.

Lemma armed_keeps s :
  this (armed s) = this s
  /\ now (world (armed s)) = now (world s)
  /\ kv (world (armed s)) = kv (world s)
  /\ sessions (world (armed s)) = sessions (world s)
  /\ launched (world (armed s)) = launched (world s).
Proof. destruct s as [i [t [a|] m ss n tr]]; repeat split. Qed.

Lemma ensured_same o s : has_live_browser s = true -> ensured o s = s.
Proof. unfold ensured. intros ->. reflexivity. Qed.

Lemma ensured_sessions o s : sessions (world s) ⊆ sessions (world (ensured o s)).
Proof.
  unfold ensured. destruct (has_live_browser s); [set_solver|].
  destruct (launch_ok o); cbn; set_solver.
Qed.

(** What the second half of the handler leaves as it was after lines
    73-80, whatever the outcome. *)
Lemma serve_frame o parsedObj href key s :
  let s' := snd (serve o parsedObj href key s) in
  now (world s') = now (world s)
  /\ browser (this s') = browser (this (ensured o s))
  /\ sessions (world s') = sessions (world (ensured o s))
  /\ launched (world s') = launched (world (ensured o s)).
Proof.
  rewrite serve_run. cbv zeta.
  destruct (ensured_keeps o s) as (Hn & _ & _ & _).
  assert (Hhit : let s' := armed (extend [EvKVGet key] (ensured o s)) in
            now (world s') = now (world s)
            /\ browser (this s') = browser (this (ensured o s))
            /\ sessions (world s') = sessions (world (ensured o s))
            /\ launched (world s') = launched (world (ensured o s))).
  { cbv zeta.
    destruct (armed_keeps (extend [EvKVGet key] (ensured o s))) as (Ht & Hnow & _ & Hs & Hl).
    rewrite Ht, Hnow, Hs, Hl. cbn [extend this world now sessions launched]. auto. }
  cbv zeta in Hhit.
  remember (browser (this (ensured o s))) as b eqn:Hb.
  destruct (kv_lookup (world s) key) as [img|]; [destruct b; exact Hhit|].
  destruct b as [h|]; [|exact Hhit].
  rewrite render_run.
  change (sessions (world (extend [EvKVGet key] (ensured o s))))
    with (sessions (world (ensured o s))).
  destruct (bool_decide (h ∈ sessions (world (ensured o s)))); [|cbn; auto].
  destruct (viewport parsedObj) as [dims|e]; [|cbn; auto].
  cbv zeta. destruct (navigates o href); [|cbn; auto].
  destruct (shoot o href dims) as [img|]; [|cbn; auto].
  cbn [snd].
  destruct (armed_keeps (rendered h dims href key img (extend [EvKVGet key] (ensured o s))))
    as (Ht & Hnow & _ & Hs & Hl).
  rewrite Ht, Hnow, Hs, Hl. cbn. auto.
Qed.

Lemma fetch_frame o request s :
  let s' := snd (Browser.fetch o request s) in
  now (world s') = now (world s)
  /\ (s' = s
      \/ (browser (this s') = browser (this (ensured o s))
          /\ sessions (world s') = sessions (world (ensured o s))
          /\ launched (world s') = launched (world (ensured o s)))).
Proof.
  rewrite fetch_read.
  destruct (read_request request) as [|e| | |url parsedObj optionsStr];
    try (cbn [snd]; split; [reflexivity|left; reflexivity]).
  destruct (serve_frame o parsedObj (URL_href url) (hashString optionsStr) s)
    as (Hn & Hb & Hs & Hl).
  split; [exact Hn|right; auto].
Qed.

(** A request that opened a page and was answered stored the image for one
    day. *)
Lemma fetch_rendered o request s resp s1 h :
  Browser.fetch o request s = (Ret resp, s1) ->
  In (EvNewPage h) (new_events s s1) ->
  exists url parsedObj optionsStr img,
    read_request request = Accepted url parsedObj optionsStr
    /\ resp = Response_image (Some img)
    /\ now (world s1) = now (world s)
    /\ kv (world s1)
       = <[hashString optionsStr := (img, (now (world s) + 86400000)%Z)]> (kv (world s)).
Proof.
  intros Hrun Hpage.
  apply fetch_answered in Hrun
    as [[-> _] | (url & parsedObj & optionsStr & Hread & [(img & _ & ->) | Hrendered])].
  - rewrite new_events_same in Hpage. destruct Hpage.
  - exfalso. revert Hpage.
    erewrite new_events_app
      with (evs := ensure_events o s ++ [EvKVGet (hashString optionsStr)]
                   ++ arm_events (extend [EvKVGet (hashString optionsStr)] (ensured o s))).
    + apply no_render_event_in.
      rewrite !forallb_app, ensure_events_no_render, arm_events_no_render. reflexivity.
    + rewrite trace_armed, trace_extend, trace_ensured, <- !app_assoc. reflexivity.
  - destruct Hrendered as (h' & dims & img & -> & _ & _ & _ & ->).
    exists url, parsedObj, optionsStr, img. split; [exact Hread|]. split; [reflexivity|].
    destruct (ensured_keeps o s) as (Hn & _ & Hk & _).
    match goal with
    | |- context [armed ?x] => destruct (armed_keeps x) as (_ & Hnow & Hkv & _)
    end.
    rewrite Hnow, Hkv. cbn [rendered counter_reset stored extend world this now kv].
    rewrite Hn, Hk. split; reflexivity.
Qed.

(** The events of a request served from the cache. *)
Lemma hit_events o key s :
  new_events s (armed (extend [EvKVGet key] (ensured o s)))
  = ensure_events o s ++ [EvKVGet key] ++ arm_events s.
Proof.
  apply new_events_app.
  rewrite trace_armed, trace_extend, trace_ensured, arm_events_extend, <- !app_assoc.
  f_equal. f_equal. f_equal.
  unfold arm_events. destruct (ensured_keeps o s) as (-> & -> & _). reflexivity.
Qed.

Lemma alarm_fires_run s :
  let k := (keptAliveInSeconds (this s) + 10)%Z in
  let w := world s in
  Browser.alarm_fires s =
  (Ret tt,
   {| this := {| keptAliveInSeconds := k; browser := browser (this s) |};
      world :=
        if (k <? 60)%Z then
          mkWorld (now w) (Some (now w + 10000)%Z) (kv w) (sessions w) (launched w)
                  (trace w ++ [EvSetKeptAlive k; EvLog (LogExtending k);
                               EvSetAlarm (now w + 10000)%Z])
        else
          match browser (this s) with
          | Some h =>
              mkWorld (now w) None (kv w) (sessions w ∖ {[h]}) (launched w)
                      (trace w ++ [EvSetKeptAlive k; EvLog LogExceeded; EvLog LogClosing;
                                   EvBrowserClose h])
          | None =>
              mkWorld (now w) None (kv w) (sessions w) (launched w)
                      (trace w ++ [EvSetKeptAlive k; EvLog LogExceeded])
          end |}).
Proof.
  destruct s as [[k b] [t a m ss n tr]].
  unfold Browser.alarm_fires, Browser.alarm, bind, get_keptAlive, set_keptAlive, bind, emit,
    with_world, console_log, emit, with_world, Date_now, setAlarm, get_browser, browser_close,
    with_world, ret, KEEP_BROWSER_ALIVE_IN_SECONDS.
  cbn [this world keptAliveInSeconds browser now scheduled kv sessions launched trace].
  destruct (k + 10 <? 60)%Z.
  - cbn. rewrite <- !app_assoc. reflexivity.
  - destruct b as [h|]; cbn; rewrite <- !app_assoc; reflexivity.
Qed.

Lemma step_owns i s s' :
  step i s = Some s' -> field_owns_sessions s -> field_owns_sessions s'.
Proof.
  unfold field_owns_sessions. intros Hstep Hown.
  destruct i as [o request| |ms|h0]; cbn [step] in Hstep.
  - injection Hstep as <-.
    destruct (fetch_frame o request s) as (_ & [-> | (Hb & Hs & _)]); [exact Hown|].
    rewrite Hb, Hs. unfold ensured.
    destruct (has_live_browser s) eqn:Hlive; [exact Hown|].
    destruct (launch_ok o).
    + cbn [this world browser sessions]. intros h Hh.
      apply elem_of_union in Hh as [Hh|Hh]; [apply elem_of_singleton in Hh; congruence|].
      exfalso. pose proof (Hown h Hh) as Hfield.
      unfold has_live_browser in Hlive. rewrite Hfield in Hlive.
      apply bool_decide_eq_false in Hlive. contradiction.
    + exact Hown.
  - destruct (scheduled (world s)) as [t|]; [|discriminate].
    destruct (t <=? now (world s))%Z; [|discriminate].
    injection Hstep as <-. rewrite alarm_fires_run. cbv zeta. cbn [snd this browser world].
    destruct (_ <? 60)%Z; [exact Hown|].
    destruct (browser (this s)) as [h1|]; cbn [sessions].
    + intros h Hh. apply elem_of_difference in Hh as [Hh _].
      apply Hown. exact Hh.
    + exact Hown.
  - destruct (0 <=? ms)%Z; [|discriminate]. injection Hstep as <-. exact Hown.
  - injection Hstep as <-. cbn [this world sessions]. intros h Hh.
    apply elem_of_difference in Hh as [Hh _]. apply Hown. exact Hh.
Qed.

Lemma run_owns inputs : forall s s',
  run inputs s = Some s' -> field_owns_sessions s -> field_owns_sessions s'.
Proof.
  induction inputs as [|i inputs IH]; intros s s' Hrun Hown; cbn [run] in Hrun.
  - injection Hrun as <-. exact Hown.
  - destruct (step i s) as [s1|] eqn:Hstep; [|discriminate].
    apply (IH s1 s' Hrun). apply (step_owns i s s1 Hstep Hown).
Qed.

End MoreHandlerFacts.

(** The two sample requests are accepted. *)
Lemma wide_request_read :
  exists url,
    read_request wide_request
    = Accepted url (VObject [(str "xMax", VString (str "480"))])
               (qstr "{'json':{'xMax':'480'}}").
Proof.
  assert (Hread : match read_request wide_request with
                  | Accepted _ parsedObj optionsStr =>
                      parsedObj = VObject [(str "xMax", VString (str "480"))]
                      /\ optionsStr = qstr "{'json':{'xMax':'480'}}"
                  | _ => False
                  end) by (vm_compute; split; reflexivity).
  destruct (read_request wide_request) as [|e| | |url parsedObj optionsStr];
    try (exfalso; exact Hread).
  destruct Hread as [-> ->]. exists url. reflexivity.
Qed.

Lemma null_request_read :
  exists url, read_request null_request = Accepted url VNull (qstr "{'json':null}").
Proof.
  assert (Hread : match read_request null_request with
                  | Accepted _ parsedObj optionsStr =>
                      parsedObj = VNull /\ optionsStr = qstr "{'json':null}"
                  | _ => False
                  end) by (vm_compute; split; reflexivity).
  destruct (read_request null_request) as [|e| | |url parsedObj optionsStr];
    try (exfalso; exact Hread).
  destruct Hread as [-> ->]. exists url. reflexivity.
Qed.

(** X6.  Every response either handler returns has status 200: a failure
    shows as an exception or as a 200 without body, never as an error
    status. *)
Theorem answers_have_status_200 `{Platform} (o : Oracle) (request : Request) (s s' : state)
  (resp : Response) :
  Browser.fetch o request s = (Ret resp, s') \/ PerRequest.fetch o request s = (Ret resp, s') ->
  status resp = 200%Z.
Proof.
  rewrite fetch_read, once_read.
  destruct (read_request request) as [|e| | |url parsedObj optionsStr];
    try (intros [Hrun|Hrun]; first [discriminate | injection Hrun as <- _; reflexivity]).
  rewrite serve_run, serve_once_run. cbv zeta. intros [Hrun|Hrun].
  - destruct (kv_lookup (world s) (hashString optionsStr)) as [img|].
    + destruct (browser (this (ensured o s))); injection Hrun as <- _; reflexivity.
    + destruct (browser (this (ensured o s))) as [h|]; [|injection Hrun as <- _; reflexivity].
      destruct (Browser.render _ _ _ _ _ _) as [[img|e] s2]; [|discriminate].
      injection Hrun as <- _. reflexivity.
  - destruct (kv_lookup (world s) (hashString optionsStr)) as [img|];
      [injection Hrun as <- _; reflexivity|].
    destruct (PerRequest.render _ _ _ _ _) as [[img|e] s2]; [|discriminate].
    injection Hrun as <- _. reflexivity.
Qed.

Lemma answers_have_status_200_witness :
  status (Response_image (Some [255; 216; 255])) = 200%Z
  /\ status (Response_text msg_missing_url) = 200%Z.
Proof.
  split.
  - apply (answers_have_status_200 always_works wide_request initial
             (snd (Browser.fetch always_works wide_request initial))).
    left. vm_compute. reflexivity.
  - apply (answers_have_status_200 always_works {| req_url := str "https://worker.example/" |}
             initial initial).
    right. vm_compute. reflexivity.
Defined.

(** X7.  A request whose key is in the cache is answered with the cached
    octets.  The Durable Object still runs lines 73-80 first (it launches a
    browser when it holds no connected one) and arms the alarm, but opens
    no page, writes nothing to the cache and leaves the counter alone; the
    per-request worker only reads the cache. *)
Theorem cache_hit_served `{Platform} (o : Oracle) (request : Request) (s : state)
  (url : URL) (parsedObj : JSValue) (optionsStr : jsstring) (img : list N) :
  read_request request = Accepted url parsedObj optionsStr ->
  kv_lookup (world s) (hashString optionsStr) = Some img ->
  (exists s',
      Browser.fetch o request s = (Ret (Response_image (Some img)), s')
      /\ new_events s s'
         = ensure_events o s ++ [EvKVGet (hashString optionsStr)] ++ arm_events s
      /\ kv (world s') = kv (world s)
      /\ keptAliveInSeconds (this s') = keptAliveInSeconds (this s))
  /\ PerRequest.fetch o request s
     = (Ret (Response_image (Some img)), extend [EvKVGet (hashString optionsStr)] s)
  /\ body (Response_image (Some img)) = BodyBytes img.
Proof.
  intros Hread Hhit. split; [|split; [|reflexivity]].
  - rewrite fetch_read, Hread, serve_run, Hhit. cbv zeta.
    exists (armed (extend [EvKVGet (hashString optionsStr)] (ensured o s))).
    split; [destruct (browser (this (ensured o s))); reflexivity|].
    split; [apply hit_events|].
    destruct (armed_keeps (extend [EvKVGet (hashString optionsStr)] (ensured o s)))
      as (Ht & _ & Hkv & _).
    destruct (ensured_keeps o s) as (_ & _ & Hk & Hc).
    rewrite Ht, Hkv. cbn [extend this world kv]. auto.
  - rewrite once_read, Hread, serve_once_run, Hhit. reflexivity.
Qed.

Lemma cache_hit_served_witness :
  (exists s',
      Browser.fetch never_launches wide_request
        (snd (Browser.fetch always_works wide_request initial))
      = (Ret (Response_image (Some [255; 216; 255])), s')
      /\ keptAliveInSeconds (this s')
         = keptAliveInSeconds (this (snd (Browser.fetch always_works wide_request initial))))
  /\ fst (PerRequest.fetch never_launches wide_request
            (snd (Browser.fetch always_works wide_request initial)))
     = Ret (Response_image (Some [255; 216; 255])).
Proof.
  destruct wide_request_read as [url Hread].
  assert (Hhit : kv_lookup (world (snd (Browser.fetch always_works wide_request initial)))
                           (hashString (qstr "{'json':{'xMax':'480'}}"))
                 = Some [255; 216; 255]) by (vm_compute; reflexivity).
  destruct (cache_hit_served never_launches wide_request
              (snd (Browser.fetch always_works wide_request initial)) url _ _
              [255; 216; 255] Hread Hhit) as ((s' & Hrun & _ & _ & Hk) & Honce & _).
  split.
  - exists s'. split; [exact Hrun|exact Hk].
  - rewrite Honce. reflexivity.
Defined.

(** X8.  Once a request was rendered and answered, the same request is
    answered with the same response from the cache, without a page being
    opened, for as long as the entry is kept and less than 24 hours have
    passed; this holds whatever happened to the browser in between. *)
Theorem rendered_image_served_again `{Platform} (o o' : Oracle) (request : Request)
  (s s1 s2 : state) (resp : Response) (h : nat) :
  Browser.fetch o request s = (Ret resp, s1) ->
  In (EvNewPage h) (new_events s s1) ->
  kv (world s2) = kv (world s1) ->
  (now (world s2) < now (world s1) + 86400000)%Z ->
  exists s3,
    Browser.fetch o' request s2 = (Ret resp, s3)
    /\ forallb (fun e => negb (render_event e)) (new_events s2 s3) = true.
Proof.
  intros Hrun Hpage Hkv Hnow.
  destruct (fetch_rendered o request s resp s1 h Hrun Hpage)
    as (url & parsedObj & optionsStr & img & Hread & -> & Hn & Hstored).
  assert (Hhit : kv_lookup (world s2) (hashString optionsStr) = Some img).
  { unfold kv_lookup. rewrite Hkv, Hstored, lookup_insert_eq.
    rewrite <- Hn. apply Z.ltb_lt in Hnow. rewrite Hnow. reflexivity. }
  rewrite fetch_read, Hread, serve_run, Hhit. cbv zeta.
  exists (armed (extend [EvKVGet (hashString optionsStr)] (ensured o' s2))).
  split; [destruct (browser (this (ensured o' s2))); reflexivity|].
  rewrite hit_events, !forallb_app, ensure_events_no_render, arm_events_no_render.
  reflexivity.
Qed.

Lemma rendered_image_served_again_witness :
  exists s3,
    Browser.fetch never_launches wide_request
      (snd (Browser.fetch always_works wide_request initial))
    = (Ret (Response_image (Some [255; 216; 255])), s3).
Proof.
  destruct (rendered_image_served_again always_works never_launches wide_request initial
              (snd (Browser.fetch always_works wide_request initial))
              (snd (Browser.fetch always_works wide_request initial))
              (Response_image (Some [255; 216; 255])) 0%nat) as (s3 & Hrun & _).
  - vm_compute. reflexivity.
  - vm_compute. do 4 right. left. reflexivity.
  - reflexivity.
  - lia.
  - exists s3. exact Hrun.
Defined.

(** X9.  Twenty-four hours after a request was rendered its entry has
    expired: unless the image was stored again in the meantime, the same
    request is no longer answered from the cache, so an answer either
    comes from a new render or has no body. *)
Theorem rendered_image_expires `{Platform} (o o' : Oracle) (request : Request)
  (s s1 s2 s3 : state) (resp resp' : Response) (h : nat) :
  Browser.fetch o request s = (Ret resp, s1) ->
  In (EvNewPage h) (new_events s s1) ->
  kv (world s2) = kv (world s1) ->
  (now (world s1) + 86400000 <= now (world s2))%Z ->
  Browser.fetch o' request s2 = (Ret resp', s3) ->
  body resp' = BodyNone \/ exists h', In (EvNewPage h') (new_events s2 s3).
Proof.
  intros Hrun Hpage Hkv Hnow Hrun'.
  destruct (fetch_rendered o request s resp s1 h Hrun Hpage)
    as (url & parsedObj & optionsStr & img & Hread & -> & Hn & Hstored).
  assert (Hmiss : kv_lookup (world s2) (hashString optionsStr) = None).
  { unfold kv_lookup. rewrite Hkv, Hstored, lookup_insert_eq.
    rewrite <- Hn. apply Z.ltb_ge in Hnow. rewrite Hnow. reflexivity. }
  rewrite fetch_read, Hread, serve_run, Hmiss in Hrun'. cbv zeta in Hrun'.
  destruct (browser (this (ensured o' s2))) as [h'|];
    [|injection Hrun' as <- _; left; reflexivity].
  destruct (Browser.render _ _ _ _ _ _) as [[img'|e] s4] eqn:Hrender; [|discriminate].
  injection Hrun' as _ <-. right. exists h'.
  apply render_ok in Hrender as (dims & _ & _ & _ & _ & ->).
  erewrite new_events_app
    with (evs := (ensure_events o' s2 ++ [EvKVGet (hashString optionsStr)])
                 ++ render_events h' dims (URL_href url) (hashString optionsStr) img'
                 ++ arm_events (rendered h' dims (URL_href url) (hashString optionsStr) img'
                                  (extend [EvKVGet (hashString optionsStr)] (ensured o' s2)))).
  - apply in_or_app. right. apply in_or_app. left. right. left. reflexivity.
  - rewrite trace_armed, trace_rendered, trace_extend, trace_ensured, <- !app_assoc.
    reflexivity.
Qed.

Lemma rendered_image_expires_witness :
  let s1 := snd (Browser.fetch always_works wide_request initial) in
  let s2 := {| this := this s1;
               world := mkWorld (now (world s1) + 86400000) (scheduled (world s1))
                                (kv (world s1)) (sessions (world s1)) (launched (world s1))
                                (trace (world s1)) |} in
  exists h', In (EvNewPage h')
                (new_events s2 (snd (Browser.fetch always_works wide_request s2))).
Proof.
  intros s1 s2.
  destruct (rendered_image_expires always_works always_works wide_request initial
              s1 s2 (snd (Browser.fetch always_works wide_request s2))
              (Response_image (Some [255; 216; 255])) (Response_image (Some [255; 216; 255]))
              0%nat) as [Hbody|Hpage].
  - vm_compute. reflexivity.
  - vm_compute. do 4 right. left. reflexivity.
  - vm_compute. reflexivity.
  - vm_compute. intros Hc. discriminate Hc.
  - vm_compute. reflexivity.
  - discriminate Hbody.
  - exact Hpage.
Defined.

(** X10.  [Browser.fetch] never ends a session, whatever its outcome; and
    when the field [browser] holds a connected session, the request
    launches nothing and leaves the field and the sessions as they were. *)
Theorem live_browser_is_reused `{Platform} (o : Oracle) (request : Request) (s : state) :
  let s' := snd (Browser.fetch o request s) in
  sessions (world s) ⊆ sessions (world s')
  /\ (has_live_browser s = true ->
      browser (this s') = browser (this s)
      /\ sessions (world s') = sessions (world s)
      /\ launched (world s') = launched (world s)).
Proof.
  cbv zeta. destruct (fetch_frame o request s) as (_ & [-> | (Hb & Hs & Hl)]).
  - split; [set_solver|auto].
  - rewrite Hb, Hs, Hl. split; [apply ensured_sessions|].
    intros Hlive. rewrite (ensured_same o s Hlive). auto.
Qed.

Lemma live_browser_is_reused_witness :
  browser (this (snd (Browser.fetch always_works tall_request
                        (snd (Browser.fetch always_works wide_request initial)))))
  = browser (this (snd (Browser.fetch always_works wide_request initial))).
Proof.
  destruct (live_browser_is_reused always_works tall_request
              (snd (Browser.fetch always_works wide_request initial))) as [_ Hlive].
  destruct Hlive as (Hb & _ & _); [vm_compute; reflexivity|exact Hb].
Defined.

(** X11.  Through every sequence of requests, alarms, passing time and
    dropped sessions that a fresh instance goes through, every connected
    session is the one the field [browser] holds: the instance never has
    two sessions open, and none it has lost track of. *)
Theorem sessions_belong_to_field `{Platform} (inputs : list input) (s : state) :
  run inputs initial = Some s ->
  field_owns_sessions s
  /\ forall h1 h2, h1 ∈ sessions (world s) -> h2 ∈ sessions (world s) -> h1 = h2.
Proof.
  intros Hrun.
  assert (Hown : field_owns_sessions s).
  { apply (run_owns inputs initial s Hrun). intros h Hh. cbn in Hh. set_solver. }
  split; [exact Hown|].
  intros h1 h2 H1 H2. pose proof (Hown h1 H1) as E1. pose proof (Hown h2 H2) as E2.
  congruence.
Qed.

Lemma sessions_belong_to_field_witness :
  field_owns_sessions (snd (Browser.fetch always_works tall_request
                              (snd (Browser.fetch always_works wide_request initial)))).
Proof.
  apply (sessions_belong_to_field
           [Fetch always_works wide_request; Fetch always_works tall_request]).
  vm_compute. reflexivity.
Defined.

Section FailureFacts.
Context `{Platform}.

Lemma ensure_events_no_completion o s :
  forallb (fun e => negb (completion_event e)) (ensure_events o s) = true.
Proof.
  unfold ensure_events. destruct (has_live_browser s); [reflexivity|].
  destruct (launch_ok o); reflexivity.
Qed.

(** A state in which a render stopped, [evs] being the events after the
    page was asked for. *)
Lemma stopped_render_state o key h evs s s' :
  scheduled (world s') = scheduled (world (ensured o s)) ->
  kv (world s') = kv (world (ensured o s)) ->
  trace (world s')
  = trace (world (ensured o s)) ++ [EvKVGet key; EvSetKeptAlive 0; EvNewPage h] ++ evs ->
  forallb (fun e => negb (completion_event e)) evs = true ->
  scheduled (world s') = scheduled (world s)
  /\ kv (world s') = kv (world s)
  /\ forallb (fun e => negb (completion_event e)) (new_events s s') = true.
Proof.
  intros Hs' Hk' Ht Hevs.
  destruct (ensured_keeps o s) as (_ & Hs & Hk & _).
  split; [congruence|]. split; [congruence|].
  erewrite new_events_app
    with (evs := ensure_events o s ++ [EvKVGet key; EvSetKeptAlive 0; EvNewPage h] ++ evs).
  - rewrite !forallb_app, ensure_events_no_completion, Hevs. reflexivity.
  - rewrite Ht, trace_ensured, <- !app_assoc. reflexivity.
Qed.

End FailureFacts.

(** The events of a request that ended in an exception hold no [put], no
    closing of a page or of a session and no [setAlarm]; the alarm and
    the cache are as before. *)
Lemma throwing_request_events `{Platform} (o : Oracle) (request : Request)
  (s s' : state) (e : exn) :
  Browser.fetch o request s = (Throw e, s') ->
  scheduled (world s') = scheduled (world s)
  /\ kv (world s') = kv (world s)
  /\ forallb (fun ev => negb (completion_event ev)) (new_events s s') = true.
Proof.
  rewrite fetch_read.
  destruct (read_request request) as [|e0| | |url parsedObj optionsStr]; try discriminate.
  - intros [= _ <-]. rewrite new_events_same. auto.
  - rewrite serve_run. cbv zeta.
    set (key := hashString optionsStr).
    destruct (kv_lookup (world s) key) as [img|];
      [destruct (browser (this (ensured o s))); discriminate|].
    destruct (browser (this (ensured o s))) as [h|]; [|discriminate].
    rewrite render_run.
    change (sessions (world (extend [EvKVGet key] (ensured o s))))
      with (sessions (world (ensured o s))).
    assert (Hstop : forall evs st,
              scheduled (world st) = scheduled (world (ensured o s)) ->
              kv (world st) = kv (world (ensured o s)) ->
              trace (world st)
              = ((trace (world (ensured o s)) ++ [EvKVGet key]) ++ [EvSetKeptAlive 0])
                ++ [EvNewPage h] ++ evs ->
              forallb (fun ev => negb (completion_event ev)) evs = true ->
              scheduled (world st) = scheduled (world s)
              /\ kv (world st) = kv (world s)
              /\ forallb (fun ev => negb (completion_event ev)) (new_events s st) = true).
    { intros evs st Hs Hk Ht Hevs.
      apply (stopped_render_state o key h evs s st Hs Hk); [|exact Hevs].
      rewrite Ht, <- !app_assoc. reflexivity. }
    destruct (bool_decide (h ∈ sessions (world (ensured o s)))).
    + destruct (viewport parsedObj) as [dims|e1].
      * cbv zeta. destruct (navigates o (URL_href url)).
        -- destruct (shoot o (URL_href url) dims) as [img|]; [discriminate|].
           intros [= _ <-].
           apply (Hstop [EvSetViewport (fst dims) (snd dims); EvGoto (URL_href url);
                         EvScreenshot]); [reflexivity|reflexivity| |reflexivity].
           unfold counter_reset. cbn [extend world trace].
           rewrite <- !app_assoc. reflexivity.
        -- intros [= _ <-].
           apply (Hstop [EvSetViewport (fst dims) (snd dims); EvGoto (URL_href url)]);
             [reflexivity|reflexivity| |reflexivity].
           unfold counter_reset. cbn [extend world trace].
           rewrite <- !app_assoc. reflexivity.
      * intros [= _ <-].
        apply (Hstop []); [reflexivity|reflexivity| |reflexivity].
        unfold counter_reset. cbn [extend world trace].
        rewrite <- !app_assoc. reflexivity.
    + intros [= _ <-].
      apply (Hstop []); [reflexivity|reflexivity| |reflexivity].
      unfold counter_reset. cbn [extend world trace].
      rewrite <- !app_assoc. reflexivity.
Qed.

(** X12.  A request of the Durable Object that ends in an exception
    before it has called [put] on the cache and before it has called
    [getAlarm] (the request cannot be read, the page is refused, the
    options are no record, the navigation or the screenshot fails) leaves
    the alarm and the cache as they were, and a page it opened is not
    closed; no session is closed either.  The two hypotheses on the
    events leave out the requests that end in a rejection of [put],
    [page.close()], [getAlarm()] or [setAlarm()]. *)
Theorem failed_request_leaves_no_trace `{Platform} (o : Oracle) (request : Request)
  (s s' : state) (e : exn) :
  Browser.fetch o request s = (Throw e, s') ->
  (forall key value ttl, ~ In (EvKVPut key value ttl) (new_events s s')) ->
  ~ In EvGetAlarm (new_events s s') ->
  scheduled (world s') = scheduled (world s)
  /\ kv (world s') = kv (world s)
  /\ ~ In EvPageClose (new_events s s')
  /\ (forall h, ~ In (EvBrowserClose h) (new_events s s'))
  /\ (forall t, ~ In (EvSetAlarm t) (new_events s s')).
Proof.
  intros Hrun _ _.
  destruct (throwing_request_events o request s s' e Hrun) as (Hs & Hk & Hev).
  rewrite forallb_forall in Hev.
  split; [exact Hs|]. split; [exact Hk|].
  split; [|split]; [|intros h|intros t]; intros Hin; specialize (Hev _ Hin);
    discriminate Hev.
Qed.

Lemma failed_request_leaves_no_trace_witness :
  scheduled (world (snd (Browser.fetch never_navigates wide_request initial))) = None
  /\ kv (world (snd (Browser.fetch never_navigates wide_request initial))) = ∅.
Proof.
  destruct (failed_request_leaves_no_trace never_navigates wide_request initial
              (snd (Browser.fetch never_navigates wide_request initial)) BrowserError)
    as (Hs & Hk & _).
  - vm_compute. reflexivity.
  - intros key value ttl Hin. vm_compute in Hin.
    repeat (destruct Hin as [Hin|Hin]; [discriminate Hin|]). exact Hin.
  - intros Hin. vm_compute in Hin.
    repeat (destruct Hin as [Hin|Hin]; [discriminate Hin|]). exact Hin.
  - rewrite Hs, Hk. split; reflexivity.
Defined.

(** With an alarm due within ten seconds, [n] alarms ten seconds
    apart take the counter from [k] to [k + 10 n], as long as the alarms
    before the last one found it below 60.  The field [browser] and the
    cache stay as they are; the last alarm schedules the next one if the
    counter is still below 60, and otherwise schedules none and closes the
    session the field holds. *)
Lemma idle_alarms_run `{Platform} (n : nat) (s : state) (t : Z) :
  scheduled (world s) = Some t ->
  (t <= now (world s) + 10000)%Z ->
  (0 < n)%nat ->
  (keptAliveInSeconds (this s) + 10 * Z.of_nat n < 70)%Z ->
  exists s',
    run (idle_alarms n) s = Some s'
    /\ keptAliveInSeconds (this s') = (keptAliveInSeconds (this s) + 10 * Z.of_nat n)%Z
    /\ browser (this s') = browser (this s)
    /\ kv (world s') = kv (world s)
    /\ now (world s') = (now (world s) + 10000 * Z.of_nat n)%Z
    /\ (if (keptAliveInSeconds (this s) + 10 * Z.of_nat n <? 60)%Z
        then scheduled (world s') = Some (now (world s') + 10000)%Z
             /\ sessions (world s') = sessions (world s)
        else scheduled (world s') = None
             /\ sessions (world s')
                = match browser (this s) with
                  | Some h => sessions (world s) ∖ {[h]}
                  | None => sessions (world s)
                  end).
Proof.
  intros Hsched Hdue Hpos. revert s t Hsched Hdue.
  induction n as [|n IH]; [lia|]. intros s t Hsched Hdue Hbound.
  unfold idle_alarms. cbn [repeat concat app run step].
  change (0 <=? 10000)%Z with true. cbv iota.
  cbn [world scheduled now]. rewrite Hsched.
  destruct (Z.leb_spec t (now (world s) + 10000)) as [_|Hlt]; [|lia].
  rewrite alarm_fires_run. cbv zeta. cbn [snd this world keptAliveInSeconds browser now].
  destruct n as [|n].
  - (* the last alarm *)
    cbn [repeat concat run].
    eexists. split; [reflexivity|].
    cbn [this world keptAliveInSeconds browser].
    change (Z.of_nat 1) with 1%Z. rewrite !Z.mul_1_r.
    split; [reflexivity|]. split; [reflexivity|].
    destruct (keptAliveInSeconds (this s) + 10 <? 60)%Z.
    + cbn [kv now scheduled sessions]. auto.
    + destruct (browser (this s)); cbn [kv now scheduled sessions]; auto.
  - (* an alarm that is followed by others *)
    assert (Hlow : (keptAliveInSeconds (this s) + 10 <? 60)%Z = true).
    { apply Z.ltb_lt. lia. }
    rewrite Hlow.
    match goal with
    | |- context [run _ ?st] =>
        destruct (IH ltac:(lia) st (now (world s) + 10000 + 10000)%Z)
          as (s' & Hrun & Hk & Hb & Hkv & Hnow & Hlast)
    end.
    + reflexivity.
    + cbn [world now]. lia.
    + cbn [this keptAliveInSeconds]. lia.
    + exists s'. split; [exact Hrun|].
      cbn [this world keptAliveInSeconds browser kv now sessions] in Hk, Hb, Hkv, Hnow, Hlast.
      replace (keptAliveInSeconds (this s) + 10 + 10 * Z.of_nat (S n))%Z
        with (keptAliveInSeconds (this s) + 10 * Z.of_nat (S (S n)))%Z in * by lia.
      split; [exact Hk|]. split; [exact Hb|]. split; [exact Hkv|].
      split; [rewrite Hnow; lia|]. exact Hlast.
Qed.

(** X13.  With an alarm due within ten seconds, [n] alarms ten seconds
    apart take the counter from [k] to [k + 10 n], as long as the alarms
    before the last one found it below 60.  The field [browser] and the
    cache stay as they are; the last alarm schedules the next one if the
    counter is still below 60, and otherwise schedules none and closes the
    session the field holds. *)
Theorem idle_countdown `{Platform} (n : nat) (s : state) (t : Z) :
  scheduled (world s) = Some t ->
  (t <= now (world s) + 10000)%Z ->
  (0 < n)%nat ->
  (keptAliveInSeconds (this s) + 10 * Z.of_nat n < 70)%Z ->
  exists s',
    run (idle_alarms n) s = Some s'
    /\ keptAliveInSeconds (this s') = (keptAliveInSeconds (this s) + 10 * Z.of_nat n)%Z
    /\ browser (this s') = browser (this s)
    /\ kv (world s') = kv (world s)
    /\ now (world s') = (now (world s) + 10000 * Z.of_nat n)%Z
    /\ (if (keptAliveInSeconds (this s) + 10 * Z.of_nat n <? 60)%Z
        then scheduled (world s') = Some (now (world s') + 10000)%Z
             /\ sessions (world s') = sessions (world s)
        else scheduled (world s') = None
             /\ sessions (world s')
                = match browser (this s) with
                  | Some h => sessions (world s) ∖ {[h]}
                  | None => sessions (world s)
                  end).
Proof. apply idle_alarms_run. Qed.

Lemma idle_countdown_witness :
  exists s',
    run (idle_alarms 6) (snd (Browser.fetch always_works wide_request initial)) = Some s'
    /\ keptAliveInSeconds (this s') = 60%Z
    /\ scheduled (world s') = None.
Proof.
  assert (Hk0 : keptAliveInSeconds (this (snd (Browser.fetch always_works wide_request initial)))
                = 0%Z) by (vm_compute; reflexivity).
  destruct (idle_countdown 6 (snd (Browser.fetch always_works wide_request initial)) 10000)
    as (s' & Hrun & Hk & _ & _ & _ & Hlast).
  - vm_compute. reflexivity.
  - vm_compute. intros Hc. discriminate Hc.
  - lia.
  - rewrite Hk0. reflexivity.
  - exists s'. split; [exact Hrun|].
    rewrite Hk0 in Hk, Hlast.
    change (0 + 10 * Z.of_nat 6 <? 60)%Z with false in Hlast.
    split; [rewrite Hk; reflexivity|exact (proj1 Hlast)].
Defined.

(** X14.  The per-request worker, on a cache miss with a launch that
    succeeds, starts a session of its own.  When the request is answered
    that session has been closed; when a later step throws (the options
    are no record, the navigation or the screenshot fails) the session is
    left open. *)
Theorem per_request_session `{Platform} (o : Oracle) (request : Request) (s : state)
  (url : URL) (parsedObj : JSValue) (optionsStr : jsstring) :
  read_request request = Accepted url parsedObj optionsStr ->
  kv_lookup (world s) (hashString optionsStr) = None ->
  launch_ok o = true ->
  let h := launched (world s) in
  let r := PerRequest.fetch o request s in
  In (EvLaunch (Some h)) (new_events s (snd r))
  /\ match fst r with
     | Ret _ =>
         (h ∉ sessions (world (snd r))) /\ In (EvBrowserClose h) (new_events s (snd r))
     | Throw _ => h ∈ sessions (world (snd r))
     end.
Proof.
  intros Hread Hmiss Hok. cbv zeta.
  rewrite once_read, Hread, serve_once_run, Hmiss. cbv zeta.
  rewrite once_render_run by exact Hok. cbv zeta.
  change (launched (world (extend _ s))) with (launched (world s)).
  generalize (hashString optionsStr) as key. generalize (URL_href url) as href.
  intros href key.
  assert (Hev : forall evs s',
            trace (world s')
            = trace (world s) ++ [EvKVGet key; EvLaunch (Some (launched (world s)));
                                  EvNewPage (launched (world s))] ++ evs ->
            new_events s s'
            = [EvKVGet key; EvLaunch (Some (launched (world s)));
               EvNewPage (launched (world s))] ++ evs).
  { intros evs s' Ht. apply new_events_app. exact Ht. }
  destruct (viewport parsedObj) as [dims|e].
  - destruct (navigates o href).
    + destruct (shoot o href dims) as [img|]; cbn [fst snd].
      * rewrite (Hev [EvSetViewport (fst dims) (snd dims); EvGoto href; EvScreenshot;
                      EvKVPut key img ONE_DAY; EvBrowserClose (launched (world s))])
          by (cbn [stored extend launched_state world trace launched];
              rewrite <- !app_assoc; reflexivity).
        split; [right; left; reflexivity|]. split.
        -- cbn [stored extend launched_state world sessions launched].
           intros Hin. apply elem_of_difference in Hin as [_ Hn].
           apply Hn, elem_of_singleton. reflexivity.
        -- do 7 right. left. reflexivity.
      * rewrite (Hev [EvSetViewport (fst dims) (snd dims); EvGoto href; EvScreenshot])
          by (cbn [extend launched_state world trace launched];
              rewrite <- !app_assoc; reflexivity).
        split; [right; left; reflexivity|].
        cbn [extend launched_state world sessions launched].
      apply elem_of_union_l, elem_of_singleton. reflexivity.
    + cbn [fst snd].
      rewrite (Hev [EvSetViewport (fst dims) (snd dims); EvGoto href])
        by (cbn [extend launched_state world trace launched];
            rewrite <- !app_assoc; reflexivity).
      split; [right; left; reflexivity|].
      cbn [extend launched_state world sessions launched].
      apply elem_of_union_l, elem_of_singleton. reflexivity.
  - cbn [fst snd].
    rewrite (Hev [])
      by (cbn [extend launched_state world trace launched];
          rewrite <- !app_assoc; reflexivity).
    split; [right; left; reflexivity|].
    cbn [extend launched_state world sessions launched].
      apply elem_of_union_l, elem_of_singleton. reflexivity.
Qed.

Lemma per_request_session_witness :
  (0%nat ∉ sessions (world (snd (PerRequest.fetch always_works wide_request initial))))
  /\ (0%nat ∈ sessions (world (snd (PerRequest.fetch never_navigates wide_request initial)))).
Proof.
  destruct wide_request_read as [url Hread].
  assert (Hmiss : kv_lookup (world initial) (hashString (qstr "{'json':{'xMax':'480'}}"))
                  = None) by (vm_compute; reflexivity).
  assert (Hgood : fst (PerRequest.fetch always_works wide_request initial)
                  = Ret (Response_image (Some [255; 216; 255]))) by (vm_compute; reflexivity).
  assert (Hbad : fst (PerRequest.fetch never_navigates wide_request initial)
                 = Throw BrowserError) by (vm_compute; reflexivity).
  split.
  - pose proof (per_request_session always_works wide_request initial url _ _
                  Hread Hmiss eq_refl) as [_ Hend].
    cbv zeta in Hend. rewrite Hgood in Hend. exact (proj1 Hend).
  - pose proof (per_request_session never_navigates wide_request initial url _ _
                  Hread Hmiss eq_refl) as [_ Hend].
    cbv zeta in Hend. rewrite Hbad in Hend. exact Hend.
Defined.

(** X15.  When the launch fails on a cache miss, the Durable Object that
    holds no handle logs the failure and answers 200 with the image
    content type and no body, and arms the alarm; the per-request worker
    ends in the exception of the launch. *)
Theorem launch_failure_answers `{Platform} (o : Oracle) (request : Request) (s : state)
  (url : URL) (parsedObj : JSValue) (optionsStr : jsstring) :
  read_request request = Accepted url parsedObj optionsStr ->
  kv_lookup (world s) (hashString optionsStr) = None ->
  launch_ok o = false ->
  (browser (this s) = None ->
   exists s',
     Browser.fetch o request s = (Ret (Response_image None), s')
     /\ body (Response_image None) = BodyNone
     /\ browser (this s') = None
     /\ scheduled (world s') <> None
     /\ new_events s s'
        = [EvLog LogStarting; EvLaunch None; EvLog (LogCouldNotStart LaunchError);
           EvKVGet (hashString optionsStr)] ++ arm_events s)
  /\ PerRequest.fetch o request s
     = (Throw LaunchError,
        extend [EvLaunch None] (extend [EvKVGet (hashString optionsStr)] s)).
Proof.
  intros Hread Hmiss Hfail. split.
  - intros Hnone.
    destruct (launch_failure_without_handle o request s url parsedObj optionsStr
                Hread Hnone Hfail Hmiss) as (s' & Hrun & _ & Hbody & Hb & Hev).
    exists s'. split; [exact Hrun|]. split; [exact Hbody|]. split; [exact Hb|].
    split; [|exact Hev].
    pose proof Hrun as Hrun'. rewrite fetch_read, Hread, serve_run, Hmiss in Hrun'.
    cbv zeta in Hrun'.
    assert (Hs : s' = armed (extend [EvKVGet (hashString optionsStr)] (ensured o s))).
    { destruct (browser (this (ensured o s))) as [h|] eqn:Hbe.
      - exfalso. unfold ensured, has_live_browser in Hbe. rewrite Hnone, Hfail in Hbe.
        cbn in Hbe. congruence.
      - injection Hrun' as <-. reflexivity. }
    rewrite Hs, scheduled_armed. discriminate.
  - rewrite once_read, Hread, serve_once_run, Hmiss. cbv zeta.
    unfold PerRequest.render, bind, puppeteer_launch. rewrite Hfail.
    reflexivity.
Qed.

Lemma launch_failure_answers_witness :
  fst (Browser.fetch never_launches wide_request initial) = Ret (Response_image None)
  /\ fst (PerRequest.fetch never_launches wide_request initial) = Throw LaunchError.
Proof.
  destruct wide_request_read as [url Hread].
  assert (Hmiss : kv_lookup (world initial) (hashString (qstr "{'json':{'xMax':'480'}}"))
                  = None) by (vm_compute; reflexivity).
  destruct (launch_failure_answers never_launches wide_request initial url _ _
              Hread Hmiss eq_refl) as [Hdo Honce].
  split.
  - destruct (Hdo eq_refl) as (s' & Hrun & _). rewrite Hrun. reflexivity.
  - rewrite Honce. reflexivity.
Defined.

(** X16.  Only a render resets the counter.  So when the Durable Object
    starts a browser for a request that the cache then answers, and the
    counter stands at 50 or more, the alarm that follows closes that
    browser again without it having opened a page. *)
Theorem browser_started_for_cached_image `{Platform} (o : Oracle) (request : Request)
  (s : state) (url : URL) (parsedObj : JSValue) (optionsStr : jsstring) (img : list N) :
  read_request request = Accepted url parsedObj optionsStr ->
  kv_lookup (world s) (hashString optionsStr) = Some img ->
  has_live_browser s = false ->
  launch_ok o = true ->
  (50 <= keptAliveInSeconds (this s))%Z ->
  let h := launched (world s) in
  let s1 := snd (Browser.fetch o request s) in
  let s2 := snd (Browser.alarm_fires s1) in
  browser (this s1) = Some h
  /\ (h ∈ sessions (world s1))
  /\ scheduled (world s1) <> None
  /\ (h ∉ sessions (world s2))
  /\ scheduled (world s2) = None
  /\ forall h', ~ In (EvNewPage h') (new_events s s2).
Proof.
  intros Hread Hhit Hdead Hok Hk. cbv zeta.
  assert (Hb : browser (this (ensured o s)) = Some (launched (world s))).
  { unfold ensured. rewrite Hdead, Hok. reflexivity. }
  assert (Hss : sessions (world (ensured o s)) = {[launched (world s)]} ∪ sessions (world s)).
  { unfold ensured. rewrite Hdead, Hok. reflexivity. }
  rewrite fetch_read, Hread, serve_run, Hhit. cbv zeta. cbn [snd].
  set (key := hashString optionsStr).
  set (s1 := armed (extend [EvKVGet key] (ensured o s))).
  destruct (armed_keeps (extend [EvKVGet key] (ensured o s))) as (Ht & _ & _ & Hs & _).
  fold s1 in Ht, Hs. cbn [extend this world sessions] in Ht, Hs.
  destruct (ensured_keeps o s) as (_ & _ & _ & Hc).
  split; [rewrite Ht; exact Hb|].
  split; [rewrite Hs, Hss; apply elem_of_union_l, elem_of_singleton; reflexivity|].
  split; [unfold s1; rewrite scheduled_armed; discriminate|].
  rewrite alarm_fires_run. cbv zeta. cbn [snd]. rewrite Ht, Hb, Hc.
  destruct (Z.ltb_spec (keptAliveInSeconds (this s) + 10) 60) as [Hlt|_]; [lia|].
  cbn [world sessions scheduled].
  split; [intros Hin; apply elem_of_difference in Hin as [_ Hn];
          apply Hn, elem_of_singleton; reflexivity|].
  split; [reflexivity|].
  intros h'.
  erewrite new_events_app
    with (evs := (ensure_events o s ++ [EvKVGet key] ++ arm_events s)
                 ++ [EvSetKeptAlive (keptAliveInSeconds (this s) + 10); EvLog LogExceeded;
                     EvLog LogClosing; EvBrowserClose (launched (world s))]).
  - intros Hin. apply in_app_or in Hin as [Hin|Hin].
    + revert Hin. apply no_render_event_in.
      rewrite !forallb_app, ensure_events_no_render, arm_events_no_render. reflexivity.
    + cbn in Hin. intuition discriminate.
  - cbn [world trace]. unfold s1.
    rewrite trace_armed, trace_extend, trace_ensured, arm_events_extend, <- !app_assoc.
    do 3 f_equal. 
    unfold arm_events. destruct (ensured_keeps o s) as (-> & -> & _). reflexivity.
Qed.

Lemma browser_started_for_cached_image_witness :
  let s1 := snd (Browser.fetch always_works wide_request after_idle_minute) in
  browser (this s1) = Some 1%nat
  /\ (1%nat ∈ sessions (world s1))
  /\ (1%nat ∉ sessions (world (snd (Browser.alarm_fires s1)))).
Proof.
  destruct wide_request_read as [url Hread].
  assert (Hl : launched (world after_idle_minute) = 1%nat) by (vm_compute; reflexivity).
  destruct (browser_started_for_cached_image always_works wide_request after_idle_minute
              url _ _ [255; 216; 255] Hread) as (Hb & Hin & _ & Hout & _).
  - vm_compute. reflexivity.
  - vm_compute. reflexivity.
  - reflexivity.
  - vm_compute. intros Hc. discriminate Hc.
  - cbv zeta in Hb, Hin, Hout. rewrite Hl in Hb, Hin, Hout. cbv zeta. auto.
Defined.

(** X17.  When the options text carries no record ([json] is [null] or
    missing), the request is accepted, and on a cache miss with a browser
    at hand the Durable Object resets the counter, opens a page, and then
    ends in a TypeError on reading [xMax]: nothing is stored, the page is
    not closed and no alarm is armed. *)
Theorem options_without_record `{Platform} (o : Oracle) (request : Request) (s : state)
  (url : URL) (parsedObj : JSValue) (optionsStr : jsstring) :
  read_request request = Accepted url parsedObj optionsStr ->
  parsedObj = VNull \/ parsedObj = VUndefined ->
  kv_lookup (world s) (hashString optionsStr) = None ->
  launch_ok o = true ->
  exists h s',
    Browser.fetch o request s = (Throw TypeError, s')
    /\ browser (this s') = Some h
    /\ new_events s s'
       = ensure_events o s ++ [EvKVGet (hashString optionsStr); EvSetKeptAlive 0; EvNewPage h]
    /\ kv (world s') = kv (world s)
    /\ scheduled (world s') = scheduled (world s).
Proof.
  intros Hread Hobj Hmiss Hok.
  destruct (ensured_live o s Hok) as (h & Hb & Hlive).
  rewrite fetch_read, Hread, serve_run, Hmiss. cbv zeta. rewrite Hb, render_run.
  change (sessions (world (extend _ (ensured o s)))) with (sessions (world (ensured o s))).
  rewrite Hlive.
  assert (Hview : viewport parsedObj = Throw TypeError).
  { destruct Hobj as [-> | ->]; reflexivity. }
  rewrite Hview.
  destruct (ensured_keeps o s) as (_ & Hs & Hk & _).
  exists h. eexists. split; [reflexivity|].
  split; [exact Hb|]. split; [|split; [exact Hk|exact Hs]].
  apply new_events_app. unfold counter_reset. rewrite !trace_extend. cbn [world trace].
  rewrite !trace_extend, trace_ensured, <- !app_assoc. reflexivity.
Qed.

Lemma options_without_record_witness :
  fst (Browser.fetch always_works null_request initial) = Throw TypeError
  /\ scheduled (world (snd (Browser.fetch always_works null_request initial))) = None.
Proof.
  destruct null_request_read as [url Hread].
  assert (Hmiss : kv_lookup (world initial) (hashString (qstr "{'json':null}")) = None)
    by (vm_compute; reflexivity).
  destruct (options_without_record always_works null_request initial url _ _
              Hread (or_introl eq_refl) Hmiss eq_refl) as (h & s' & Hrun & _ & _ & _ & Hs).
  rewrite Hrun. cbn [fst snd]. rewrite Hs. split; reflexivity.
Defined.

Section IdleFacts.
Context `{Platform}.

(** The state a request that opened a page and was answered ends in. *)
Lemma fetch_rendered_state o request s resp s1 h :
  Browser.fetch o request s = (Ret resp, s1) ->
  In (EvNewPage h) (new_events s s1) ->
  keptAliveInSeconds (this s1) = 0%Z
  /\ browser (this s1) = Some h
  /\ (h ∈ sessions (world s1))
  /\ now (world s1) = now (world s)
  /\ scheduled (world s1)
     = Some (match scheduled (world s) with
             | Some t => t
             | None => (now (world s) + 10000)%Z
             end).
Proof.
  intros Hrun Hpage.
  pose proof Hrun as Hrun'. rewrite fetch_read in Hrun'.
  apply fetch_answered in Hrun
    as [[-> _] | (url & parsedObj & optionsStr & Hread & [(img & _ & ->) | Hrendered])].
  - rewrite new_events_same in Hpage. destruct Hpage.
  - exfalso. revert Hpage. rewrite hit_events. apply no_render_event_in.
    rewrite !forallb_app, ensure_events_no_render, arm_events_no_render. reflexivity.
  - destruct Hrendered as (h' & dims & img & -> & Hb & Hmiss & Hview & ->).
    rewrite Hread, serve_run, Hmiss, Hb in Hrun'. cbv zeta in Hrun'.
    destruct (Browser.render _ _ _ _ _ _) as [[img'|e] s2] eqn:Hrender; [|discriminate].
    apply render_ok in Hrender as (dims' & Hlive & _ & _ & _ & _).
    change (sessions (world (extend _ (ensured o s)))) with (sessions (world (ensured o s)))
      in Hlive.
    apply bool_decide_eq_true in Hlive.
    set (key := hashString optionsStr) in *.
    set (s0 := extend [EvKVGet key] (ensured o s)) in *.
    assert (h = h') as <-.
    { revert Hpage.
      erewrite new_events_app
        with (evs := (ensure_events o s ++ [EvKVGet key])
                     ++ render_events h' dims (URL_href url) key img
                     ++ arm_events (rendered h' dims (URL_href url) key img s0)).
      - intros Hpage. apply in_app_or in Hpage as [Hin|Hin].
        + exfalso. revert Hin. apply no_render_event_in.
          rewrite forallb_app, ensure_events_no_render. reflexivity.
        + apply in_app_or in Hin as [Hin|Hin].
          * eapply new_page_in_render_events; eassumption.
          * exfalso. revert Hin. apply no_render_event_in, arm_events_no_render.
      - rewrite trace_armed, trace_rendered. unfold s0.
        rewrite trace_extend, trace_ensured, <- !app_assoc. reflexivity. }
    destruct (armed_keeps (rendered h dims (URL_href url) key img s0))
      as (Ht & Hnow & _ & Hs & _).
    destruct (ensured_keeps o s) as (Hn & Hsched & _).
    rewrite Ht, Hs, Hnow, scheduled_armed.
    cbn [rendered counter_reset stored extend s0 this world keptAliveInSeconds browser
         sessions now scheduled].
    rewrite Hn, Hsched. repeat split; assumption.
Qed.

End IdleFacts.

(** X18.  After a request that was rendered and answered, with no alarm
    pending beyond ten seconds, the browser stays connected through five
    alarms ten seconds apart and is closed by the sixth: the counter then
    stands at 60, no alarm is scheduled any more, and the field [browser]
    still holds the handle of the closed session. *)
Theorem browser_closed_after_idle_minute `{Platform} (o : Oracle) (request : Request)
  (s s1 : state) (resp : Response) (h : nat) :
  Browser.fetch o request s = (Ret resp, s1) ->
  In (EvNewPage h) (new_events s s1) ->
  (forall t, scheduled (world s) = Some t -> (t <= now (world s) + 10000)%Z) ->
  exists s5 s6,
    run (idle_alarms 5) s1 = Some s5
    /\ (h ∈ sessions (world s5))
    /\ run (idle_alarms 6) s1 = Some s6
    /\ (h ∉ sessions (world s6))
    /\ keptAliveInSeconds (this s6) = 60%Z
    /\ scheduled (world s6) = None
    /\ browser (this s6) = Some h.
Proof.
  intros Hrun Hpage Hdue.
  destruct (fetch_rendered_state o request s resp s1 h Hrun Hpage)
    as (Hk & Hb & Hin & Hnow & Hsched).
  assert (Hdue1 : (match scheduled (world s) with
                   | Some t => t
                   | None => (now (world s) + 10000)%Z
                   end <= now (world s1) + 10000)%Z).
  { rewrite Hnow. destruct (scheduled (world s)) as [t|]; [apply Hdue; reflexivity|lia]. }
  destruct (idle_alarms_run 5 s1 _ Hsched Hdue1 ltac:(lia))
    as (s5 & Hrun5 & _ & _ & _ & _ & Hlast5); [rewrite Hk; lia|].
  destruct (idle_alarms_run 6 s1 _ Hsched Hdue1 ltac:(lia))
    as (s6 & Hrun6 & Hk6 & Hb6 & _ & _ & Hlast6); [rewrite Hk; lia|].
  rewrite Hk in Hlast5, Hlast6, Hk6. rewrite Hb in Hlast6, Hb6.
  change (0 + 10 * Z.of_nat 5 <? 60)%Z with true in Hlast5.
  change (0 + 10 * Z.of_nat 6 <? 60)%Z with false in Hlast6.
  destruct Hlast5 as [_ Hs5]. destruct Hlast6 as [Hs6 Hss6].
  exists s5, s6. split; [exact Hrun5|]. split; [rewrite Hs5; exact Hin|].
  split; [exact Hrun6|].
  split; [rewrite Hss6; intros Hc; apply elem_of_difference in Hc as [_ Hn];
          apply Hn, elem_of_singleton; reflexivity|].
  split; [rewrite Hk6; reflexivity|]. split; [exact Hs6|exact Hb6].
Qed.

Lemma browser_closed_after_idle_minute_witness :
  let s1 := snd (Browser.fetch always_works wide_request initial) in
  exists s5 s6,
    run (idle_alarms 5) s1 = Some s5
    /\ (0%nat ∈ sessions (world s5))
    /\ run (idle_alarms 6) s1 = Some s6
    /\ (0%nat ∉ sessions (world s6)).
Proof.
  intros s1.
  destruct (browser_closed_after_idle_minute always_works wide_request initial s1
              (Response_image (Some [255; 216; 255])) 0%nat)
    as (s5 & s6 & H5 & Hin & H6 & Hout & _).
  - vm_compute. reflexivity.
  - vm_compute. do 4 right. left. reflexivity.
  - intros t Ht. discriminate Ht.
  - exists s5, s6. auto.
Defined.

(** X19.  Whatever the options hold, the width and the height handed to
    [setViewport] are never zero and never NaN. *)
Theorem viewport_never_zero (parsedObj : JSValue) (width height : number) :
  viewport parsedObj = Ret (width, height) ->
  is_zero width = false /\ isNaN width = false
  /\ is_zero height = false /\ isNaN height = false.
Proof.
  assert (Hdef : forall x d, truthy d = true -> truthy (or_default x d) = true).
  { intros [n|] d Hd; cbn [or_default]; [|exact Hd].
    destruct (truthy n) eqn:Hn; [exact Hn|exact Hd]. }
  unfold viewport.
  destruct (get_member parsedObj (str "xMax")) as [vx|e]; [|discriminate].
  destruct (get_member parsedObj (str "yMax")) as [vy|e]; [|discriminate].
  intros [= <- <-].
  pose proof (Hdef (getNumber vx) default_xMax eq_refl) as Hx.
  pose proof (Hdef (getNumber vy) default_yMax eq_refl) as Hy.
  unfold truthy in Hx, Hy. apply negb_true_iff, orb_false_elim in Hx, Hy.
  tauto.
Qed.

Lemma viewport_never_zero_witness :
  is_zero (of_Z 360) = false /\ isNaN (of_Z 1600) = false.
Proof.
  destruct (viewport_never_zero
              (VObject [(str "xMax", VNumber (of_Z 0)); (str "yMax", VString (str "px"))])
              (of_Z 360) (of_Z 1600)) as (Hx & _ & _ & Hy).
  - vm_compute. reflexivity.
  - split; assumption.
Defined.
